(** * md-to-pdf: configuration resolution and math-stylesheet inlining

    A shallow embedding of [src/lib/get-marked-with-highlighter.ts] and of
    the conversion entry point [convertMdToPdf] with its helpers
    [isKatexExtension], [getMimeType], [loadKatexCss] and
    [ensureKatexSupport].

    JavaScript values are an inductive type; objects are finite maps from
    property names to values; the configuration objects that the code
    mutates live in a store indexed by locations, so that object identity
    (the [WeakSet] of activated configurations) is part of the model.
    Library and platform functions the code calls but does not define
    ([JSON.parse], [path], [gray-matter], [marked-katex-extension], the
    helpers of the repository that are not part of the verified files) are
    fields of a [Host] record: every theorem holds for every host. *)

From stdpp Require Import gmap strings list fin_maps pretty.
From Stdlib Require Import Ascii String ZArith Lia.

Set Warnings "-register-all".
Open Scope string_scope.
Open Scope list_scope.

(** ** JavaScript values *)

(** An IEEE double, as far as the code looks at it: only its truthiness
    matters ([NaN] and both zeros are falsy). *)
Inductive number :=
| NaN
| Infinity (negative : bool)
| Finite (negative : bool) (mantissa : N) (exponent : Z).

Inductive value :=
| VUndef
| VNull
| VBool (b : bool)
| VNum (n : number)
| VStr (s : string)
| VArr (items : list value)
| VObj (props : gmap string value)
| VFun (name : string).

(** The double-quote character and the newline, which string literals of
    this file do not spell out. *)
Definition dquote : ascii := "034"%char.
Definition newline : string := String "010"%char EmptyString.

Definition number_truthy (n : number) : bool :=
  match n with
  | NaN => false
  | Infinity _ => true
  | Finite _ m _ => negb (N.eqb m 0)
  end.

(** [Boolean(v)] *)
Definition truthy (v : value) : bool :=
  match v with
  | VUndef | VNull => false
  | VBool b => b
  | VNum n => number_truthy n
  | VStr EmptyString => false
  | VStr _ => true
  | VArr _ | VObj _ | VFun _ => true
  end.

(** [Array.isArray(v)] *)
Definition isArray (v : value) : bool :=
  match v with VArr _ => true | _ => false end.

(** [v === undefined] *)
Definition isUndefined (v : value) : bool :=
  match v with VUndef => true | _ => false end.

(** [v === s] for a string literal [s] *)
Definition isString (s : string) (v : value) : bool :=
  match v with VStr t => String.eqb t s | _ => false end.

(** [typeof v === 'object'] ([null] included, functions excluded) *)
Definition typeofObject (v : value) : bool :=
  match v with VNull | VArr _ | VObj _ => true | _ => false end.

(** [o[k]] on an object held as a map: a missing property reads as
    [undefined]. *)
Definition field (o : gmap string value) (k : string) : value :=
  default VUndef (o !! k).

(** Outcome of a computation that may throw. *)
Inductive error :=
| TypeError (what : string)
| SyntaxError (what : string)
| IOError (path : string)
| Failure (message : string)
| OutsideModel (what : string).

Inductive outcome (A : Type) :=
| Ok (a : A)
| Throw (e : error).
Arguments Ok {A} a.
Arguments Throw {A} e.

(** [v.k] for the property names the code reads ([pdf_options]' fields,
    [extensions], [name]): reading from [undefined] or [null] throws, an
    object answers from its map, a function knows its [name], and arrays
    and primitives have none of these properties. *)
Definition getProp (v : value) (k : string) : outcome value :=
  match v with
  | VUndef | VNull => Throw (TypeError k)
  | VObj o => Ok (field o k)
  | VFun n => Ok (if String.eqb k "name" then VStr n else VUndef)
  | _ => Ok VUndef
  end.

(** [v?.k] *)
Definition getPropOpt (v : value) (k : string) : value :=
  match getProp v k with Ok x => x | Throw _ => VUndef end.

(** The own enumerable properties copied by an object spread [{...v}]:
    those of an object, the indexed elements of an array, the indexed
    characters of a string, nothing for the other primitives. *)
Definition indexed {A} (f : A -> value) (l : list A) : gmap string value :=
  list_to_map (imap (fun i x => (pretty i, f x)) l).

Definition ownProps (v : value) : gmap string value :=
  match v with
  | VObj o => o
  | VArr l => indexed id l
  | VStr s => indexed (fun c => VStr (String c EmptyString)) (list_ascii_of_string s)
  | _ => ∅
  end.

(** ** The markdown renderer with the default highlighter ([getMarked]) *)

Module Highlighter.

(** highlight.js, as the code uses it: [getLanguage(name)] is truthy for
  a registered language, [highlight(code, {language}).value] renders
  (and throws for an unknown language). *)
Record hljs := {
  getLanguage : string -> bool;
  highlight : string -> string -> outcome string
}.

(** A marked option is data or, for [highlight], a function. *)
Inductive markedOption :=
| OptValue (v : value)
| OptHighlight (f : string -> string -> outcome string).

(** The state of the [marked] singleton: its defaults and the
  extension packs registered with [marked.use]. *)
Record marked := {
  defaults : gmap string markedOption;
  used : list value
}.

(** marked, the library, as far as [marked.use] does more than copy: from
  the defaults in force and an extension pack, what it puts under the
  keys it combines itself ([async], [extensions], [renderer],
  [tokenizer], [walkTokens]), or the error it throws for a malformed
  extension. *)
Record markedLib := {
  combine : gmap string markedOption -> value -> outcome (gmap string markedOption)
}.

Section WithHljs.
Variable hl : hljs.
Variable lib : markedLib.

(** [(code, languageName) => ...], lines 6-10 *)
Definition defaultHighlight (code languageName : string) : outcome string :=
  let language := if getLanguage hl languageName then languageName else "plaintext" in
  highlight hl code language.

(** The object literal passed to [marked.setOptions], lines 5-13:
    later keys win, so the spread of [options] comes on the left of
    the left-biased union. *)
Definition getMarkedOptions (options : gmap string markedOption)
  : gmap string markedOption :=
  options ∪ <["langPrefix" := OptValue (VStr "hljs ")]>
             (<["highlight" := OptHighlight defaultHighlight]> ∅).

(** [marked.setOptions(opt)] merges [opt] into the defaults. *)
Definition setOptions (opt : gmap string markedOption) (m : marked) : marked :=
  {| defaults := opt ∪ defaults m; used := used m |}.

(** What [marked.use] does with one pack: it copies the pack's own
    options, puts what the library combines in their place, and merges
    the result into the defaults with [marked.setOptions]. The options of
    a pack thus come after those set before, the caller's included. *)
Definition usePack (pack : value) (m : marked) : outcome marked :=
  match combine lib (defaults m) pack with
  | Ok combined =>
      Ok (setOptions (combined ∪ (OptValue <$> ownProps pack))
            {| defaults := defaults m; used := used m ++ [pack] |})
  | Throw e => Throw e
  end.

(** [marked.use(...extensions)]: one pack after the other. *)
Fixpoint use (extensions : list value) (m : marked) : outcome marked :=
  match extensions with
  | [] => Ok m
  | pack :: rest =>
      match usePack pack m with
      | Ok m' => use rest m'
      | Throw e => Throw e
      end
  end.

(** [getMarked(options, extensions)]: the state of [marked] that the
    returned parser [markdown => marked.parse(markdown)] runs in, or the
    error of [marked.use]. *)
Definition getMarked (options : gmap string markedOption)
    (extensions : list value) (m : marked) : outcome marked :=
  let m1 := setOptions (getMarkedOptions options) m in
  if decide (0 < List.length extensions) then use extensions m1 else Ok m1.

(** A pack that says nothing about [key]: it does not carry the option,
    and the library combines nothing under that key for it. *)
Definition quietOn (key : string) (pack : value) : Prop :=
  ownProps pack !! key = None
  /\ forall d combined, combine lib d pack = Ok combined -> combined !! key = None.

End WithHljs.

End Highlighter.

(** ** The host: platform and library functions the code calls *)

(** What [gray-matter] hands back as [data]: an [Error] instance, held
    as the text the console shows for it, or the parsed front matter,
    which is whatever value the YAML block denotes (an object, as a
    rule). *)
Inductive frontMatter :=
| FMError (shown : string)
| FMData (data : value).

(** [{ path: string } | { content: string }] *)
Inductive input :=
| InPath (path : string)
| InContent (content : string).

(** What [generateOutput] produces. *)
Record output := {
  filename : option string;
  content : string
}.

Class Host := {
  (** [JSON.parse] *)
  JSON_parse : string -> outcome value;
  (** [String(v)] for a value that is not a string *)
  toStringValue : value -> string;
  (** [String.prototype.toLowerCase] *)
  toLowerCase : string -> string;
  (** [path.dirname], [path.extname], [path.resolve], [path.relative] *)
  path_dirname : string -> string;
  path_extname : string -> string;
  path_resolve : list string -> string;
  path_relative : string -> string -> string;
  (** [require.resolve] *)
  require_resolve : string -> outcome string;
  (** [Buffer.prototype.toString('base64')] is modelled below; the
      decoding of the markdown file by [readFile] is the host's. *)
  decodeFile : value -> string -> outcome string;
  (** [grayMatter(content, options)] *)
  grayMatter : string -> value -> outcome (string * frontMatter);
  (** [markedKatex(options)] *)
  markedKatex : value -> value;
  (** Helpers of the repository outside the verified files. *)
  getMarginObject : string -> outcome value;
  getOutputFilePath : string -> string -> string;
  getHtml : string -> gmap string value -> outcome string;
  generateOutput : string -> string -> gmap string value -> outcome (option output);
  (** whether [fs.writeFile] succeeds on a path *)
  writable : string -> bool
}.

(** ** The store and the process state *)

Definition loc := positive.

Record world := {
  (** the [Config] objects, by identity *)
  store : gmap loc (gmap string value);
  (** [const configsWithKatexCss = new WeakSet<Config>()] *)
  configsWithKatexCss : gset loc;
  (** [let cachedKatexCss: string | undefined] *)
  cachedKatexCss : option string;
  (** the file system, and the paths read so far (latest first) *)
  files : gmap string string;
  reads : list string;
  (** [console.warn] and [process.stdout.write] *)
  warnings : list string;
  stdout : list string
}.

Definition withStore (f : gmap loc (gmap string value) -> gmap loc (gmap string value))
  (w : world) : world :=
  {| store := f (store w); configsWithKatexCss := configsWithKatexCss w;
     cachedKatexCss := cachedKatexCss w; files := files w; reads := reads w;
     warnings := warnings w; stdout := stdout w |}.

Definition withKatexSet (f : gset loc -> gset loc) (w : world) : world :=
  {| store := store w; configsWithKatexCss := f (configsWithKatexCss w);
     cachedKatexCss := cachedKatexCss w; files := files w; reads := reads w;
     warnings := warnings w; stdout := stdout w |}.

Definition withCache (c : option string) (w : world) : world :=
  {| store := store w; configsWithKatexCss := configsWithKatexCss w;
     cachedKatexCss := c; files := files w; reads := reads w;
     warnings := warnings w; stdout := stdout w |}.

Definition withFiles (f : gmap string string -> gmap string string) (w : world) : world :=
  {| store := store w; configsWithKatexCss := configsWithKatexCss w;
     cachedKatexCss := cachedKatexCss w; files := f (files w); reads := reads w;
     warnings := warnings w; stdout := stdout w |}.

Definition withRead (p : string) (w : world) : world :=
  {| store := store w; configsWithKatexCss := configsWithKatexCss w;
     cachedKatexCss := cachedKatexCss w; files := files w; reads := p :: reads w;
     warnings := warnings w; stdout := stdout w |}.

Definition withWarning (m : string) (w : world) : world :=
  {| store := store w; configsWithKatexCss := configsWithKatexCss w;
     cachedKatexCss := cachedKatexCss w; files := files w; reads := reads w;
     warnings := m :: warnings w; stdout := stdout w |}.

Definition withStdout (m : string) (w : world) : world :=
  {| store := store w; configsWithKatexCss := configsWithKatexCss w;
     cachedKatexCss := cachedKatexCss w; files := files w; reads := reads w;
     warnings := warnings w; stdout := m :: stdout w |}.

(** A computation reads and writes the world and returns or throws; what
    it wrote before throwing stays written. *)
Definition M (A : Type) : Type := world -> world * outcome A.

Definition ret {A} (a : A) : M A := fun w => (w, Ok a).

Definition throw {A} (e : error) : M A := fun w => (w, Throw e).

Definition bind {A B} (c : M A) (k : A -> M B) : M B :=
  fun w => match c w with
           | (w', Ok a) => k a w'
           | (w', Throw e) => (w', Throw e)
           end.

Notation "'let!' x ':=' c 'in' k" := (bind c (fun x => k))
  (at level 10, x name, c at level 100, k at level 200).
Notation "'do!' c 'in' k" := (bind c (fun _ => k))
  (at level 10, c at level 100, k at level 200).

Definition lift {A} (o : outcome A) : M A := fun w => (w, o).

(** Reading the object at a location. *)
Definition getConfig (l : loc) : M (gmap string value) :=
  fun w => match store w !! l with
           | Some c => (w, Ok c)
           | None => (w, Throw (OutsideModel "no object at this location"))
           end.

(** Running a piece of code that mutates the object at [l]. *)
Definition stepConfig {A} (l : loc)
  (f : gmap string value -> gmap string value * outcome A) : M A :=
  fun w => match store w !! l with
           | Some c => let (c', r) := f c in (withStore <[l := c']> w, r)
           | None => (w, Throw (OutsideModel "no object at this location"))
           end.

(** An object literal: a new object at a location not in use. *)
Definition allocConfig (c : gmap string value) : M loc :=
  fun w => let l := fresh (dom (store w)) in (withStore <[l := c]> w, Ok l).

Definition warn (m : string) : M unit := fun w => (withWarning m w, Ok tt).

(** [fs.readFile(path)] *)
Definition fs_readFile (p : string) : M string :=
  fun w => match files w !! p with
           | Some bytes => (withRead p w, Ok bytes)
           | None => (withRead p w, Throw (IOError p))
           end.

(** ** Merging the configuration layers ([convertMdToPdf], lines 146-180) *)

Section Merge.
Context `{Host}.

(** A template literal's conversion of a value to a string. *)
Definition templateString (v : value) : string :=
  match v with VStr s => s | _ => toStringValue v end.

(** [JSON.parse(v)]: the argument is converted to a string first. *)
Definition jsonParse (v : value) : outcome value :=
  JSON_parse (templateString v).

(** [args[k]] on the invocation overrides, held as [Object.entries(args)]. *)
Fixpoint argsGet (args : list (string * value)) (k : string) : value :=
  match args with
  | [] => VUndef
  | (k', v) :: rest => if String.eqb k' k then v else argsGet rest k
  end.

(** Lines 150-154:
    [{ ...config, ...frontMatterConfig,
       pdf_options: { ...config.pdf_options, ...frontMatterConfig.pdf_options } }].
    In a spread the later source wins; [∪] prefers its left operand.
    Reading [pdf_options] off a front matter that is [null] throws. *)
Definition mergeFrontMatter (config : gmap string value) (frontMatterConfig : value)
  : outcome (gmap string value) :=
  match getProp frontMatterConfig "pdf_options" with
  | Throw e => Throw e
  | Ok pdf_options =>
      Ok (<["pdf_options" :=
              VObj (ownProps pdf_options ∪ ownProps (field config "pdf_options"))]>
            (ownProps frontMatterConfig ∪ config))
  end.

(** [v.k = x] in strict mode, on the values the model can update. *)
Definition setProp (v : value) (k : string) (x : value) : outcome value :=
  match v with
  | VObj o => Ok (VObj (<[k := x]> o))
  | VArr _ | VFun _ => Throw (OutsideModel "a named property on an array or a function")
  | _ => Throw (TypeError k)
  end.

(** Lines 157-161. *)
Definition deriveDisplayHeaderFooter (config : gmap string value)
  : gmap string value * outcome unit :=
  let pdf_options := field config "pdf_options" in
  match getProp pdf_options "headerTemplate",
        getProp pdf_options "footerTemplate",
        getProp pdf_options "displayHeaderFooter" with
  | Ok headerTemplate, Ok footerTemplate, Ok displayHeaderFooter =>
      if (truthy headerTemplate || truthy footerTemplate)
         && isUndefined displayHeaderFooter
      then match setProp pdf_options "displayHeaderFooter" (VBool true) with
           | Ok pdf_options' => (<["pdf_options" := pdf_options']> config, Ok tt)
           | Throw e => (config, Throw e)
           end
      else (config, Ok tt)
  | Throw e, _, _ | _, Throw e, _ | _, _, Throw e => (config, Throw e)
  end.

(** Line 163. *)
Definition arrayOptions : list string :=
  ["body_class"; "script"; "stylesheet"; "marked_extensions"].

(** Line 168: [[v].filter(Boolean)] *)
Definition wrapInArray (v : value) : value :=
  VArr (List.filter truthy [v]).

(** Lines 166-170. *)
Definition sanitizeArrayOption (config : gmap string value) (option : string)
  : gmap string value :=
  if isArray (field config option) then config
  else <[option := wrapInArray (field config option)]> config.

Definition sanitizeArrayOptions (config : gmap string value) : gmap string value :=
  fold_left sanitizeArrayOption arrayOptions config.

(** Line 172. *)
Definition jsonArgs : list string :=
  ["--marked-options"; "--pdf-options"; "--launch-options"; "--math-engine-options"].

Definition isJsonArg (argKey : string) : bool :=
  existsb (String.eqb argKey) jsonArgs.

(** Line 177: [argKey.slice(2).replace(/-/g, '_')] *)
Definition slice2 (s : string) : string :=
  match s with
  | String _ (String _ rest) => rest
  | _ => EmptyString
  end.

Fixpoint dashesToUnderscores (s : string) : string :=
  match s with
  | EmptyString => EmptyString
  | String c rest =>
      String (if Ascii.eqb c "-" then "_"%char else c) (dashesToUnderscores rest)
  end.

Definition configKey (argKey : string) : string :=
  dashesToUnderscores (slice2 argKey).

(** Line 179, right-hand side. *)
Definition argValueOf (argKey : string) (argValue : value) : outcome value :=
  if isJsonArg argKey then jsonParse argValue else Ok argValue.

(** Lines 175-180. An assignment to [__proto__] would change the
    prototype instead of adding a property: the model stops there. *)
Fixpoint mergeCliArgs (args : list (string * value)) (config : gmap string value)
  : gmap string value * outcome unit :=
  match args with
  | [] => (config, Ok tt)
  | (argKey, argValue) :: rest =>
      let key := configKey argKey in
      match argValueOf argKey argValue with
      | Ok v =>
          if String.eqb key "__proto__"
          then (config, Throw (OutsideModel "assignment to __proto__"))
          else mergeCliArgs rest (<[key := v]> config)
      | Throw e => (config, Throw e)
      end
  end.

(** Line 148: [console.warn] writes its two arguments with a space
    between them. *)
Definition frontMatterWarning (shown : string) : string :=
  "Warning: the front-matter was ignored because it could not be parsed:"
  +:+ newline +:+ " " +:+ shown.

(** Lines 146-155: a parse error is reported and the caller's object is
    kept; otherwise the object literal makes a new object. *)
Definition mergeFrontMatterStep (config : loc) (frontMatterConfig : frontMatter)
  : M loc :=
  match frontMatterConfig with
  | FMError e => do! warn (frontMatterWarning e) in ret config
  | FMData data =>
      let! c := getConfig config in
      let! merged := lift (mergeFrontMatter c data) in
      allocConfig merged
  end.

(** Lines 157-180, on the object that [config] names after the
    front-matter step. *)
Definition mergeOverrides (config : loc) (args : list (string * value)) : M unit :=
  do! stepConfig config deriveDisplayHeaderFooter in
  do! stepConfig config (fun c => (sanitizeArrayOptions c, Ok tt)) in
  stepConfig config (mergeCliArgs args).

(** Lines 146-180: the configuration merger. It returns the object that
    [config] names from then on. *)
Definition mergeConfig (config : loc) (frontMatterConfig : frontMatter)
  (args : list (string * value)) : M loc :=
  let! config := mergeFrontMatterStep config frontMatterConfig in
  do! mergeOverrides config args in
  ret config.

(** Lines 184-187. *)
Definition sanitizeMargin (config : gmap string value)
  : gmap string value * outcome unit :=
  let pdf_options := field config "pdf_options" in
  match getProp pdf_options "margin" with
  | Throw e => (config, Throw e)
  | Ok (VStr margin) =>
      match getMarginObject margin with
      | Throw e => (config, Throw e)
      | Ok marginObject =>
          match setProp pdf_options "margin" marginObject with
          | Ok pdf_options' => (<["pdf_options" := pdf_options']> config, Ok tt)
          | Throw e => (config, Throw e)
          end
      end
  | Ok _ => (config, Ok tt)
  end.

(** Lines 189-192. *)
Definition outputDestination (inp : input) (config : gmap string value) : string :=
  match inp with
  | InPath path =>
      getOutputFilePath path (if truthy (field config "as_html") then "html" else "pdf")
  | InContent _ => "stdout"
  end.

Definition setDest (inp : input) (config : gmap string value) : gmap string value :=
  if isUndefined (field config "dest")
  then <["dest" := VStr (outputDestination inp config)]> config
  else config.

End Merge.

(** ** Text: the regular expressions of [loadKatexCss] *)

(** Strings are scanned as lists of characters. *)
Definition chars (s : string) : list ascii := list_ascii_of_string s.

Definition text (l : list ascii) : string := string_of_list_ascii l.

(** [p] is a prefix of [s]: what follows it. *)
Fixpoint stripPrefix (p s : list ascii) : option (list ascii) :=
  match p with
  | [] => Some s
  | c :: p' =>
      match s with
      | d :: s' => if Ascii.eqb c d then stripPrefix p' s' else None
      | [] => None
      end
  end.

Definition isQuote (c : ascii) : bool :=
  Ascii.eqb c "'" || Ascii.eqb c dquote.

(** The character class of the font path: any character but a single
    quote, a double quote and a closing parenthesis. *)
Definition isPathChar (c : ascii) : bool :=
  negb (isQuote c) && negb (Ascii.eqb c ")").

(** The class repeated greedily: the longest run of path characters and
    what follows it. *)
Fixpoint spanPath (s : list ascii) : list ascii * list ascii :=
  match s with
  | c :: s' =>
      if isPathChar c
      then let (p, rest) := spanPath s' in (c :: p, rest)
      else ([], s)
  | [] => ([], [])
  end.

(** Group 2, [fonts/] and one or more path characters. The run is followed by a character
    outside the class or by the end of the text, so giving back part of
    it never lets the rest of the expression match: the greedy run is the
    only candidate. *)
Definition matchFontsPath (s : list ascii) : option (list ascii * list ascii) :=
  match stripPrefix (chars "fonts/") s with
  | Some s1 =>
      match spanPath s1 with
      | ([], _) => None
      | (p, rest) => Some (chars "fonts/" ++ p, rest)
      end
  | None => None
  end.

(** A match of the expression: groups 1 and 2. *)
Record fontMatch := {
  quote : option ascii;
  fontPath : list ascii
}.

(** The expression of line 74 anchored at the start of [s]: [url(], an
    optional quote of either kind (group 1), the font path (group 2), the
    same quote again, [)]. It returns the match and the text after it.
    When group 1 takes a quote and the rest fails, the empty alternative
    of the optional quote fails too, as [fonts/] does not start with a
    quote. *)
Definition matchFontUrl (s : list ascii) : option (fontMatch * list ascii) :=
  match stripPrefix (chars "url(") s with
  | None => None
  | Some [] => None
  | Some ((q :: s2) as s1) =>
      if isQuote q then
        match matchFontsPath s2 with
        | Some (p, q' :: c :: rest) =>
            if Ascii.eqb q' q && Ascii.eqb c ")"
            then Some ({| quote := Some q; fontPath := p |}, rest)
            else None
        | _ => None
        end
      else
        match matchFontsPath s1 with
        | Some (p, c :: rest) =>
            if Ascii.eqb c ")"
            then Some ({| quote := None; fontPath := p |}, rest)
            else None
        | _ => None
        end
  end.

(** [css.matchAll(/.../g)]: the matches from left to right, the search
    resuming after each match. The fuel bounds the number of positions
    tried. *)
Fixpoint matchAllFuel (fuel : nat) (s : list ascii) : list fontMatch :=
  match fuel with
  | 0 => []
  | S n =>
      match s with
      | [] => []
      | _ :: s' =>
          match matchFontUrl s with
          | Some (m, rest) => m :: matchAllFuel n rest
          | None => matchAllFuel n s'
          end
      end
  end.

Definition matchAll (s : list ascii) : list fontMatch :=
  matchAllFuel (List.length s) s.

Definition ascii_list_eqb (a b : list ascii) : bool :=
  bool_decide (a = b).

(** [Array.from(new Set(l))]: the first occurrence of each element, in
    order. *)
Fixpoint unique (l : list (list ascii)) : list (list ascii) :=
  match l with
  | [] => []
  | x :: rest => x :: List.filter (fun y => negb (ascii_list_eqb x y)) (unique rest)
  end.

(** Lines 72-78. *)
Definition fontMatches (css : list ascii) : list (list ascii) :=
  unique (List.filter (fun relativePath => negb (ascii_list_eqb relativePath []))
                      (map fontPath (matchAll css))).

(** The class [[.*+?^${}()|[\]\\]] of line 87. *)
Definition isSyntaxChar (c : ascii) : bool :=
  existsb (Ascii.eqb c) (chars ".*+?^${}()|[]\").

(** [s.replace(/[.*+?^${}()|[\]\\]/g, '\\$&')] *)
Definition escapeRegExp (s : list ascii) : list ascii :=
  flat_map (fun c => if isSyntaxChar c then ["\"%char; c] else [c]) s.

(** [new RegExp(source)] for a source made of plain characters and
    escaped syntax characters: the text it matches. Other sources are
    outside this model. *)
Fixpoint regexLiteral (source : list ascii) : option (list ascii) :=
  match source with
  | [] => Some []
  | c :: rest =>
      if Ascii.eqb c "\" then
        match rest with
        | d :: rest' =>
            if isSyntaxChar d
            then option_map (cons d) (regexLiteral rest')
            else None
        | [] => None
        end
      else if isSyntaxChar c then None
      else option_map (cons c) (regexLiteral rest)
  end.

(** The replacement text of [String.prototype.replace] for one match of
    an expression without groups: [$$], [$&], [$`] and [$'] are
    substituted, every other character stands for itself. *)
Fixpoint expandReplacement (replacement matched before after : list ascii)
  : list ascii :=
  match replacement with
  | [] => []
  | c :: rest =>
      if Ascii.eqb c "$" then
        match rest with
        | d :: rest' =>
            if Ascii.eqb d "$" then "$"%char :: expandReplacement rest' matched before after
            else if Ascii.eqb d "&" then matched ++ expandReplacement rest' matched before after
            else if Ascii.eqb d "`" then before ++ expandReplacement rest' matched before after
            else if Ascii.eqb d "'" then after ++ expandReplacement rest' matched before after
            else c :: expandReplacement rest matched before after
        | [] => [c]
        end
      else c :: expandReplacement rest matched before after
  end.

(** [s.replace(new RegExp(literal, 'g'), replacement)] for a non-empty
    literal: every match from left to right, the search resuming after
    each match; [before] is the text already passed. *)
Fixpoint replaceAllFuel (fuel : nat) (literal replacement before s : list ascii)
  : list ascii :=
  match fuel with
  | 0 => s
  | S n =>
      match s with
      | [] => []
      | c :: s' =>
          match stripPrefix literal s with
          | Some after =>
              expandReplacement replacement literal before after
              ++ replaceAllFuel n literal replacement (before ++ literal) after
          | None => c :: replaceAllFuel n literal replacement (before ++ [c]) s'
          end
      end
  end.

Definition replaceAll (literal replacement s : list ascii) : list ascii :=
  replaceAllFuel (List.length s) literal replacement [] s.

(** [css.replace(pattern, dataUri)] for a pattern built from a source. *)
Definition replacePattern (css : list ascii) (source replacement : list ascii)
  : outcome (list ascii) :=
  match regexLiteral source with
  | Some (c :: literal) => Ok (replaceAll (c :: literal) replacement css)
  | _ => Throw (OutsideModel "a pattern that is not an escaped literal")
  end.

(** Lines 86-90: the sources of the three patterns. *)
Definition fontPatterns (fontRelativePath : list ascii) : list (list ascii) :=
  [ chars "url\(" ++ escapeRegExp fontRelativePath ++ chars "\)";
    chars "url\('" ++ escapeRegExp fontRelativePath ++ chars "'\)";
    chars "url\(" ++ [dquote] ++ escapeRegExp fontRelativePath ++ [dquote] ++ chars "\)" ].

(** Lines 92-94. *)
Fixpoint replacePatterns (patterns : list (list ascii)) (dataUri css : list ascii)
  : outcome (list ascii) :=
  match patterns with
  | [] => Ok css
  | pattern :: rest =>
      match replacePattern css pattern dataUri with
      | Ok css' => replacePatterns rest dataUri css'
      | Throw e => Throw e
      end
  end.

(** [Buffer.prototype.toString('base64')] *)
Definition base64Alphabet : list ascii :=
  chars "ABCDEFGHIJKLMNOPQRSTUVWXYZabcdefghijklmnopqrstuvwxyz0123456789+/".

Definition base64Digit (n : N) : ascii :=
  nth (N.to_nat (n mod 64)) base64Alphabet "="%char.

Fixpoint base64 (bytes : list ascii) : list ascii :=
  match bytes with
  | [] => []
  | [a] =>
      let n := (N_of_ascii a * 65536)%N in
      [base64Digit (n / 262144); base64Digit (n / 4096); "="%char; "="%char]
  | [a; b] =>
      let n := (N_of_ascii a * 65536 + N_of_ascii b * 256)%N in
      [base64Digit (n / 262144); base64Digit (n / 4096); base64Digit (n / 64); "="%char]
  | a :: b :: c :: rest =>
      let n := (N_of_ascii a * 65536 + N_of_ascii b * 256 + N_of_ascii c)%N in
      [base64Digit (n / 262144); base64Digit (n / 4096); base64Digit (n / 64); base64Digit n]
      ++ base64 rest
  end.

(** Lines 46-63. *)
Definition getMimeType (extension : string) : string :=
  if String.eqb extension ".woff2" then "font/woff2"
  else if String.eqb extension ".woff" then "font/woff"
  else if String.eqb extension ".ttf" then "font/ttf"
  else if String.eqb extension ".otf" then "font/otf"
  else if String.eqb extension ".eot" then "application/vnd.ms-fontobject"
  else if String.eqb extension ".svg" then "image/svg+xml"
  else "application/octet-stream".

(** Line 84: the template [url(Qdata:${mimeType};base64,${base64}Q)],
    where Q is a double quote. *)
Definition dataUriOf (mimeType : string) (fontData : string) : list ascii :=
  chars "url(" ++ [dquote] ++ chars "data:" ++ chars mimeType
  ++ chars ";base64," ++ base64 (chars fontData) ++ [dquote] ++ chars ")".

(** ** Math support ([isKatexExtension], [loadKatexCss], [ensureKatexSupport]) *)

(** Lines 36-44. *)
Definition isKatexExtension (extension : value) : bool :=
  if negb (truthy extension) || negb (typeofObject extension) then false
  else
    match getPropOpt extension "extensions" with
    | VArr candidates =>
        existsb (fun candidate => isString "inlineKatex" (getPropOpt candidate "name"))
                candidates
    | _ => false
    end.

(** [v.some(f)]: only an array has the method, unless an object carries a
    function under that name, which the model does not run. *)
Definition arraySome (f : value -> bool) (v : value) : outcome bool :=
  match v with
  | VArr items => Ok (existsb f items)
  | VObj o =>
      match field o "some" with
      | VFun _ => Throw (OutsideModel "a method of an object")
      | _ => Throw (TypeError "some")
      end
  | _ => Throw (TypeError "some")
  end.

Section Katex.
Context `{Host}.

(** Lines 80-95: one font after the other is read, encoded and put in
    place of its references. *)
Fixpoint inlineFonts (katexCssPath : string) (paths : list (list ascii))
  (css : list ascii) : M (list ascii) :=
  match paths with
  | [] => ret css
  | fontRelativePath :: rest =>
      let absoluteFontPath :=
        path_resolve [path_dirname katexCssPath; text fontRelativePath] in
      let! fontData := fs_readFile absoluteFontPath in
      let mimeType := getMimeType (toLowerCase (path_extname absoluteFontPath)) in
      let dataUri := dataUriOf mimeType fontData in
      let! css' := lift (replacePatterns (fontPatterns fontRelativePath) dataUri css) in
      inlineFonts katexCssPath rest css'
  end.

Definition setCachedKatexCss (css : string) : M unit :=
  fun w => (withCache (Some css) w, Ok tt).

(** Lines 70-99: the stylesheet is read, its fonts are inlined and the
    result is cached. The file is read as UTF-8 text; strings are held
    as their bytes. *)
Definition computeKatexCss : M string :=
  let! katexCssPath := lift (require_resolve "katex/dist/katex.min.css") in
  let! css := fs_readFile katexCssPath in
  let! css' := inlineFonts katexCssPath (fontMatches (chars css)) (chars css) in
  do! setCachedKatexCss (text css') in
  ret (text css').

(** Lines 65-100: [if (cachedKatexCss)] holds for a cached string that is
    not empty. *)
Definition loadKatexCss : M string :=
  fun w =>
    match cachedKatexCss w with
    | Some cached =>
        if truthy (VStr cached) then (w, Ok cached) else computeKatexCss w
    | None => computeKatexCss w
    end.

(** Line 110. *)
Definition appendKatexExtension (config : gmap string value)
  : gmap string value * outcome unit :=
  match field config "marked_extensions" with
  | VArr extensions =>
      (<["marked_extensions" :=
           VArr (extensions ++ [markedKatex (field config "math_engine_options")])]> config,
       Ok tt)
  | _ => (config, Throw (TypeError "marked_extensions"))
  end.

(** Line 115. *)
Definition appendKatexCss (katexCss : string) (config : gmap string value)
  : gmap string value * outcome unit :=
  let css := field config "css" in
  (<["css" := VStr (if truthy css
                    then templateString css +:+ newline +:+ katexCss
                    else katexCss)]> config,
   Ok tt).

Definition markConfig (config : loc) : M unit :=
  fun w => (withKatexSet (fun s => {[config]} ∪ s) w, Ok tt).

Definition isMarked (config : loc) : M bool :=
  fun w => (w, Ok (bool_decide (config ∈ configsWithKatexCss w))).

(** Lines 102-118. *)
Definition ensureKatexSupport (config : loc) : M unit :=
  let! c := getConfig config in
  if negb (isString "katex" (field c "math_engine")) then ret tt
  else
    let! hasKatexExtension := lift (arraySome isKatexExtension (field c "marked_extensions")) in
    do! (if hasKatexExtension then ret tt
         else stepConfig config appendKatexExtension) in
    let! marked := isMarked config in
    if marked then ret tt
    else
      let! katexCss := loadKatexCss in
      do! stepConfig config (appendKatexCss katexCss) in
      markConfig config.

End Katex.

(** ** The conversion ([convertMdToPdf]) *)

(** The elements a spread [[...v]] iterates over. *)
Definition iterate (v : value) : outcome (list value) :=
  match v with
  | VArr items => Ok items
  | VStr s => Ok (map (fun c => VStr (String c EmptyString)) (chars s))
  | _ => Throw (TypeError "not iterable")
  end.

(** Equality of two set elements, for the values that have no identity
    and no numeric comparison. *)
Definition isPrimitive (v : value) : bool :=
  match v with
  | VUndef | VNull | VBool _ | VStr _ => true
  | _ => false
  end.

Definition primitiveEq (a b : value) : bool :=
  match a, b with
  | VUndef, VUndef => true
  | VNull, VNull => true
  | VBool x, VBool y => Bool.eqb x y
  | VStr x, VStr y => String.eqb x y
  | _, _ => false
  end.

(** [[...new Set(l)]], as far as the elements can be compared. *)
Fixpoint uniqueValues (seen l : list value) : outcome (list value) :=
  match l with
  | [] => Ok []
  | x :: rest =>
      if negb (isPrimitive x) then Throw (OutsideModel "a set of numbers or objects")
      else if existsb (primitiveEq x) seen then uniqueValues seen rest
      else match uniqueValues (x :: seen) rest with
           | Ok r => Ok (x :: r)
           | Throw e => Throw e
           end
  end.

Section Convert.
Context `{Host}.

(** Lines 194-201. *)
Definition addHighlightStylesheet (hljsMain : string) (config : gmap string value)
  : gmap string value * outcome unit :=
  let highlightStylesheet :=
    path_resolve [path_dirname hljsMain; ".."; "styles";
                  templateString (field config "highlight_style") +:+ ".css"] in
  match iterate (field config "stylesheet") with
  | Throw e => (config, Throw e)
  | Ok items =>
      match uniqueValues [] (items ++ [VStr highlightStylesheet]) with
      | Throw e => (config, Throw e)
      | Ok stylesheet => (<["stylesheet" := VArr stylesheet]> config, Ok tt)
      end
  end.




(** Lines 182-201, on the merged configuration. *)
Definition completeConfig (inp : input) (config : loc) : M unit :=
  do! ensureKatexSupport config in
  do! stepConfig config sanitizeMargin in
  do! stepConfig config (fun c => (setDest inp c, Ok tt)) in
  let! hljsMain := lift (require_resolve "highlight.js") in
  stepConfig config (addHighlightStylesheet hljsMain).

(** Lines 146-201: from the parsed front matter to the configuration
    object handed to the renderers. *)
Definition finishConfig (inp : input) (config : loc) (frontMatterConfig : frontMatter)
  (args : list (string * value)) : M loc :=
  let! config := mergeConfig config frontMatterConfig args in
  do! completeConfig inp config in
  ret config.

(** Lines 217-223. *)
Definition writeOutput (out : output) : M unit :=
  match filename out with
  | None | Some EmptyString => ret tt
  | Some name =>
      if String.eqb name "stdout"
      then fun w => (withStdout (content out) w, Ok tt)
      else fun w =>
             if writable name
             then (withFiles <[name := content out]> w, Ok tt)
             else (w, Throw (IOError name))
  end.

(** Lines 203-225. *)
Definition render (inp : input) (md : string) (config : loc) : M output :=
  let! c := getConfig config in
  let! html := lift (getHtml md c) in
  let! relativePath :=
    match inp with
    | InPath path =>
        match field c "basedir" with
        | VStr basedir => ret (path_relative basedir path)
        | _ => throw (TypeError "basedir")
        end
    | InContent _ => ret "."
    end in
  let! generated := lift (generateOutput html relativePath c) in
  match generated with
  | None =>
      if truthy (field c "devtools")
      then throw (Failure "No file is generated with --devtools.")
      else throw (Failure ("Failed to create "
                           +:+ (if truthy (field c "as_html") then "HTML" else "PDF")
                           +:+ "."))
  | Some out => do! writeOutput out in ret out
  end.

(** Lines 146-225: the conversion once [gray-matter] has answered. *)
Definition convertParsed (inp : input) (md : string) (frontMatterConfig : frontMatter)
  (config : loc) (args : list (string * value)) : M output :=
  let! config := finishConfig inp config frontMatterConfig args in
  render inp md config.


End Convert.

(** ** Notions the properties are stated with *)

(** The configuration the front-matter step leaves: the caller's when the
    front matter did not parse, the merge otherwise. *)
Definition mergedLayers (config : gmap string value) (frontMatterConfig : frontMatter)
  : gmap string value :=
  match frontMatterConfig with
  | FMError _ => config
  | FMData data =>
      match mergeFrontMatter config data with
      | Ok merged => merged
      | Throw _ => config
      end
  end.

(** A document without front matter: [data] is the empty object. *)
Definition noFrontMatter : frontMatter := FMData (VObj ∅).

(** The invocation override of a configuration key: the last entry of
    [args] whose flag names that key. *)
Fixpoint overrideOf (args : list (string * value)) (key : string)
  : option (string * value) :=
  match args with
  | [] => None
  | (argKey, argValue) :: rest =>
      match overrideOf rest key with
      | Some later => Some later
      | None => if String.eqb (configKey argKey) key then Some (argKey, argValue) else None
      end
  end.

(** The coercion of a list-valued option, in the specification's words:
    a list is kept, a falsy value gives the empty list, any other value
    the one-element list. *)
Definition listCoercion (v : value) : value :=
  if isArray v then v
  else if truthy v then VArr [v]
  else VArr [].

(** The number of math extensions in a list of extensions. *)
Definition countKatex (extensions : list value) : nat :=
  List.length (List.filter isKatexExtension extensions).

(** A step that leaves the objects, the marks, the files and the
    messages alone. *)
Definition sameObjects (w w' : world) : Prop :=
  store w' = store w
  /\ configsWithKatexCss w' = configsWithKatexCss w
  /\ files w' = files w
  /\ warnings w' = warnings w
  /\ stdout w' = stdout w.

(** A computation that neither reads nor writes the store. *)
Definition storeBlind {A} (c : M A) : Prop :=
  forall f w, c (withStore f w) = (withStore f (fst (c w)), snd (c w)).

Section KatexNotions.
Context `{Host}.

(** The configuration after line 110, and after line 115. *)
Definition withKatexExtension (c : gmap string value) (extensions : list value)
  : gmap string value :=
  if existsb isKatexExtension extensions then c
  else <["marked_extensions" :=
           VArr (extensions ++ [markedKatex (field c "math_engine_options")])]> c.

Definition withKatexCss (katexCss : string) (c : gmap string value) : gmap string value :=
  <["css" := VStr (if truthy (field c "css")
                   then templateString (field c "css") +:+ newline +:+ katexCss
                   else katexCss)]> c.

End KatexNotions.

(** ** The stylesheet as segments *)

(** The stylesheet as the scan of line 74 cuts it: plain characters and
    font references. *)
Inductive segment :=
| Plain (c : ascii)
| Reference (m : fontMatch).

(** The scan of [matchAllFuel], keeping the text between the matches. *)
Fixpoint segmentsFuel (fuel : nat) (s : list ascii) : list segment :=
  match fuel with
  | 0 => map Plain s
  | S n =>
      match s with
      | [] => []
      | c :: s' =>
          match matchFontUrl s with
          | Some (m, rest) => Reference m :: segmentsFuel n rest
          | None => Plain c :: segmentsFuel n s'
          end
      end
  end.

Definition segments (s : list ascii) : list segment :=
  segmentsFuel (List.length s) s.

(** The text of a reference: [url(], the quote, the path, the quote, [)]. *)
Definition quoteText (q : option ascii) : list ascii :=
  match q with Some c => [c] | None => [] end.

Definition referenceText (m : fontMatch) : list ascii :=
  chars "url(" ++ quoteText (quote m) ++ fontPath m ++ quoteText (quote m) ++ chars ")".

(** The stylesheet in which the references that are [done] have given
    way to their data URIs. *)
Definition rendered (done : fontMatch -> bool) (uri : list ascii -> list ascii)
  (segs : list segment) : list ascii :=
  flat_map (fun seg => match seg with
                       | Plain c => [c]
                       | Reference m => if done m then uri (fontPath m) else referenceText m
                       end) segs.

(** The stylesheet as written, and the stylesheet with every reference
    inlined. *)
Definition written (segs : list segment) : list ascii :=
  rendered (fun _ => false) (fun _ => []) segs.

Definition inlined (uri : list ascii -> list ascii) (segs : list segment) : list ascii :=
  rendered (fun _ => true) uri segs.

(** What the expression of line 74 accepts as groups 1 and 2. *)
Definition validQuote (q : option ascii) : Prop :=
  match q with None => True | Some c => isQuote c = true end.

Definition validPath (p : list ascii) : Prop :=
  exists tail, p = chars "fonts/" ++ tail /\ tail ≠ [] /\ forallb isPathChar tail = true.

Definition validMatch (m : fontMatch) : Prop :=
  validQuote (quote m) /\ validPath (fontPath m).

(** A list of segments as the scan produces it: where it left a plain
    character, the expression does not match. *)
Fixpoint scanned (segs : list segment) : Prop :=
  match segs with
  | [] => True
  | Plain c :: rest => matchFontUrl (c :: written rest) = None /\ scanned rest
  | Reference m :: rest => validMatch m /\ scanned rest
  end.

(** The references of a list of segments, in order. *)
Definition references (segs : list segment) : list fontMatch :=
  flat_map (fun seg => match seg with Reference m => [m] | Plain _ => [] end) segs.

(** Equality of two matches. *)
Definition fontMatch_eqb (a b : fontMatch) : bool :=
  bool_decide (quote a = quote b) && ascii_list_eqb (fontPath a) (fontPath b).

(** A text without [$]: as a replacement it stands for itself. *)
Definition plainText (s : list ascii) : Prop :=
  Forall (fun c => c ≠ "$"%char) s.

(** A text without an opening parenthesis. *)
Definition parenFree (s : list ascii) : Prop :=
  Forall (fun c => c ≠ "("%char) s.

(** The search for [literal] fails at every position of [x] in [x ++ rest]. *)
Fixpoint passes (literal x rest : list ascii) : Prop :=
  match x with
  | [] => True
  | c :: x' => stripPrefix literal (c :: x' ++ rest) = None /\ passes literal x' rest
  end.

(** No suffix of [u], however continued, starts with [url(]. *)
Fixpoint noUrlStart (u : list ascii) : Prop :=
  match u with
  | [] => True
  | c :: u' =>
      (forall rest, stripPrefix (chars "url(") (c :: u' ++ rest) = None) /\ noUrlStart u'
  end.

(** The shape of a data URI. *)
Definition uriShape (u : list ascii) : Prop :=
  exists body, u = chars "url(" ++ dquote :: "d"%char :: body ++ chars ")"
               /\ parenFree body /\ plainText u.

(** What stands between [url(] and [)] in a reference. *)
Definition referenceBody (m : fontMatch) : list ascii :=
  quoteText (quote m) ++ fontPath m ++ quoteText (quote m).

(** The references to a path in its three spellings. *)
Definition unquotedRef (p : list ascii) : fontMatch := {| quote := None; fontPath := p |}.
Definition singleQuotedRef (p : list ascii) : fontMatch :=
  {| quote := Some "'"%char; fontPath := p |}.
Definition doubleQuotedRef (p : list ascii) : fontMatch :=
  {| quote := Some dquote; fontPath := p |}.

(** The references whose path is among [paths]. *)
Definition doneBy (paths : list (list ascii)) (m : fontMatch) : bool :=
  existsb (ascii_list_eqb (fontPath m)) paths.

(** A character of a data URI: neither an opening parenthesis nor [$]. *)
Definition uriChar (c : ascii) : bool :=
  negb (Ascii.eqb c "(") && negb (Ascii.eqb c "$").

Section FontNotions.
Context `{Host}.

(** Line 81: the file of a font reference. *)
Definition fontFile (katexCssPath : string) (p : list ascii) : string :=
  path_resolve [path_dirname katexCssPath; text p].

(** Lines 82-84: the data URI of a font reference in a file system. *)
Definition fontUri (katexCssPath : string) (fs : gmap string string) (p : list ascii)
  : list ascii :=
  dataUriOf (getMimeType (toLowerCase (path_extname (fontFile katexCssPath p))))
            (default EmptyString (fs !! fontFile katexCssPath p)).

End FontNotions.

(** Two worlds that look the same from two configuration objects: the
    objects hold the same properties, both are marked or neither is, and
    the cache and the files agree. *)
Definition alike (l1 l2 : loc) (w1 w2 : world) : Prop :=
  store w1 !! l1 = store w2 !! l2
  /\ (l1 ∈ configsWithKatexCss w1 <-> l2 ∈ configsWithKatexCss w2)
  /\ cachedKatexCss w1 = cachedKatexCss w2
  /\ files w1 = files w2.

(** Two computations that answer alike in worlds that are alike. *)
Definition sameAnswer {A} (l1 l2 : loc) (c1 c2 : M A) : Prop :=
  forall w1 w2, alike l1 l2 w1 w2 ->
    snd (c1 w1) = snd (c2 w2) /\ alike l1 l2 (fst (c1 w1)) (fst (c2 w2)).

(** ** Notions of the further properties *)

(** A step from [w] to [w'] that leaves the object at [l] as it is, marked
    or not as before. *)
Definition leaves (l : loc) (w w' : world) : Prop :=
  store w' !! l = store w !! l
  /\ (l ∈ configsWithKatexCss w' <-> l ∈ configsWithKatexCss w).

(** A computation that touches no object but the one at [l']. *)
Definition touchesOnly {A} (l' : loc) (c : M A) : Prop :=
  forall l w, l ≠ l' -> leaves l w (fst (c w)).


(** [v] is neither [undefined] nor [null]. *)
Definition notNullish (v : value) : Prop := v ≠ VUndef /\ v ≠ VNull.

(** An override that can be assigned: its value is there, parsed if need
    be, and its key is an ordinary one. *)
Definition assignable `{Host} (arg : string * value) : Prop :=
  (exists v, argValueOf arg.1 arg.2 = Ok v) /\ configKey arg.1 ≠ "__proto__".

(** Lines 194-199: the stylesheet of the highlight style. *)
Definition highlightStylesheetOf `{Host} (hljsMain : string) (config : gmap string value)
  : value :=
  VStr (path_resolve [path_dirname hljsMain; ".."; "styles";
                      templateString (field config "highlight_style") +:+ ".css"]).

(** The first characters of every data URI. *)
Definition uriStart : list ascii := chars "url(" ++ [dquote; "d"%char].

(** No suffix of [u], however continued, starts as a data URI does. *)
Fixpoint noUriStart (u : list ascii) : Prop :=
  match u with
  | [] => True
  | c :: u' =>
      (forall rest, stripPrefix uriStart (c :: u' ++ rest) = None) /\ noUriStart u'
  end.

(** ** A concrete host, for running the model on examples

    It agrees with Node.js and the libraries on the inputs the examples
    use: JSON texts made of objects, arrays, strings without escapes,
    integers and the three literals; paths that need no normalisation;
    ASCII letters. *)

Fixpoint skipSpaces (s : list ascii) : list ascii :=
  match s with
  | c :: rest => if Ascii.eqb c " " then skipSpaces rest else s
  | [] => []
  end.

Definition digitOf (c : ascii) : option N :=
  let n := N_of_ascii c in
  if ((48 <=? n) && (n <=? 57))%N then Some (n - 48)%N else None.

Fixpoint parseDigits (acc : N) (s : list ascii) : N * list ascii :=
  match s with
  | c :: rest =>
      match digitOf c with
      | Some d => parseDigits (acc * 10 + d) rest
      | None => (acc, s)
      end
  | [] => (acc, [])
  end.

(** The characters of a string up to its closing quote. *)
Fixpoint parseStringBody (s : list ascii) : option (list ascii * list ascii) :=
  match s with
  | [] => None
  | c :: rest =>
      if Ascii.eqb c dquote then Some ([], rest)
      else if Ascii.eqb c "\" then None
      else match parseStringBody rest with
           | Some (body, rest') => Some (c :: body, rest')
           | None => None
           end
  end.

Definition parseNumber (negative : bool) (s : list ascii) : option (value * list ascii) :=
  match s with
  | c :: _ =>
      match digitOf c with
      | Some _ => let (n, rest) := parseDigits 0 s in
                  Some (VNum (Finite negative n 0), rest)
      | None => None
      end
  | [] => None
  end.

Fixpoint parseJsonValue (fuel : nat) (s : list ascii) : option (value * list ascii) :=
  match fuel with
  | 0 => None
  | S n =>
      let members := fix members (k : nat) (acc : gmap string value) (s : list ascii)
          : option (value * list ascii) :=
        match k with
        | 0 => None
        | S k' =>
            match skipSpaces s with
            | c :: s1 =>
                if Ascii.eqb c dquote then
                  match parseStringBody s1 with
                  | Some (key, s2) =>
                      match skipSpaces s2 with
                      | c2 :: s3 =>
                          if Ascii.eqb c2 ":" then
                            match parseJsonValue n s3 with
                            | Some (v, s4) =>
                                let acc' := <[text key := v]> acc in
                                match skipSpaces s4 with
                                | c4 :: s5 =>
                                    if Ascii.eqb c4 "," then members k' acc' s5
                                    else if Ascii.eqb c4 "}" then Some (VObj acc', s5)
                                    else None
                                | [] => None
                                end
                            | None => None
                            end
                          else None
                      | [] => None
                      end
                  | None => None
                  end
                else None
            | [] => None
            end
        end in
      let elements := fix elements (k : nat) (acc : list value) (s : list ascii)
          : option (value * list ascii) :=
        match k with
        | 0 => None
        | S k' =>
            match parseJsonValue n s with
            | Some (v, s1) =>
                match skipSpaces s1 with
                | c :: s2 =>
                    if Ascii.eqb c "," then elements k' (acc ++ [v]) s2
                    else if Ascii.eqb c "]" then Some (VArr (acc ++ [v]), s2)
                    else None
                | [] => None
                end
            | None => None
            end
        end in
      match skipSpaces s with
      | [] => None
      | c :: rest =>
          if Ascii.eqb c "{" then
            match skipSpaces rest with
            | c' :: rest' =>
                if Ascii.eqb c' "}" then Some (VObj ∅, rest')
                else members (List.length s) ∅ rest
            | [] => None
            end
          else if Ascii.eqb c "[" then
            match skipSpaces rest with
            | c' :: rest' =>
                if Ascii.eqb c' "]" then Some (VArr [], rest')
                else elements (List.length s) [] rest
            | [] => None
            end
          else if Ascii.eqb c dquote then
            match parseStringBody rest with
            | Some (body, rest') => Some (VStr (text body), rest')
            | None => None
            end
          else if Ascii.eqb c "-" then parseNumber true rest
          else
            match stripPrefix (chars "true") (c :: rest),
                  stripPrefix (chars "false") (c :: rest),
                  stripPrefix (chars "null") (c :: rest) with
            | Some r, _, _ => Some (VBool true, r)
            | _, Some r, _ => Some (VBool false, r)
            | _, _, Some r => Some (VNull, r)
            | _, _, _ => parseNumber false (c :: rest)
            end
      end
  end.

Definition parseJson (s : string) : outcome value :=
  match parseJsonValue (S (String.length s)) (chars s) with
  | Some (v, rest) =>
      match skipSpaces rest with
      | [] => Ok v
      | _ => Throw (SyntaxError "JSON")
      end
  | None => Throw (SyntaxError "JSON")
  end.

Definition asciiLower (c : ascii) : ascii :=
  let n := N_of_ascii c in
  if ((65 <=? n) && (n <=? 90))%N then ascii_of_N (n + 32) else c.

Definition lowerAscii (s : string) : string :=
  text (map asciiLower (chars s)).

(** The text before the last [/], and the text from the last [.] on. *)
Fixpoint lastIndexOf (c : ascii) (s : list ascii) (i : nat) (found : option nat)
  : option nat :=
  match s with
  | [] => found
  | d :: rest => lastIndexOf c rest (S i) (if Ascii.eqb c d then Some i else found)
  end.

Definition demoDirname (p : string) : string :=
  match lastIndexOf "/" (chars p) 0 None with
  | Some i => text (take i (chars p))
  | None => "."
  end.

Definition demoBasename (p : string) : list ascii :=
  match lastIndexOf "/" (chars p) 0 None with
  | Some i => drop (S i) (chars p)
  | None => chars p
  end.

Definition demoExtname (p : string) : string :=
  match lastIndexOf "." (demoBasename p) 0 None with
  | Some (S i) => text (drop (S i) (demoBasename p))
  | _ => EmptyString
  end.

Definition demoStem (p : string) : string :=
  match lastIndexOf "." (demoBasename p) 0 None with
  | Some (S i) => text (take (S i) (demoBasename p))
  | _ => text (demoBasename p)
  end.

Fixpoint joinPath (parts : list string) : string :=
  match parts with
  | [] => EmptyString
  | [p] => p
  | p :: rest => p +:+ "/" +:+ joinPath rest
  end.

Definition demoToString (v : value) : string :=
  match v with
  | VStr s => s
  | VUndef => "undefined"
  | VNull => "null"
  | VBool true => "true"
  | VBool false => "false"
  | _ => "[object Object]"
  end.

(** The shape of what [marked-katex-extension] returns: two named
    sub-extensions with their tokenizers and renderers. *)
Definition demoMarkedKatex (options : value) : value :=
  VObj {[ "extensions" :=
    VArr [ VObj (<["name" := VStr "inlineKatex"]> (<["level" := VStr "inline"]>
                 (<["tokenizer" := VFun "tokenizer"]> {[ "renderer" := VFun "renderer" ]})));
           VObj (<["name" := VStr "blockKatex"]> (<["level" := VStr "block"]>
                 (<["tokenizer" := VFun "tokenizer"]> {[ "renderer" := VFun "renderer" ]}))) ] ]}.

Definition demoGrayMatter (mdFileContent : string) (options : value)
  : outcome (string * frontMatter) :=
  match stripPrefix (chars "---") (chars mdFileContent) with
  | Some _ => Ok (mdFileContent, FMError "YAMLException")
  | None => Ok (mdFileContent, noFrontMatter)
  end.

Definition demoMargin (margin : string) : outcome value :=
  Ok (VObj (<["top" := VStr margin]> (<["right" := VStr margin]>
           (<["bottom" := VStr margin]> {[ "left" := VStr margin ]})))).

Definition demoOutputFilePath (mdFilePath extension : string) : string :=
  joinPath [demoDirname mdFilePath; demoStem mdFilePath +:+ "." +:+ extension].

Definition demoGenerateOutput (html relativePath : string) (config : gmap string value)
  : outcome (option output) :=
  Ok (Some {| filename := match field config "dest" with
                          | VStr d => Some d
                          | _ => None
                          end;
              content := html |}).

Definition demoResolve (request : string) : outcome string :=
  Ok ("/node_modules/" +:+ request).

Definition demoHost : Host := {|
  JSON_parse := parseJson;
  toStringValue := demoToString;
  toLowerCase := lowerAscii;
  path_dirname := demoDirname;
  path_extname := demoExtname;
  path_resolve := joinPath;
  path_relative := fun from to => to;
  require_resolve := demoResolve;
  decodeFile := fun encoding bytes => Ok bytes;
  grayMatter := demoGrayMatter;
  markedKatex := demoMarkedKatex;
  getMarginObject := demoMargin;
  getOutputFilePath := demoOutputFilePath;
  getHtml := fun md config => Ok md;
  generateOutput := demoGenerateOutput;
  writable := fun path => true
|}.

Definition emptyWorld : world := {|
  store := ∅;
  configsWithKatexCss := ∅;
  cachedKatexCss := None;
  files := ∅;
  reads := [];
  warnings := [];
  stdout := []
|}.

(** A world with one configuration object, at location 1. *)
Definition worldWith (config : gmap string value) (fs : gmap string string) : world :=
  withFiles (fun _ => fs) (withStore <[1%positive := config]> emptyWorld).

Definition num (n : N) : value := VNum (Finite false n 0).

(** ** Inputs of the examples *)

Definition quoted (s : string) : string := String dquote s +:+ String dquote EmptyString.

Definition callerConfig : loc := 1%positive.

Definition mergedConfig : loc := 2%positive.

(** [{ scale: 1, format: 'A4' }] *)
Definition a4Options : gmap string value :=
  <["scale" := num 1]> {[ "format" := VStr "A4" ]}.

Definition exampleDefaults : gmap string value :=
  <["pdf_options" := VObj a4Options]> {[ "stylesheet" := VStr "a.css" ]}.

(** A front matter with [pdf_options: { scale: 2 }] and a script. *)
Definition exampleFrontMatter : gmap string value :=
  <["pdf_options" := VObj {[ "scale" := num 2 ]}]> {[ "script" := VStr "x.js" ]}.

(** [--body-class dark --marked-options '{ gfm: true }'], the latter as JSON. *)
Definition exampleArgs : list (string * value) :=
  [("--body-class", VStr "dark");
   ("--marked-options", VStr ("{" +:+ quoted "gfm" +:+ ":true}"))].

Definition exampleWorld : world := worldWith exampleDefaults ∅.

(** [--pdf-options '{ headerTemplate: ... }'] and [--pdf-options '{ scale: 2 }'],
    as JSON. *)
Definition headerArgs : list (string * value) :=
  [("--pdf-options",
    VStr ("{" +:+ quoted "headerTemplate" +:+ ":" +:+ quoted "<b>title</b>" +:+ "}"))].

Definition scaleArgs : list (string * value) :=
  [("--pdf-options", VStr ("{" +:+ quoted "scale" +:+ ":2}"))].

Definition templateDefaults : gmap string value :=
  {[ "pdf_options" := VObj {[ "headerTemplate" := VStr "<b>title</b>" ]} ]}.

(** The stylesheet of the specification's example: one font referenced
    twice, without quotes and in double quotes, and another in single
    quotes. *)
Definition katexCssPath : string := "/node_modules/katex/dist/katex.min.css".

Definition exampleCss : string :=
  ".katex{src:url(fonts/a.woff2),url('fonts/b.woff'),url("
  +:+ quoted "fonts/a.woff2" +:+ ")}".

Definition exampleFiles : gmap string string :=
  <[katexCssPath := exampleCss]>
    (<["/node_modules/katex/dist/fonts/a.woff2" := "Man"]>
       {[ "/node_modules/katex/dist/fonts/b.woff" := "M" ]}).

Definition mathConfig : gmap string value :=
  <["math_engine" := VStr "katex"]>
    (<["marked_extensions" := VArr []]>
       (<["css" := VStr "body{}"]>
          (<["pdf_options" := VObj ∅]>
             (<["stylesheet" := VArr []]> {[ "highlight_style" := VStr "github" ]})))).

Definition mathWorld : world := worldWith mathConfig exampleFiles.

(** A file system in which the math stylesheet is empty. *)
Definition emptyCssWorld : world := worldWith mathConfig {[ katexCssPath := EmptyString ]}.

(** A stylesheet whose font has an upper-case extension. *)
Definition upperCaseWorld : world :=
  worldWith mathConfig
    (<[katexCssPath := "url(fonts/A.WOFF2)"]>
       {[ "/node_modules/katex/dist/fonts/A.WOFF2" := "Man" ]}).

(** A stylesheet in which the path of one font contains the reference to
    another. *)
Definition nestedCss : string := "url(fonts/a) url(fonts/url(fonts/a)".

Definition nestedWorld : world :=
  worldWith mathConfig
    (<[katexCssPath := nestedCss]>
       (<["/node_modules/katex/dist/fonts/a" := "M"]>
          {[ "/node_modules/katex/dist/fonts/url(fonts/a" := "Ma" ]})).

(** A stylesheet that refers to no font, and a file system in which one
    of the fonts of [exampleCss] is missing. *)
Definition plainCss : string := "body{background:url(img/paper.png)}".

Definition plainCssWorld : world := worldWith mathConfig {[ katexCssPath := plainCss ]}.

Definition missingFontWorld : world :=
  worldWith mathConfig
    (<[katexCssPath := exampleCss]>
       {[ "/node_modules/katex/dist/fonts/a.woff2" := "Man" ]}).

(** A world in which the math stylesheet is cached already. *)
Definition warmWorld : world := withCache (Some ".katex{}") (worldWith mathConfig ∅).

(** A configuration whose math engine is not KaTeX. *)
Definition plainConfig : gmap string value :=
  <["math_engine" := VStr "none"]> mathConfig.

(** [--pdf-options] with a text that is not JSON, between two overrides
    that can be assigned. *)
Definition brokenArgs : list (string * value) :=
  [("--body-class", VStr "dark"); ("--pdf-options", VStr "{scale"); ("--as-html", VBool true)].

(** The main file of highlight.js, as the concrete host resolves it. *)
Definition hljsMainPath : string := "/node_modules/highlight.js".

(** highlight.js with two languages, and the part of marked that the
    examples use: packs of plain options, and packs with [extensions],
    which are collected under that key. *)
Definition demoHljs : Highlighter.hljs := {|
  Highlighter.getLanguage := fun name => String.eqb name "js" || String.eqb name "plaintext";
  Highlighter.highlight := fun code language => Ok code
|}.

Definition demoCombine (d : gmap string Highlighter.markedOption) (pack : value)
  : outcome (gmap string Highlighter.markedOption) :=
  match getPropOpt pack "extensions" with
  | VArr extensions =>
      let registered :=
        match d !! "extensions" with
        | Some (Highlighter.OptValue (VArr l)) => l
        | _ => []
        end in
      Ok {[ "extensions" := Highlighter.OptValue (VArr (registered ++ extensions)) ]}
  | _ => Ok ∅
  end.

Definition demoMarked : Highlighter.markedLib := {| Highlighter.combine := demoCombine |}.

(** [marked] before any call, and a pack of two plain options,
    [{ gfm: true, langPrefix: 'x-' }]. *)
Definition freshMarked : Highlighter.marked :=
  {| Highlighter.defaults := ∅; Highlighter.used := [] |}.

Definition optionsPack : value :=
  VObj (<["gfm" := VBool true]> {[ "langPrefix" := VStr "x-" ]}).

(** * Properties *)

(** ** Objects, the store and sequencing *)

Lemma field_insert (o : gmap string value) k v : field (<[k := v]> o) k = v.
Proof. unfold field. by rewrite lookup_insert_eq. Qed.

Lemma field_insert_ne (o : gmap string value) k k' v :
  k ≠ k' -> field (<[k := v]> o) k' = field o k'.
Proof. intros. unfold field. by rewrite lookup_insert_ne. Qed.

Lemma store_withStore f w : store (withStore f w) = f (store w).
Proof. reflexivity. Qed.

Lemma stepConfig_run {A} l (f : gmap string value -> gmap string value * outcome A) w c :
  store w !! l = Some c ->
  stepConfig l f w = (withStore <[l := fst (f c)]> w, snd (f c)).
Proof. intros Hl. unfold stepConfig. rewrite Hl. by destruct (f c). Qed.

Lemma bind_ok {A B} (c : M A) (k : A -> M B) w w' b :
  bind c k w = (w', Ok b) ->
  exists w1 a, c w = (w1, Ok a) /\ k a w1 = (w', Ok b).
Proof.
  unfold bind. destruct (c w) as [w1 [a|e]]; intros E; [eauto | discriminate].
Qed.

Lemma sameObjects_refl w : sameObjects w w.
Proof. by repeat split. Qed.

Lemma sameObjects_trans w1 w2 w3 : sameObjects w1 w2 -> sameObjects w2 w3 -> sameObjects w1 w3.
Proof.
  intros (A1 & A2 & A3 & A4 & A5) (B1 & B2 & B3 & B4 & B5).
  repeat split; congruence.
Qed.

Lemma bind_run {A B} (c : M A) (k : A -> M B) w w1 a :
  c w = (w1, Ok a) -> bind c k w = k a w1.
Proof. unfold bind. by intros ->. Qed.

Lemma bind_throw {A B} (c : M A) (k : A -> M B) w w1 e :
  c w = (w1, Throw e) -> bind c k w = (w1, Throw e).
Proof. unfold bind. by intros ->. Qed.

Lemma bind_inv {A B} (c : M A) (k : A -> M B) w w' r :
  bind c k w = (w', r) ->
  (exists w1 a, c w = (w1, Ok a) /\ k a w1 = (w', r))
  \/ (exists e, c w = (w', Throw e) /\ r = Throw e).
Proof.
  unfold bind. destruct (c w) as [w1 [a|e]]; intros E.
  - left. eauto.
  - right. injection E as <- <-. eauto.
Qed.


Section MergeFacts.
Context `{Host}.

Lemma mergeOverrides_ok l args w w' c :
  store w !! l = Some c ->
  mergeOverrides l args w = (w', Ok tt) ->
  exists c1 c3,
    deriveDisplayHeaderFooter c = (c1, Ok tt)
    /\ mergeCliArgs args (sanitizeArrayOptions c1) = (c3, Ok tt)
    /\ store w' = <[l := c3]> (store w).
Proof.
  intros Hl. unfold mergeOverrides. intros E.
  apply bind_ok in E as (w1 & [] & E1 & E).
  apply bind_ok in E as (w2 & [] & E2 & E3).
  rewrite (stepConfig_run _ _ _ _ Hl) in E1.
  destruct (deriveDisplayHeaderFooter c) as [c1 r1] eqn:D. simpl in E1.
  injection E1 as <- ->.
  assert (H1 : store (withStore <[l := c1]> w) !! l = Some c1) by (simpl; apply lookup_insert_eq).
  rewrite (stepConfig_run _ _ _ _ H1) in E2. simpl in E2. injection E2 as <-.
  match type of E3 with stepConfig _ _ ?w0 = _ =>
    assert (H2 : store w0 !! l = Some (sanitizeArrayOptions c1)) by (simpl; apply lookup_insert_eq) end.
  rewrite (stepConfig_run _ _ _ _ H2) in E3.
  destruct (mergeCliArgs args (sanitizeArrayOptions c1)) as [c3 r3] eqn:D3. simpl in E3.
  injection E3 as <- ->.
  exists c1, c3. split; [done|]. split; [done|].
  simpl. by rewrite !insert_insert_eq.
Qed.


Lemma listCoercion_wrap v : isArray v = false -> wrapInArray v = listCoercion v.
Proof. intros E. unfold wrapInArray, listCoercion. rewrite E. simpl. by destruct (truthy v). Qed.

Lemma isArray_field_lookup (c : gmap string value) k :
  isArray (field c k) = true -> c !! k = Some (field c k).
Proof. unfold field. destruct (c !! k); simpl; [done | discriminate]. Qed.

Lemma sanitizeArrayOption_same c option :
  sanitizeArrayOption c option !! option = Some (listCoercion (field c option)).
Proof.
  unfold sanitizeArrayOption. destruct (isArray (field c option)) eqn:E.
  - rewrite (isArray_field_lookup _ _ E). unfold listCoercion. by rewrite E.
  - rewrite lookup_insert_eq. by rewrite listCoercion_wrap.
Qed.

Lemma sanitizeArrayOption_other c option k :
  option ≠ k -> sanitizeArrayOption c option !! k = c !! k.
Proof.
  intros Hne. unfold sanitizeArrayOption. destruct (isArray (field c option)); [done|].
  by rewrite lookup_insert_ne.
Qed.

Lemma field_ext (c c' : gmap string value) k : c !! k = c' !! k -> field c k = field c' k.
Proof. unfold field. by intros ->. Qed.

Lemma sanitizeArrayOptions_option c option :
  option ∈ arrayOptions ->
  sanitizeArrayOptions c !! option = Some (listCoercion (field c option)).
Proof.
  intros Hin. unfold sanitizeArrayOptions, arrayOptions in *. simpl.
  repeat (apply elem_of_cons in Hin as [-> | Hin]);
    [ .. | by apply elem_of_nil in Hin ];
    repeat first
      [ rewrite sanitizeArrayOption_same
      | rewrite sanitizeArrayOption_other by discriminate ];
    f_equal; f_equal; apply field_ext;
    repeat (rewrite sanitizeArrayOption_other by discriminate); done.
Qed.

Lemma sanitizeArrayOptions_other c k :
  k ∉ arrayOptions -> sanitizeArrayOptions c !! k = c !! k.
Proof.
  intros Hnin. unfold sanitizeArrayOptions, arrayOptions in *. simpl.
  rewrite !sanitizeArrayOption_other; [done | ..];
    intros <-; apply Hnin; set_solver.
Qed.

Lemma listCoercion_idempotent v : listCoercion (listCoercion v) = listCoercion v.
Proof. unfold listCoercion. destruct (isArray v) eqn:E; [by rewrite E|]. by destruct (truthy v). Qed.

Lemma sanitizeArrayOptions_idempotent c :
  sanitizeArrayOptions (sanitizeArrayOptions c) = sanitizeArrayOptions c.
Proof.
  apply map_eq. intros k.
  destruct (decide (k ∈ arrayOptions)) as [Hin|Hnin].
  - rewrite sanitizeArrayOptions_option by done.
    rewrite (sanitizeArrayOptions_option c) by done.
    unfold field at 1. rewrite (sanitizeArrayOptions_option c) by done. simpl.
    by rewrite listCoercion_idempotent.
  - by rewrite sanitizeArrayOptions_other.
Qed.

Lemma mergeCliArgs_lookup args : forall c c' k,
  mergeCliArgs args c = (c', Ok tt) ->
  match overrideOf args k with
  | Some (argKey, argValue) =>
      exists v, argValueOf argKey argValue = Ok v /\ c' !! k = Some v
  | None => c' !! k = c !! k
  end.
Proof.
  induction args as [|[argKey argValue] rest IH]; intros c c' k E; simpl in *.
  - by injection E as ->.
  - destruct (argValueOf argKey argValue) as [v|e] eqn:Ev; [|discriminate].
    destruct (String.eqb (configKey argKey) "__proto__") eqn:Ep; [discriminate|].
    specialize (IH _ _ k E).
    destruct (overrideOf rest k) as [[ak av]|]; [done|].
    destruct (String.eqb (configKey argKey) k) eqn:Ek.
    + apply String.eqb_eq in Ek as <-. exists v. split; [done|].
      by rewrite IH, lookup_insert_eq.
    + apply String.eqb_neq in Ek. by rewrite IH, lookup_insert_ne.
Qed.

Lemma derive_other c c1 k :
  deriveDisplayHeaderFooter c = (c1, Ok tt) ->
  k ≠ "pdf_options" -> c1 !! k = c !! k.
Proof.
  unfold deriveDisplayHeaderFooter. intros E Hk.
  repeat match type of E with
  | context [match ?x with _ => _ end] => destruct x; try discriminate
  end; injection E as <-; try done; by rewrite lookup_insert_ne.
Qed.


Lemma pdf_options_not_list_option : "pdf_options" ∉ arrayOptions.
Proof.
  intros Hin. unfold arrayOptions in Hin.
  repeat (apply elem_of_cons in Hin as [E|Hin]; [discriminate E|]).
  by apply elem_of_nil in Hin.
Qed.

Lemma mergeFrontMatterStep_ok l fm w w' l' c :
  store w !! l = Some c ->
  mergeFrontMatterStep l fm w = (w', Ok l') ->
  store w' !! l' = Some (mergedLayers c fm).
Proof.
  intros Hl. destruct fm as [e|data]; simpl.
  - unfold bind, warn, ret. intros E. injection E as <- <-. done.
  - unfold bind, getConfig, lift, allocConfig. rewrite Hl.
    destruct (mergeFrontMatter c data) as [merged|err]; [|discriminate].
    intros E. injection E as <- <-. simpl. apply lookup_insert_eq.
Qed.

Lemma mergeConfig_front_matter l data args w w' l' c :
  store w !! l = Some c ->
  mergeConfig l (FMData data) args w = (w', Ok l') ->
  mergeFrontMatter c data = Ok (mergedLayers c (FMData data)).
Proof.
  intros Hl E. unfold mergeConfig in E. apply bind_ok in E as (w1 & l1 & E & _).
  simpl in E. unfold bind, getConfig, lift in E. rewrite Hl in E. simpl.
  destruct (mergeFrontMatter c data); [done | discriminate E].
Qed.

Lemma mergeConfig_ok l fm args w w' l' c :
  store w !! l = Some c ->
  mergeConfig l fm args w = (w', Ok l') ->
  exists c1 final,
    deriveDisplayHeaderFooter (mergedLayers c fm) = (c1, Ok tt)
    /\ mergeCliArgs args (sanitizeArrayOptions c1) = (final, Ok tt)
    /\ store w' !! l' = Some final.
Proof.
  intros Hl E. unfold mergeConfig in E.
  apply bind_ok in E as (w1 & l1 & E1 & E).
  apply bind_ok in E as (w2 & [] & E2 & E3).
  unfold ret in E3. injection E3 as <- <-.
  pose proof (mergeFrontMatterStep_ok _ _ _ _ _ _ Hl E1) as H1.
  destruct (mergeOverrides_ok _ _ _ _ _ H1 E2) as (c1 & c3 & D1 & D3 & St).
  exists c1, c3. repeat split; try done. rewrite St. apply lookup_insert_eq.
Qed.

Lemma derive_pdf_options c c1 :
  deriveDisplayHeaderFooter c = (c1, Ok tt) ->
  let before := field c "pdf_options" in
  let after := field c1 "pdf_options" in
  (forall k, k ≠ "displayHeaderFooter" -> getPropOpt after k = getPropOpt before k)
  /\ getPropOpt after "displayHeaderFooter" =
       (if (truthy (getPropOpt before "headerTemplate")
            || truthy (getPropOpt before "footerTemplate"))
           && isUndefined (getPropOpt before "displayHeaderFooter")
        then VBool true
        else getPropOpt before "displayHeaderFooter").
Proof.
  unfold deriveDisplayHeaderFooter. intros E. simpl.
  destruct (field c "pdf_options") as [| |b|n|s|l|o|f] eqn:Ef; simpl in E;
    try discriminate;
    try (injection E as <-; rewrite Ef; split; [done|]; done).
  unfold getPropOpt at 3 4 5 6. simpl.
  destruct ((truthy (field o "headerTemplate") || truthy (field o "footerTemplate"))
            && isUndefined (field o "displayHeaderFooter")) eqn:Ec;
    injection E as <-.
  - rewrite field_insert. unfold getPropOpt; simpl. split.
    + intros k Hk. by rewrite field_insert_ne.
    + by rewrite field_insert.
  - rewrite Ef. split; done.
Qed.

(** C3. After defaults and front matter are merged, each of the four
    list-valued options holds its list coercion: a list is kept as it
    is, a falsy value gives the empty list, any other value the
    one-element list holding it, and coercing twice changes nothing
    more. An option assigned by an invocation override holds the
    override's value as it came (parsed from JSON for the four JSON
    flags), a list or not. *)
Theorem list_options_coerced_once w config c fm args w' config' option :
  store w !! config = Some c ->
  mergeConfig config fm args w = (w', Ok config') ->
  option ∈ arrayOptions ->
  let merged := field (mergedLayers c fm) option in
  exists final, store w' !! config' = Some final
    /\ match overrideOf args option with
       | None => final !! option = Some (listCoercion merged)
       | Some (argKey, argValue) => argValueOf argKey argValue = Ok (field final option)
       end
    /\ (isArray merged = true -> listCoercion merged = merged)
    /\ (isArray merged = false -> truthy merged = true -> listCoercion merged = VArr [merged])
    /\ (isArray merged = false -> truthy merged = false -> listCoercion merged = VArr [])
    /\ listCoercion (listCoercion merged) = listCoercion merged.
Proof.
  intros Hl E Hin merged.
  destruct (mergeConfig_ok _ _ _ _ _ _ _ Hl E) as (c1 & final & D1 & D3 & St).
  exists final. split; [done|]. split; [|repeat split].
  - pose proof (mergeCliArgs_lookup _ _ _ option D3) as L.
    destruct (overrideOf args option) as [[ak av]|].
    + destruct L as (v & Ev & Lv). unfold field. by rewrite Lv.
    + rewrite L, sanitizeArrayOptions_option by done.
      f_equal. f_equal. apply field_ext. apply (derive_other _ _ _ D1).
      intros ->. by apply pdf_options_not_list_option.
  - unfold listCoercion. by intros ->.
  - unfold listCoercion. by intros -> ->.
  - unfold listCoercion. by intros -> ->.
  - apply listCoercion_idempotent.
Qed.


Lemma mergeFrontMatter_lookup (c merged : gmap string value) data k :
  mergeFrontMatter c data = Ok merged ->
  k ≠ "pdf_options" ->
  merged !! k = match ownProps data !! k with Some v => Some v | None => c !! k end.
Proof.
  unfold mergeFrontMatter. intros E Hk.
  destruct (getProp data "pdf_options"); [|discriminate]. injection E as <-.
  rewrite lookup_insert_ne by done.
  rewrite lookup_union. destruct (ownProps data !! k), (c !! k); done.
Qed.

Lemma mergeFrontMatter_pdf_options (c merged : gmap string value) data :
  mergeFrontMatter c data = Ok merged ->
  merged !! "pdf_options"
  = Some (VObj (ownProps (getPropOpt data "pdf_options")
                ∪ ownProps (field c "pdf_options"))).
Proof.
  unfold mergeFrontMatter, getPropOpt. intros E.
  destruct (getProp data "pdf_options"); [|discriminate]. injection E as <-.
  apply lookup_insert_eq.
Qed.

(** C1, as amended. A key assigned by an invocation override holds the
    override's value (the last one, parsed from JSON for the four JSON
    flags), whatever defaults and front matter say. A key of the front
    matter without an override holds the front matter's value, coerced to
    a list for the four list-valued options; [pdf_options] is the
    exception, being merged field by field (see C4). *)
Theorem merge_precedence w config c data args w' config' :
  store w !! config = Some c ->
  mergeConfig config (FMData data) args w = (w', Ok config') ->
  exists final, store w' !! config' = Some final
    /\ forall key,
         match overrideOf args key with
         | Some (argKey, argValue) =>
             argValueOf argKey argValue = Ok (field final key) /\ is_Some (final !! key)
         | None =>
             forall v, ownProps data !! key = Some v -> key ≠ "pdf_options" ->
               final !! key
               = Some (if bool_decide (key ∈ arrayOptions) then listCoercion v else v)
         end.
Proof.
  intros Hl E.
  destruct (mergeConfig_ok _ _ _ _ _ _ _ Hl E) as (c1 & final & D1 & D3 & St).
  exists final. split; [done|]. intros key.
  pose proof (mergeCliArgs_lookup _ _ _ key D3) as L.
  destruct (overrideOf args key) as [[ak av]|].
  - destruct L as (v & Ev & Lv). unfold field. rewrite Lv. eauto.
  - intros v Hv Hk. rewrite L.
    assert (Hm : c1 !! key = Some v).
    { rewrite (derive_other _ _ _ D1 Hk).
      rewrite (mergeFrontMatter_lookup _ _ _ _
                 (mergeConfig_front_matter _ _ _ _ _ _ _ Hl E) Hk).
      by rewrite Hv. }
    case_bool_decide as Hin.
    + rewrite sanitizeArrayOptions_option by done. unfold field. by rewrite Hm.
    + by rewrite sanitizeArrayOptions_other.
Qed.

(** C4, as amended. When no invocation override assigns [pdf_options],
    the merged [pdf_options] is an object made field by field from the
    defaults' and the front matter's: a field the front matter defines
    holds the front matter's value, a field only the defaults define is
    preserved. *)
Theorem pdf_options_merged_fieldwise w config c data args w' config' :
  store w !! config = Some c ->
  mergeConfig config (FMData data) args w = (w', Ok config') ->
  overrideOf args "pdf_options" = None ->
  let lower := ownProps (field c "pdf_options") in
  let upper := ownProps (getPropOpt data "pdf_options") in
  exists final merged, store w' !! config' = Some final
    /\ final !! "pdf_options" = Some (VObj merged)
    /\ (forall f v, upper !! f = Some v -> v ≠ VUndef -> field merged f = v)
    /\ (forall f v, upper !! f = None -> lower !! f = Some v -> v ≠ VUndef ->
          field merged f = v).
Proof.
  intros Hl E Hov lower upper.
  destruct (mergeConfig_ok _ _ _ _ _ _ _ Hl E) as (c1 & final & D1 & D3 & St).
  pose proof (mergeCliArgs_lookup _ _ _ "pdf_options" D3) as L. rewrite Hov in L.
  rewrite sanitizeArrayOptions_other in L by apply pdf_options_not_list_option.
  pose proof (mergeFrontMatter_pdf_options _ _ _
                (mergeConfig_front_matter _ _ _ _ _ _ _ Hl E)) as Hpdf.
  fold lower upper in Hpdf.
  remember (mergedLayers c (FMData data)) as layers eqn:Hlayers. clear Hlayers.
  assert (Hbefore : field layers "pdf_options" = VObj (upper ∪ lower))
    by (unfold field; by rewrite Hpdf).
  pose proof (derive_pdf_options _ _ D1) as [Hother Hdisp]. cbv zeta in Hother, Hdisp.
  rewrite Hbefore in Hother, Hdisp.
  assert (exists merged, c1 !! "pdf_options" = Some (VObj merged)) as [merged Hm].
  { unfold deriveDisplayHeaderFooter in D1. rewrite Hbefore in D1. simpl in D1.
    destruct (_ && _) in D1; injection D1 as <-.
    - rewrite lookup_insert_eq. eauto.
    - rewrite Hpdf. eauto. }
  exists final, merged. split; [done|]. split; [by rewrite L|].
  assert (Hf : field c1 "pdf_options" = VObj merged) by (unfold field; by rewrite Hm).
  rewrite Hf in Hother, Hdisp. unfold getPropOpt in Hother, Hdisp. simpl in Hother, Hdisp.
  assert (Hall : forall f v, (upper ∪ lower) !! f = Some v -> v ≠ VUndef -> field merged f = v).
  { intros f v Hu Hv. destruct (decide (f = "displayHeaderFooter")) as [->|Hne].
    - rewrite Hdisp. unfold field at 3 4. rewrite Hu. simpl.
      destruct v; try done; by rewrite andb_false_r.
    - rewrite Hother by done. unfold field. by rewrite Hu. }
  split.
  - intros f v Hu Hv. apply Hall; [|done]. rewrite lookup_union, Hu. by destruct (lower !! f).
  - intros f v Hu Hlo Hv. apply Hall; [|done]. by rewrite lookup_union, Hu, Hlo.
Qed.

(** C8, as amended. When no invocation override assigns [pdf_options]:
    if [headerTemplate] or [footerTemplate] is truthy in the
    [pdf_options] merged from defaults and front matter and
    [displayHeaderFooter] is undefined there, the merged configuration
    has [displayHeaderFooter = true]; a [displayHeaderFooter] that
    defaults or front matter define is kept; without a template it is
    left as it is. *)
Theorem display_header_footer_derived w config c fm args w' config' :
  store w !! config = Some c ->
  mergeConfig config fm args w = (w', Ok config') ->
  overrideOf args "pdf_options" = None ->
  let before := field (mergedLayers c fm) "pdf_options" in
  exists final, store w' !! config' = Some final
    /\ let after := field final "pdf_options" in
       (truthy (getPropOpt before "headerTemplate")
          || truthy (getPropOpt before "footerTemplate") = true ->
        getPropOpt before "displayHeaderFooter" = VUndef ->
        getPropOpt after "displayHeaderFooter" = VBool true)
       /\ (getPropOpt before "displayHeaderFooter" ≠ VUndef ->
           getPropOpt after "displayHeaderFooter" = getPropOpt before "displayHeaderFooter")
       /\ (truthy (getPropOpt before "headerTemplate")
             || truthy (getPropOpt before "footerTemplate") = false ->
           getPropOpt after "displayHeaderFooter" = getPropOpt before "displayHeaderFooter").
Proof.
  intros Hl E Hov before.
  destruct (mergeConfig_ok _ _ _ _ _ _ _ Hl E) as (c1 & final & D1 & D3 & St).
  pose proof (mergeCliArgs_lookup _ _ _ "pdf_options" D3) as L. rewrite Hov in L.
  rewrite sanitizeArrayOptions_other in L by apply pdf_options_not_list_option.
  pose proof (derive_pdf_options _ _ D1) as [_ Hdisp]. simpl in Hdisp. fold before in Hdisp.
  exists final. split; [done|]. simpl.
  rewrite (field_ext _ _ _ L), Hdisp. repeat split.
  - by intros -> ->.
  - intros Hd. destruct (getPropOpt before "displayHeaderFooter"); try done;
      by rewrite andb_false_r.
  - by intros ->.
Qed.

End MergeFacts.

(** ** The merge on examples *)

Lemma list_options_coerced_once_witness :
  let run := mergeConfig (H := demoHost) callerConfig (FMData (VObj exampleFrontMatter)) exampleArgs exampleWorld in
  snd run = Ok mergedConfig
  /\ exists final, store (fst run) !! mergedConfig = Some final
       /\ final !! "stylesheet" = Some (VArr [VStr "a.css"]).
Proof.
  split; [by vm_compute|].
  destruct (list_options_coerced_once (H := demoHost) exampleWorld callerConfig exampleDefaults
              (FMData (VObj exampleFrontMatter)) exampleArgs
              (fst (mergeConfig (H := demoHost) callerConfig (FMData (VObj exampleFrontMatter)) exampleArgs exampleWorld))
              mergedConfig "stylesheet")
    as (final & Hs & Hm & _).
  - by vm_compute.
  - by vm_compute.
  - unfold arrayOptions. set_solver.
  - exists final. split; [exact Hs | exact Hm].
Defined.

Lemma merge_precedence_witness :
  let run := mergeConfig (H := demoHost) callerConfig (FMData (VObj exampleFrontMatter))
               exampleArgs exampleWorld in
  snd run = Ok mergedConfig
  /\ exists final, store (fst run) !! mergedConfig = Some final
       /\ final !! "body_class" = Some (VStr "dark")
       /\ final !! "script" = Some (VArr [VStr "x.js"]).
Proof.
  split; [by vm_compute|].
  destruct (merge_precedence (H := demoHost) exampleWorld callerConfig exampleDefaults
              (VObj exampleFrontMatter) exampleArgs
              (fst (mergeConfig (H := demoHost) callerConfig (FMData (VObj exampleFrontMatter))
                      exampleArgs exampleWorld))
              mergedConfig)
    as (final & Hs & Hk).
  - by vm_compute.
  - by vm_compute.
  - exists final. split; [exact Hs|]. split.
    + pose proof (Hk "body_class") as K. simpl in K. destruct K as [Hv [v Hl]].
      rewrite Hl. unfold field in Hv. rewrite Hl in Hv. simpl in Hv.
      injection Hv as <-. reflexivity.
    + pose proof (Hk "script") as K. simpl in K.
      rewrite (K (VStr "x.js")); [by vm_compute | by vm_compute | discriminate].
Defined.

Lemma merge_precedence_counterexample :
  let run := mergeConfig (H := demoHost) callerConfig (FMData (VObj exampleFrontMatter)) []
               exampleWorld in
  snd run = Ok mergedConfig
  /\ exampleDefaults !! "pdf_options" = Some (VObj a4Options)
  /\ exampleFrontMatter !! "pdf_options" = Some (VObj {[ "scale" := num 2 ]})
  /\ overrideOf [] "pdf_options" = None
  /\ exists final, store (fst run) !! mergedConfig = Some final
       /\ final !! "pdf_options"
          = Some (VObj (<["scale" := num 2]> {[ "format" := VStr "A4" ]}))
       /\ final !! "pdf_options" ≠ exampleFrontMatter !! "pdf_options".
Proof.
  split; [by vm_compute|]. split; [by vm_compute|]. split; [by vm_compute|].
  split; [done|]. eexists. split; [by vm_compute|]. split; [by vm_compute|].
  intros E.
  apply (f_equal (fun o => getPropOpt (default VUndef o) "format")) in E.
  vm_compute in E. discriminate E.
Qed.

Lemma pdf_options_merged_fieldwise_witness :
  let run := mergeConfig (H := demoHost) callerConfig (FMData (VObj exampleFrontMatter))
               exampleArgs exampleWorld in
  snd run = Ok mergedConfig
  /\ overrideOf exampleArgs "pdf_options" = None
  /\ exists final merged, store (fst run) !! mergedConfig = Some final
       /\ final !! "pdf_options" = Some (VObj merged)
       /\ field merged "scale" = num 2
       /\ field merged "format" = VStr "A4".
Proof.
  split; [by vm_compute|]. split; [by vm_compute|].
  destruct (pdf_options_merged_fieldwise (H := demoHost) exampleWorld callerConfig
              exampleDefaults (VObj exampleFrontMatter) exampleArgs
              (fst (mergeConfig (H := demoHost) callerConfig (FMData (VObj exampleFrontMatter))
                      exampleArgs exampleWorld))
              mergedConfig)
    as (final & merged & Hs & Hp & Hup & Hlow).
  - by vm_compute.
  - by vm_compute.
  - by vm_compute.
  - exists final, merged. split; [exact Hs|]. split; [exact Hp|]. split.
    + apply Hup; [by vm_compute | discriminate].
    + apply Hlow; [by vm_compute | by vm_compute | discriminate].
Defined.

Lemma pdf_options_replaced_by_override :
  let run := mergeConfig (H := demoHost) callerConfig noFrontMatter scaleArgs exampleWorld in
  snd run = Ok mergedConfig
  /\ getPropOpt (field exampleDefaults "pdf_options") "format" = VStr "A4"
  /\ argValueOf (H := demoHost) "--pdf-options" (argsGet scaleArgs "--pdf-options")
     = Ok (VObj {[ "scale" := num 2 ]})
  /\ exists final, store (fst run) !! mergedConfig = Some final
       /\ final !! "pdf_options" = Some (VObj {[ "scale" := num 2 ]})
       /\ getPropOpt (field final "pdf_options") "format" = VUndef.
Proof.
  split; [by vm_compute|]. split; [by vm_compute|]. split; [by vm_compute|].
  eexists. split; [by vm_compute|]. split; by vm_compute.
Qed.

Lemma display_header_footer_derived_witness :
  let run := mergeConfig (H := demoHost) callerConfig (FMData (VObj exampleFrontMatter))
               exampleArgs (worldWith templateDefaults ∅) in
  snd run = Ok mergedConfig
  /\ overrideOf exampleArgs "pdf_options" = None
  /\ exists final, store (fst run) !! mergedConfig = Some final
       /\ getPropOpt (field final "pdf_options") "displayHeaderFooter" = VBool true.
Proof.
  split; [by vm_compute|]. split; [by vm_compute|].
  destruct (display_header_footer_derived (H := demoHost) (worldWith templateDefaults ∅)
              callerConfig templateDefaults (FMData (VObj exampleFrontMatter)) exampleArgs
              (fst (mergeConfig (H := demoHost) callerConfig (FMData (VObj exampleFrontMatter))
                      exampleArgs (worldWith templateDefaults ∅)))
              mergedConfig)
    as (final & Hs & Hset & _).
  - by vm_compute.
  - by vm_compute.
  - by vm_compute.
  - exists final. split; [exact Hs|]. apply Hset; by vm_compute.
Defined.

Lemma display_header_footer_lost_by_override :
  let run := mergeConfig (H := demoHost) callerConfig noFrontMatter headerArgs exampleWorld in
  snd run = Ok mergedConfig
  /\ getPropOpt (field exampleDefaults "pdf_options") "displayHeaderFooter" = VUndef
  /\ exists final, store (fst run) !! mergedConfig = Some final
       /\ getPropOpt (field final "pdf_options") "headerTemplate" = VStr "<b>title</b>"
       /\ getPropOpt (field final "pdf_options") "displayHeaderFooter" = VUndef.
Proof.
  split; [by vm_compute|]. split; [by vm_compute|].
  eexists. split; [by vm_compute|]. split; by vm_compute.
Qed.

(** ** Math support *)

Lemma storeBlind_bind {A B} (c : M A) (k : A -> M B) :
  storeBlind c -> (forall a, storeBlind (k a)) -> storeBlind (bind c k).
Proof.
  intros Hc Hk f w. unfold bind. rewrite Hc.
  destruct (c w) as [w1 [a|e]]; simpl; [apply Hk | done].
Qed.

Lemma storeBlind_lift {A} (o : outcome A) : storeBlind (lift o).
Proof. by intros f w. Qed.

Lemma storeBlind_ret {A} (a : A) : storeBlind (ret a).
Proof. by intros f w. Qed.

Lemma storeBlind_readFile p : storeBlind (fs_readFile p).
Proof. intros f w. unfold fs_readFile. simpl. by destruct (files w !! p). Qed.

Lemma storeBlind_run {A} (c : M A) f w w' r :
  storeBlind c -> c w = (w', r) -> c (withStore f w) = (withStore f w', r).
Proof. intros Hc E. rewrite Hc, E. done. Qed.

Section KatexFacts.
Context `{Host}.

Lemma fs_readFile_frame p w w' r :
  fs_readFile p w = (w', r) ->
  sameObjects w w' /\ cachedKatexCss w' = cachedKatexCss w /\ reads w' = p :: reads w
  /\ r = match files w !! p with Some bytes => Ok bytes | None => Throw (IOError p) end.
Proof.
  unfold fs_readFile. destruct (files w !! p); intros E; injection E as <- <-;
    by repeat split.
Qed.

Lemma inlineFonts_frame katexCssPath paths : forall css w w' r,
  inlineFonts katexCssPath paths css w = (w', r) ->
  sameObjects w w' /\ cachedKatexCss w' = cachedKatexCss w.
Proof.
  induction paths as [|p rest IH]; intros css w w' r E; simpl in E.
  - unfold ret in E. injection E as <- <-. split; [apply sameObjects_refl | done].
  - apply bind_inv in E as [(w1 & data & E1 & E)|(e & E1 & ->)].
    + apply fs_readFile_frame in E1 as (S1 & C1 & _).
      apply bind_inv in E as [(w2 & css' & E2 & E)|(e & E2 & ->)].
      * unfold lift in E2. injection E2 as <- _.
        apply IH in E as (S2 & C2). split; [by eapply sameObjects_trans | congruence].
      * unfold lift in E2. injection E2 as <- _. done.
    + apply fs_readFile_frame in E1 as (S1 & C1 & _). done.
Qed.

Lemma computeKatexCss_frame w w' r :
  computeKatexCss w = (w', r) -> sameObjects w w'.
Proof.
  unfold computeKatexCss. intros E.
  apply bind_inv in E as [(w1 & p & E1 & E)|(e & E1 & ->)];
    unfold lift in E1; injection E1 as <- E1; [|apply sameObjects_refl].
  apply bind_inv in E as [(w2 & css & E2 & E)|(e & E2 & ->)];
    apply fs_readFile_frame in E2 as (S2 & _); [|done].
  apply bind_inv in E as [(w3 & css' & E3 & E)|(e & E3 & ->)];
    apply inlineFonts_frame in E3 as (S3 & _); [|by eapply sameObjects_trans].
  unfold bind, setCachedKatexCss, ret in E. injection E as <- _.
  eapply sameObjects_trans; [done|]. eapply sameObjects_trans; [done|]. by repeat split.
Qed.

Lemma computeKatexCss_caches w w' css :
  computeKatexCss w = (w', Ok css) -> cachedKatexCss w' = Some css.
Proof.
  unfold computeKatexCss. intros E.
  apply bind_ok in E as (w1 & p & _ & E).
  apply bind_ok in E as (w2 & raw & _ & E).
  apply bind_ok in E as (w3 & css' & _ & E).
  unfold bind, setCachedKatexCss, ret in E. by injection E as <- <-.
Qed.

Lemma loadKatexCss_frame w w' r :
  loadKatexCss w = (w', r) -> sameObjects w w'.
Proof.
  unfold loadKatexCss. destruct (cachedKatexCss w) as [cached|].
  - destruct (truthy (VStr cached)).
    + intros E. injection E as <- _. apply sameObjects_refl.
    + apply computeKatexCss_frame.
  - apply computeKatexCss_frame.
Qed.


Lemma storeBlind_inlineFonts katexCssPath paths :
  forall css, storeBlind (inlineFonts katexCssPath paths css).
Proof.
  induction paths as [|p rest IH]; intros css; simpl.
  - apply storeBlind_ret.
  - apply storeBlind_bind; [apply storeBlind_readFile|]. intros data.
    apply storeBlind_bind; [apply storeBlind_lift|]. intros css'. apply IH.
Qed.

Lemma storeBlind_loadKatexCss : storeBlind loadKatexCss.
Proof.
  assert (Hc : storeBlind computeKatexCss).
  { unfold computeKatexCss.
    apply storeBlind_bind; [apply storeBlind_lift|]. intros p.
    apply storeBlind_bind; [apply storeBlind_readFile|]. intros css.
    apply storeBlind_bind; [apply storeBlind_inlineFonts|]. intros css'.
    apply storeBlind_bind; [by intros f w | intros []; apply storeBlind_ret]. }
  intros f w. unfold loadKatexCss.
  change (cachedKatexCss (withStore f w)) with (cachedKatexCss w).
  destruct (cachedKatexCss w) as [cached|]; [|apply Hc].
  destruct (truthy (VStr cached)); [reflexivity | apply Hc].
Qed.

Lemma loadKatexCss_cached w css :
  cachedKatexCss w = Some css -> css ≠ EmptyString -> loadKatexCss w = (w, Ok css).
Proof.
  intros Hc Hne. unfold loadKatexCss. rewrite Hc. destruct css; [done|reflexivity].
Qed.

Lemma loadKatexCss_caches w w' css :
  loadKatexCss w = (w', Ok css) -> css ≠ EmptyString -> cachedKatexCss w' = Some css.
Proof.
  unfold loadKatexCss. intros E Hne.
  destruct (cachedKatexCss w) as [cached|] eqn:Hc.
  - destruct (truthy (VStr cached)) eqn:Ht.
    + by injection E as <- <-.
    + by apply computeKatexCss_caches in E.
  - by apply computeKatexCss_caches in E.
Qed.

(** Once [loadKatexCss] has returned a stylesheet that is not empty,
    the stylesheet is cached: the second call, and every call in a world
    with that cache, returns the same string and leaves the world as it
    is, so no file is read again. *)
Theorem katex_css_computed_once w w1 css :
  loadKatexCss w = (w1, Ok css) ->
  css ≠ EmptyString ->
  cachedKatexCss w1 = Some css
  /\ loadKatexCss w1 = (w1, Ok css)
  /\ forall w2, cachedKatexCss w2 = cachedKatexCss w1 -> loadKatexCss w2 = (w2, Ok css).
Proof.
  intros E Hne. pose proof (loadKatexCss_caches _ _ _ E Hne) as Hc.
  split; [done|]. split.
  - by apply loadKatexCss_cached.
  - intros w2 E2. apply loadKatexCss_cached; congruence.
Qed.

Lemma ensureKatexSupport_other_engine config w c :
  store w !! config = Some c ->
  isString "katex" (field c "math_engine") = false ->
  ensureKatexSupport config w = (w, Ok tt).
Proof.
  intros Hl He. unfold ensureKatexSupport, bind, getConfig. rewrite Hl, He. reflexivity.
Qed.

Lemma ensureKatexSupport_ok config w w1 c :
  store w !! config = Some c ->
  isString "katex" (field c "math_engine") = true ->
  ensureKatexSupport config w = (w1, Ok tt) ->
  exists extensions,
    field c "marked_extensions" = VArr extensions
    /\ if bool_decide (config ∈ configsWithKatexCss w)
       then w1 = withStore <[config := withKatexExtension c extensions]> w
            \/ (existsb isKatexExtension extensions = true /\ w1 = w)
       else exists w0 wl katexCss,
            (w0 = withStore <[config := withKatexExtension c extensions]> w
             \/ w0 = w)
            /\ loadKatexCss w0 = (wl, Ok katexCss)
            /\ w1 = withKatexSet (fun s => {[config]} ∪ s)
                      (withStore <[config := withKatexCss katexCss
                                                (withKatexExtension c extensions)]> wl).
Proof.
  intros Hl He E. unfold ensureKatexSupport in E.
  unfold bind at 1 in E. unfold getConfig in E. rewrite Hl, He in E. simpl in E.
  apply bind_ok in E as (w2 & has & E1 & E).
  unfold lift in E1. injection E1 as <- E1.
  destruct (field c "marked_extensions") as [| | | | |extensions|o|] eqn:Hm;
    simpl in E1; try discriminate.
  2:{ destruct (field o "some"); discriminate. }
  injection E1 as <-. exists extensions. split; [done|].
  apply bind_ok in E as (w3 & [] & E2 & E).
  assert (Hw3 : store w3 !! config = Some (withKatexExtension c extensions)
                /\ configsWithKatexCss w3 = configsWithKatexCss w
                /\ cachedKatexCss w3 = cachedKatexCss w /\ files w3 = files w
                /\ (w3 = withStore <[config := withKatexExtension c extensions]> w
                    \/ existsb isKatexExtension extensions = true /\ w3 = w)).
  { unfold withKatexExtension. destruct (existsb isKatexExtension extensions) eqn:Hex.
    - unfold ret in E2. injection E2 as <-. repeat split; try done. by right.
    - rewrite (stepConfig_run _ _ _ _ Hl) in E2. unfold appendKatexExtension in E2.
      rewrite Hm in E2. simpl in E2. injection E2 as <-. simpl.
      repeat split; try done; [apply lookup_insert_eq | by left]. }
  destruct Hw3 as (Hs3 & Hk3 & Hc3 & Hf3 & Hw3).
  apply bind_ok in E as (w4 & marked & E3 & E).
  unfold isMarked in E3. injection E3 as <- <-. rewrite Hk3 in E.
  destruct (bool_decide (config ∈ configsWithKatexCss w)) eqn:Hmk.
  - unfold ret in E. injection E as <-. done.
  - apply bind_ok in E as (wl & katexCss & E4 & E).
    pose proof (loadKatexCss_frame _ _ _ E4) as Hfr.
    apply bind_ok in E as (w5 & [] & E5 & E).
    assert (Hsl : store wl !! config = Some (withKatexExtension c extensions)).
    { destruct Hfr as (-> & _). done. }
    rewrite (stepConfig_run _ _ _ _ Hsl) in E5. simpl in E5. injection E5 as <-.
    unfold markConfig in E. injection E as <-.
    exists w3, wl, katexCss. split; [|done].
    destruct Hw3 as [->|[_ ->]]; eauto.
Qed.


Lemma existsb_countKatex extensions :
  existsb isKatexExtension extensions = (0 <? countKatex extensions)%nat.
Proof.
  unfold countKatex. induction extensions as [|x l IH]; simpl; [done|].
  destruct (isKatexExtension x); simpl; done.
Qed.

Lemma countKatex_app a b : countKatex (a ++ b) = (countKatex a + countKatex b)%nat.
Proof. unfold countKatex. by rewrite List.filter_app, length_app. Qed.

Lemma withKatexExtension_count c extensions :
  (forall options, isKatexExtension (markedKatex options) = true) ->
  exists extensions',
    field (withKatexExtension c extensions) "marked_extensions"
    = (if existsb isKatexExtension extensions
       then field c "marked_extensions" else VArr extensions')
    /\ (existsb isKatexExtension extensions = false ->
        extensions' = extensions ++ [markedKatex (field c "math_engine_options")])
    /\ (existsb isKatexExtension extensions = true -> extensions' = extensions)
    /\ existsb isKatexExtension extensions' = true
    /\ countKatex extensions' = Nat.max 1 (countKatex extensions).
Proof.
  intros Hlib. unfold withKatexExtension.
  pose proof (existsb_countKatex extensions) as Hc.
  destruct (existsb isKatexExtension extensions) eqn:Hex.
  - exists extensions. repeat split; try done.
    symmetry in Hc. apply Nat.ltb_lt in Hc. lia.
  - exists (extensions ++ [markedKatex (field c "math_engine_options")]).
    rewrite field_insert. repeat split; try done.
    + rewrite existsb_app. simpl. by rewrite Hlib, orb_true_r.
    + rewrite countKatex_app. symmetry in Hc. apply Nat.ltb_ge in Hc.
      unfold countKatex at 2. simpl. rewrite Hlib. simpl. lia.
Qed.



End KatexFacts.

(** ** The default highlighter *)

Section HighlighterFacts.
Variable hl : Highlighter.hljs.
Variable lib : Highlighter.markedLib.

Lemma usePack_ok pack m m' :
  Highlighter.usePack lib pack m = Ok m' ->
  exists combined,
    Highlighter.combine lib (Highlighter.defaults m) pack = Ok combined
    /\ Highlighter.defaults m'
       = (combined ∪ (Highlighter.OptValue <$> ownProps pack)) ∪ Highlighter.defaults m
    /\ Highlighter.used m' = Highlighter.used m ++ [pack].
Proof.
  unfold Highlighter.usePack.
  destruct (Highlighter.combine lib (Highlighter.defaults m) pack) as [combined|e];
    [|discriminate].
  intros [= <-]. by exists combined.
Qed.

Lemma use_used extensions : forall m m',
  Highlighter.use lib extensions m = Ok m' ->
  Highlighter.used m' = Highlighter.used m ++ extensions.
Proof.
  induction extensions as [|pack rest IH]; intros m m' E; simpl in E.
  - injection E as <-. by rewrite app_nil_r.
  - destruct (Highlighter.usePack lib pack m) as [m0|e] eqn:E0; [|discriminate].
    apply usePack_ok in E0 as (combined & _ & _ & Hu).
    rewrite (IH _ _ E), Hu, <- app_assoc. reflexivity.
Qed.

Lemma use_quiet key extensions : forall m m',
  Highlighter.use lib extensions m = Ok m' ->
  Forall (Highlighter.quietOn lib key) extensions ->
  Highlighter.defaults m' !! key = Highlighter.defaults m !! key.
Proof.
  induction extensions as [|pack rest IH]; intros m m' E Hq; simpl in E.
  - by injection E as <-.
  - apply Forall_cons in Hq as [[Hown Hlib] Hq].
    destruct (Highlighter.usePack lib pack m) as [m0|e] eqn:E0; [|discriminate].
    apply usePack_ok in E0 as (combined & Ec & Hd & _).
    rewrite (IH _ _ E Hq), Hd.
    rewrite lookup_union_r; [done|].
    apply lookup_union_None. split; [by eapply Hlib|].
    by rewrite lookup_fmap, Hown.
Qed.

Lemma use_app before after : forall m m',
  Highlighter.use lib (before ++ after) m = Ok m' ->
  exists m0, Highlighter.use lib before m = Ok m0 /\ Highlighter.use lib after m0 = Ok m'.
Proof.
  induction before as [|pack rest IH]; intros m m' E; simpl in *; [eauto|].
  destruct (Highlighter.usePack lib pack m) as [m0|e]; [|discriminate]. by apply IH.
Qed.

Lemma getMarked_ok options extensions m m' :
  Highlighter.getMarked hl lib options extensions m = Ok m' ->
  Highlighter.use lib extensions
    (Highlighter.setOptions (Highlighter.getMarkedOptions hl options) m) = Ok m'.
Proof.
  unfold Highlighter.getMarked. case_decide as Hlen; [done|].
  destruct extensions; [done | simpl in Hlen; lia].
Qed.

End HighlighterFacts.

(** C10. The highlighter that [getMarked] installs highlights a code
    block under the language name it is given when highlight.js knows
    that name, and as [plaintext] otherwise. In the options that
    [getMarked] hands to [marked.setOptions], [highlight] and
    [langPrefix] are these defaults only where the caller's options do
    not set them, and every option the caller supplies is there as
    supplied; these options are in force once line 13 has run, and they
    are the result when no extension is given. An extension pack is
    merged in after them: in the result, they still hold for every key
    about which no pack says anything. *)
Theorem default_highlighter_falls_back_to_plaintext
  (hl : Highlighter.hljs) (lib : Highlighter.markedLib)
  options extensions m code languageName :
  let literal := Highlighter.getMarkedOptions hl options in
  let m1 := Highlighter.setOptions literal m in
  Highlighter.defaultHighlight hl code languageName
  = Highlighter.highlight hl code
      (if Highlighter.getLanguage hl languageName then languageName else "plaintext")
  /\ (options !! "highlight" = None ->
      literal !! "highlight"
      = Some (Highlighter.OptHighlight (Highlighter.defaultHighlight hl)))
  /\ (options !! "langPrefix" = None ->
      literal !! "langPrefix" = Some (Highlighter.OptValue (VStr "hljs ")))
  /\ (forall key o, options !! key = Some o -> literal !! key = Some o)
  /\ (forall key o, literal !! key = Some o -> Highlighter.defaults m1 !! key = Some o)
  /\ Highlighter.getMarked hl lib options [] m = Ok m1
  /\ (forall m' key,
        Highlighter.getMarked hl lib options extensions m = Ok m' ->
        Forall (Highlighter.quietOn lib key) extensions ->
        Highlighter.defaults m' !! key = Highlighter.defaults m1 !! key).
Proof.
  intros literal m1. split; [reflexivity|].
  unfold literal, Highlighter.getMarkedOptions. repeat split.
  - intros Hn. rewrite lookup_union_r by done.
    rewrite lookup_insert_ne by discriminate. apply lookup_insert_eq.
  - intros Hn. rewrite lookup_union_r by done. apply lookup_insert_eq.
  - intros key o Ho. by apply lookup_union_Some_l.
  - intros key o Ho. unfold m1. simpl. by apply lookup_union_Some_l.
  - intros m' key E Hq. apply getMarked_ok in E. by eapply use_quiet.
Qed.

(** ** The conversion *)

Section ConvertFacts.
Context `{Host}.

Lemma ensureKatexSupport_preserves config w w1 c :
  store w !! config = Some c ->
  ensureKatexSupport config w = (w1, Ok tt) ->
  exists c1, store w1 !! config = Some c1
    /\ forall k, k ≠ "marked_extensions" -> k ≠ "css" -> c1 !! k = c !! k.
Proof.
  intros Hl E. destruct (isString "katex" (field c "math_engine")) eqn:He.
  - destruct (ensureKatexSupport_ok _ _ _ _ Hl He E) as (extensions & Hm & Hcase).
    assert (Hother : forall k, k ≠ "marked_extensions" ->
                       withKatexExtension c extensions !! k = c !! k).
    { intros k Hne. unfold withKatexExtension.
      destruct (existsb _ _); [done | by rewrite lookup_insert_ne]. }
    case_bool_decide.
    + exists (withKatexExtension c extensions). split.
      * destruct Hcase as [->|[Hex ->]]; [apply lookup_insert_eq|].
        unfold withKatexExtension. by rewrite Hex.
      * intros k Hk _. by apply Hother.
    + destruct Hcase as (w0 & wl & katexCss & _ & _ & ->).
      eexists. split; [apply lookup_insert_eq|].
      intros k Hk Hc. unfold withKatexCss. rewrite lookup_insert_ne by done.
      by apply Hother.
  - rewrite (ensureKatexSupport_other_engine _ _ _ Hl He) in E. injection E as <-. eauto.
Qed.

Lemma sanitizeMargin_other c c' k :
  sanitizeMargin c = (c', Ok tt) -> k ≠ "pdf_options" -> c' !! k = c !! k.
Proof.
  unfold sanitizeMargin. intros E Hk.
  repeat match type of E with
  | context [match ?x with _ => _ end] => destruct x; try discriminate
  end; injection E as <-; try done; by rewrite lookup_insert_ne.
Qed.

Lemma addHighlightStylesheet_other main c c' k :
  addHighlightStylesheet main c = (c', Ok tt) -> k ≠ "stylesheet" -> c' !! k = c !! k.
Proof.
  unfold addHighlightStylesheet. intros E Hk.
  repeat match type of E with
  | context [match ?x with _ => _ end] => destruct x; try discriminate
  end; injection E as <-; by rewrite lookup_insert_ne.
Qed.

Lemma completeConfig_ok inp config w w' c :
  store w !! config = Some c ->
  completeConfig inp config w = (w', Ok tt) ->
  exists c1 c2 c4 main,
    (forall k, k ≠ "marked_extensions" -> k ≠ "css" -> c1 !! k = c !! k)
    /\ sanitizeMargin c1 = (c2, Ok tt)
    /\ addHighlightStylesheet main (setDest inp c2) = (c4, Ok tt)
    /\ store w' !! config = Some c4.
Proof.
  intros Hl E. unfold completeConfig in E.
  apply bind_ok in E as (w1 & [] & E1 & E).
  destruct (ensureKatexSupport_preserves _ _ _ _ Hl E1) as (c1 & Hs1 & Hk1).
  apply bind_ok in E as (w2 & [] & E2 & E).
  rewrite (stepConfig_run _ _ _ _ Hs1) in E2.
  destruct (sanitizeMargin c1) as [c2 r2] eqn:D2. simpl in E2. injection E2 as <- ->.
  apply bind_ok in E as (w3 & [] & E3 & E).
  match type of E3 with stepConfig _ _ ?w0 = _ =>
    assert (Hs2 : store w0 !! config = Some c2) by (simpl; apply lookup_insert_eq) end.
  rewrite (stepConfig_run _ _ _ _ Hs2) in E3. simpl in E3. injection E3 as <-.
  apply bind_ok in E as (w4 & main & E4 & E). unfold lift in E4. injection E4 as <- E4.
  match type of E with stepConfig _ _ ?w0 = _ =>
    assert (Hs3 : store w0 !! config = Some (setDest inp c2))
      by (simpl; apply lookup_insert_eq) end.
  rewrite (stepConfig_run _ _ _ _ Hs3) in E.
  destruct (addHighlightStylesheet main (setDest inp c2)) as [c4 r4] eqn:D4.
  simpl in E. injection E as <- ->.
  exists c1, c2, c4, main. repeat split; try done. simpl. apply lookup_insert_eq.
Qed.

(** C9. When the conversion reaches the rendering, the destination is
    the merged configuration's [dest] if that is set; otherwise it is
    [getOutputFilePath] of the input path with [html] when [as_html]
    is truthy and with [pdf] when it is not, and [stdout] for content
    given in memory. *)
Theorem output_destination_resolved inp config fm args w w' config' c :
  store w !! config = Some c ->
  finishConfig inp config fm args w = (w', Ok config') ->
  exists wm merged final,
    mergeConfig config fm args w = (wm, Ok config')
    /\ store wm !! config' = Some merged
    /\ store w' !! config' = Some final
    /\ (isUndefined (field merged "dest") = true ->
        final !! "dest"
        = Some (VStr match inp with
                     | InPath path =>
                         getOutputFilePath path
                           (if truthy (field merged "as_html") then "html" else "pdf")
                     | InContent _ => "stdout"
                     end))
    /\ (isUndefined (field merged "dest") = false -> final !! "dest" = merged !! "dest").
Proof.
  intros Hl E. unfold finishConfig in E.
  apply bind_ok in E as (wm & l & Em & E).
  apply bind_ok in E as (w2 & [] & Ec & E). unfold ret in E. injection E as <- <-.
  destruct (mergeConfig_ok _ _ _ _ _ _ _ Hl Em) as (c1 & merged & _ & _ & Hsm).
  destruct (completeConfig_ok _ _ _ _ _ Hsm Ec) as (k1 & k2 & k4 & main & Hk1 & D2 & D4 & Hs4).
  exists wm, merged, k4. repeat split; try done.
  - intros Hu. rewrite (addHighlightStylesheet_other _ _ _ _ D4) by discriminate.
    assert (Hd : field k2 "dest" = field merged "dest").
    { apply field_ext. rewrite (sanitizeMargin_other _ _ _ D2) by discriminate.
      apply Hk1; discriminate. }
    assert (Ha : field k2 "as_html" = field merged "as_html").
    { apply field_ext. rewrite (sanitizeMargin_other _ _ _ D2) by discriminate.
      apply Hk1; discriminate. }
    unfold setDest, outputDestination. rewrite Hd, Hu, Ha. by rewrite lookup_insert_eq.
  - intros Hu. rewrite (addHighlightStylesheet_other _ _ _ _ D4) by discriminate.
    assert (Hd : k2 !! "dest" = merged !! "dest").
    { rewrite (sanitizeMargin_other _ _ _ D2) by discriminate. apply Hk1; discriminate. }
    unfold setDest. rewrite (field_ext _ _ _ Hd), Hu. done.
Qed.

Lemma mergeFrontMatter_empty (c pdf : gmap string value) :
  c !! "pdf_options" = Some (VObj pdf) -> mergeFrontMatter c (VObj ∅) = Ok c.
Proof.
  intros Hp. unfold mergeFrontMatter. cbn [getProp ownProps].
  assert (Hf : field c "pdf_options" = VObj pdf) by (unfold field; by rewrite Hp).
  rewrite Hf. unfold field. rewrite lookup_empty. cbn [default ownProps].
  rewrite !(left_id_L ∅ (∪)). f_equal. by apply insert_id.
Qed.

Lemma sameAnswer_bind {A B} l1 l2 (c1 c2 : M A) (k1 k2 : A -> M B) :
  sameAnswer l1 l2 c1 c2 ->
  (forall a, sameAnswer l1 l2 (k1 a) (k2 a)) ->
  sameAnswer l1 l2 (bind c1 k1) (bind c2 k2).
Proof.
  intros Hc Hk w1 w2 Hw. unfold bind. destruct (Hc w1 w2 Hw) as [Hr Hw'].
  destruct (c1 w1) as [w1' [a1|e1]], (c2 w2) as [w2' [a2|e2]]; simpl in *;
    try discriminate Hr.
  - injection Hr as ->. by apply Hk.
  - injection Hr as ->. done.
Qed.

Lemma sameAnswer_pure {A} l1 l2 (o : outcome A) : sameAnswer l1 l2 (lift o) (lift o).
Proof. by intros w1 w2 Hw. Qed.

Lemma sameAnswer_ret {A} l1 l2 (a : A) : sameAnswer l1 l2 (ret a) (ret a).
Proof. by intros w1 w2 Hw. Qed.

Lemma sameAnswer_throw {A} l1 l2 e : sameAnswer l1 l2 (@throw A e) (throw e).
Proof. by intros w1 w2 Hw. Qed.

Lemma sameAnswer_getConfig l1 l2 : sameAnswer l1 l2 (getConfig l1) (getConfig l2).
Proof.
  intros w1 w2 Hw. unfold getConfig. pose proof Hw as (Hs & _). rewrite Hs.
  destruct (store w2 !! l2); simpl; by split.
Qed.

Lemma sameAnswer_stepConfig {A} l1 l2
  (f : gmap string value -> gmap string value * outcome A) :
  sameAnswer l1 l2 (stepConfig l1 f) (stepConfig l2 f).
Proof.
  intros w1 w2 Hw. pose proof Hw as (Hs & Hm & Hc & Hf). unfold stepConfig. rewrite Hs.
  destruct (store w2 !! l2) as [c|]; simpl; [|by split].
  destruct (f c) as [c' r]. simpl. split; [done|]. unfold alike. simpl.
  by rewrite !lookup_insert_eq.
Qed.

Lemma sameAnswer_isMarked l1 l2 : sameAnswer l1 l2 (isMarked l1) (isMarked l2).
Proof.
  intros w1 w2 Hw. unfold isMarked. simpl. split; [|done].
  destruct Hw as (_ & Hm & _). f_equal. by apply bool_decide_ext.
Qed.

Lemma sameAnswer_markConfig l1 l2 : sameAnswer l1 l2 (markConfig l1) (markConfig l2).
Proof.
  intros w1 w2 (Hs & Hm & Hc & Hf). unfold markConfig, alike. simpl.
  repeat split; try done; intros _; apply elem_of_union_l; by apply elem_of_singleton.
Qed.

Lemma sameAnswer_readFile l1 l2 p : sameAnswer l1 l2 (fs_readFile p) (fs_readFile p).
Proof.
  intros w1 w2 (Hs & Hm & Hc & Hf). unfold fs_readFile, alike. rewrite Hf.
  destruct (files w2 !! p); simpl; repeat split; try done; apply Hm.
Qed.

Lemma sameAnswer_inlineFonts l1 l2 katexCssPath paths : forall css,
  sameAnswer l1 l2 (inlineFonts katexCssPath paths css) (inlineFonts katexCssPath paths css).
Proof.
  induction paths as [|p paths IH]; intros css; simpl.
  - apply sameAnswer_ret.
  - apply sameAnswer_bind; [apply sameAnswer_readFile|]. intros data.
    apply sameAnswer_bind; [apply sameAnswer_pure|]. intros css'. apply IH.
Qed.

Lemma sameAnswer_loadKatexCss l1 l2 : sameAnswer l1 l2 loadKatexCss loadKatexCss.
Proof.
  assert (Hc : sameAnswer l1 l2 computeKatexCss computeKatexCss).
  { unfold computeKatexCss.
    apply sameAnswer_bind; [apply sameAnswer_pure|]. intros p.
    apply sameAnswer_bind; [apply sameAnswer_readFile|]. intros css.
    apply sameAnswer_bind; [apply sameAnswer_inlineFonts|]. intros css'.
    apply sameAnswer_bind; [|intros []; apply sameAnswer_ret].
    intros w1 w2 (Hs & Hm & Hcache & Hf). unfold alike. simpl.
    repeat split; try done; apply Hm. }
  intros w1 w2 Hw. unfold loadKatexCss.
  pose proof Hw as (_ & _ & Hcache & _). rewrite Hcache.
  destruct (cachedKatexCss w2) as [cached|]; [|by apply Hc].
  destruct (truthy (VStr cached)); [by split | by apply Hc].
Qed.

Lemma sameAnswer_ensureKatexSupport l1 l2 :
  sameAnswer l1 l2 (ensureKatexSupport l1) (ensureKatexSupport l2).
Proof.
  unfold ensureKatexSupport.
  apply sameAnswer_bind; [apply sameAnswer_getConfig|]. intros c.
  destruct (negb _); [apply sameAnswer_ret|].
  apply sameAnswer_bind; [apply sameAnswer_pure|]. intros has.
  apply sameAnswer_bind.
  { destruct has; [apply sameAnswer_ret | apply sameAnswer_stepConfig]. }
  intros _. apply sameAnswer_bind; [apply sameAnswer_isMarked|]. intros marked.
  destruct marked; [apply sameAnswer_ret|].
  apply sameAnswer_bind; [apply sameAnswer_loadKatexCss|]. intros katexCss.
  apply sameAnswer_bind; [apply sameAnswer_stepConfig|]. intros _.
  apply sameAnswer_markConfig.
Qed.

Lemma sameAnswer_mergeOverrides l1 l2 args :
  sameAnswer l1 l2 (mergeOverrides l1 args) (mergeOverrides l2 args).
Proof.
  unfold mergeOverrides.
  apply sameAnswer_bind; [apply sameAnswer_stepConfig|]. intros _.
  apply sameAnswer_bind; [apply sameAnswer_stepConfig|]. intros _.
  apply sameAnswer_stepConfig.
Qed.

Lemma sameAnswer_completeConfig l1 l2 inp :
  sameAnswer l1 l2 (completeConfig inp l1) (completeConfig inp l2).
Proof.
  unfold completeConfig.
  apply sameAnswer_bind; [apply sameAnswer_ensureKatexSupport|]. intros _.
  apply sameAnswer_bind; [apply sameAnswer_stepConfig|]. intros _.
  apply sameAnswer_bind; [apply sameAnswer_stepConfig|]. intros _.
  apply sameAnswer_bind; [apply sameAnswer_pure|]. intros main.
  apply sameAnswer_stepConfig.
Qed.

Lemma sameAnswer_writeOutput l1 l2 out :
  sameAnswer l1 l2 (writeOutput out) (writeOutput out).
Proof.
  unfold writeOutput. destruct (filename out) as [[|c name]|]; try apply sameAnswer_ret.
  destruct (String.eqb _ _).
  - intros w1 w2 (Hs & Hm & Hc & Hf). unfold alike. simpl.
    repeat split; try done; apply Hm.
  - intros w1 w2 (Hs & Hm & Hc & Hf). unfold alike.
    destruct (writable _); simpl; repeat split; try done; try apply Hm.
    by rewrite Hf.
Qed.

Lemma sameAnswer_render l1 l2 inp md :
  sameAnswer l1 l2 (render inp md l1) (render inp md l2).
Proof.
  unfold render.
  apply sameAnswer_bind; [apply sameAnswer_getConfig|]. intros c.
  apply sameAnswer_bind; [apply sameAnswer_pure|]. intros html.
  apply sameAnswer_bind.
  { destruct inp; [|apply sameAnswer_ret].
    destruct (field c "basedir"); try apply sameAnswer_throw. apply sameAnswer_ret. }
  intros relativePath.
  apply sameAnswer_bind; [apply sameAnswer_pure|]. intros [out|].
  - apply sameAnswer_bind; [apply sameAnswer_writeOutput|]. intros _. apply sameAnswer_ret.
  - destruct (truthy _); apply sameAnswer_throw.
Qed.

(** With a configuration object that is not marked yet, a front matter
    that did not parse and an empty front matter give the same outcome. *)
Lemma front_matter_error_same_outcome inp md e config args w c pdf :
  store w !! config = Some c ->
  c !! "pdf_options" = Some (VObj pdf) ->
  config ∉ configsWithKatexCss w ->
  configsWithKatexCss w ⊆ dom (store w) ->
  snd (convertParsed inp md (FMError e) config args w)
  = snd (convertParsed inp md noFrontMatter config args w).
Proof.
  intros Hl Hp Hnm Hwf.
  unfold convertParsed, finishConfig, mergeConfig. cbn [mergeFrontMatterStep].
  set (rest := fun l : loc =>
         do! mergeOverrides l args in
         do! completeConfig inp l in
         render inp md l).
  set (w1 := withWarning (frontMatterWarning e) w).
  set (l2 := fresh (dom (store w))).
  set (w2 := withStore <[l2 := c]> w).
  assert (Hrest : sameAnswer config l2 (rest config) (rest l2)).
  { unfold rest.
    apply sameAnswer_bind; [apply sameAnswer_mergeOverrides|]. intros _.
    apply sameAnswer_bind; [apply sameAnswer_completeConfig|]. intros _.
    apply sameAnswer_render. }
  assert (Hw : alike config l2 w1 w2).
  { unfold alike, w1, w2. simpl. rewrite lookup_insert_eq, Hl.
    repeat split; try done.
    intros Hin. exfalso. apply Hwf in Hin. by apply is_fresh in Hin. }
  destruct (Hrest w1 w2 Hw) as [Hr _].
  transitivity (snd (rest config w1)); [|transitivity (snd (rest l2 w2)); [exact Hr|]].
  - unfold rest, bind, warn, ret. fold w1.
    destruct (mergeOverrides config args w1) as [wa [[]|ea]]; [|done].
    destruct (completeConfig inp config wa) as [wb [[]|eb]]; done.
  - unfold noFrontMatter. cbn [mergeFrontMatterStep].
    unfold rest, bind, getConfig, lift, allocConfig, ret.
    rewrite Hl, (mergeFrontMatter_empty _ _ Hp). fold l2. fold w2.
    destruct (mergeOverrides l2 args w2) as [wa [[]|ea]]; [|done].
    destruct (completeConfig inp l2 wa) as [wb [[]|eb]]; done.
Qed.

(** C2. When [gray-matter] reports a parse error, the front-matter step
    does not throw: it records one warning and keeps the caller's
    configuration object, whose contents equal what merging an empty
    front matter gives, and the conversion goes on from there with the
    remaining steps. For a configuration object that is not marked yet,
    the conversion then ends as it does with an empty front matter: with
    the same output or the same error. *)
Theorem front_matter_error_is_empty_front_matter inp md e config args w c pdf :
  store w !! config = Some c ->
  c !! "pdf_options" = Some (VObj pdf) ->
  let warned := withWarning (frontMatterWarning e) w in
  mergeFrontMatterStep config (FMError e) w = (warned, Ok config)
  /\ store warned !! config = Some c
  /\ mergedLayers c (FMError e) = mergedLayers c noFrontMatter
  /\ convertParsed inp md (FMError e) config args w
     = (do! mergeOverrides config args in
        do! completeConfig inp config in
        render inp md config) warned
  /\ (config ∉ configsWithKatexCss w ->
      configsWithKatexCss w ⊆ dom (store w) ->
      snd (convertParsed inp md (FMError e) config args w)
      = snd (convertParsed inp md noFrontMatter config args w)).
Proof.
  intros Hl Hp warned. split; [reflexivity|]. split; [done|]. split; [|split].
  - unfold noFrontMatter, mergedLayers. by rewrite (mergeFrontMatter_empty _ _ Hp).
  - unfold convertParsed, finishConfig, mergeConfig. simpl. unfold bind, warn, ret.
    fold warned. destruct (mergeOverrides config args warned) as [w1 [[]|e1]]; [|done].
    destruct (completeConfig inp config w1) as [w2 [[]|e2]]; done.
  - intros Hnm Hwf. by eapply front_matter_error_same_outcome.
Qed.

End ConvertFacts.

(** ** Math support and the conversion on examples *)



Lemma katex_css_computed_once_witness :
  let first := loadKatexCss (H := demoHost) mathWorld in
  let css := match snd first with Ok css => css | Throw _ => EmptyString end in
  snd first = Ok css
  /\ css ≠ EmptyString
  /\ loadKatexCss (H := demoHost) (fst first) = (fst first, Ok css)
  /\ reads (fst first) = ["/node_modules/katex/dist/fonts/b.woff";
                          "/node_modules/katex/dist/fonts/a.woff2";
                          katexCssPath].
Proof.
  split; [by vm_compute|]. split; [by vm_compute|]. split; [|by vm_compute].
  destruct (katex_css_computed_once (H := demoHost) mathWorld
              (fst (loadKatexCss (H := demoHost) mathWorld))
              match snd (loadKatexCss (H := demoHost) mathWorld) with
              | Ok css => css
              | Throw _ => EmptyString
              end)
    as (_ & Hsecond & _).
  - by vm_compute.
  - by vm_compute.
  - exact Hsecond.
Defined.

(** C6. The stylesheet is not computed at most once when it is empty.
    With an empty stylesheet file, the first call of [loadKatexCss]
    returns the empty string and stores it in the cache (line 97), and
    the second call, finding a cached string that is not truthy
    (line 66), does not return it from the cache: it reads the
    stylesheet file again. *)
Lemma katex_css_read_again_when_empty :
  let first := loadKatexCss (H := demoHost) emptyCssWorld in
  let second := loadKatexCss (H := demoHost) (fst first) in
  snd first = Ok EmptyString
  /\ cachedKatexCss (fst first) = Some EmptyString
  /\ reads (fst first) = [katexCssPath]
  /\ snd second = Ok EmptyString
  /\ reads (fst second) = [katexCssPath; katexCssPath].
Proof. repeat split; vm_compute; reflexivity. Qed.

Lemma output_destination_resolved_witness :
  let run := finishConfig (H := demoHost) (InPath "/docs/readme.md") callerConfig
               noFrontMatter [] mathWorld in
  snd run = Ok mergedConfig
  /\ exists final, store (fst run) !! mergedConfig = Some final
       /\ final !! "dest" = Some (VStr "/docs/readme.pdf").
Proof.
  split; [by vm_compute|].
  destruct (output_destination_resolved (H := demoHost) (InPath "/docs/readme.md")
              callerConfig noFrontMatter [] mathWorld
              (fst (finishConfig (H := demoHost) (InPath "/docs/readme.md") callerConfig
                      noFrontMatter [] mathWorld))
              mergedConfig mathConfig)
    as (wm & merged & final & Em & Hsm & Hs & Hunset & _).
  - by vm_compute.
  - by vm_compute.
  - exists final. split; [exact Hs|].
    assert (Ew : wm = fst (mergeConfig (H := demoHost) callerConfig noFrontMatter [] mathWorld))
      by (by rewrite Em).
    rewrite Ew in Hsm. vm_compute in Hsm. injection Hsm as <-.
    rewrite Hunset; by vm_compute.
Defined.

Lemma front_matter_error_witness :
  let warned := withWarning (frontMatterWarning "YAMLException") mathWorld in
  mathConfig !! "pdf_options" = Some (VObj ∅)
  /\ (callerConfig ∉ configsWithKatexCss mathWorld)
  /\ mergeFrontMatterStep callerConfig (FMError "YAMLException") mathWorld
     = (warned, Ok callerConfig)
  /\ mergedLayers mathConfig (FMError "YAMLException") = mergedLayers mathConfig noFrontMatter
  /\ snd (convertParsed (H := demoHost) (InContent "# hi") "# hi" (FMError "YAMLException")
            callerConfig [] mathWorld)
     = Ok {| filename := Some "stdout"; content := "# hi" |}
  /\ snd (convertParsed (H := demoHost) (InContent "# hi") "# hi" noFrontMatter
            callerConfig [] mathWorld)
     = Ok {| filename := Some "stdout"; content := "# hi" |}.
Proof.
  assert (Hfresh : callerConfig ∉ configsWithKatexCss mathWorld)
    by apply not_elem_of_empty.
  split; [by vm_compute|]. split; [exact Hfresh|].
  destruct (front_matter_error_is_empty_front_matter (H := demoHost) (InContent "# hi") "# hi"
              "YAMLException" callerConfig [] mathWorld mathConfig ∅)
    as (Hstep & _ & Hsame & Hrun & Hend).
  - by vm_compute.
  - by vm_compute.
  - split; [exact Hstep|]. split; [exact Hsame|].
    assert (Hout : snd (convertParsed (H := demoHost) (InContent "# hi") "# hi"
                          (FMError "YAMLException") callerConfig [] mathWorld)
                   = Ok {| filename := Some "stdout"; content := "# hi" |})
      by (rewrite Hrun; by vm_compute).
    split; [exact Hout|].
    rewrite <- Hend; [exact Hout | exact Hfresh | apply empty_subseteq].
Defined.

(** ** Inlining the fonts *)

Lemma stripPrefix_Some p : forall s r, stripPrefix p s = Some r <-> s = p ++ r.
Proof.
  induction p as [|c p IH]; intros s r; simpl.
  - split; [by intros [= ->] | by intros ->].
  - destruct s as [|d s]; [split; [done | discriminate]|].
    destruct (Ascii.eqb c d) eqn:E.
    + apply Ascii.eqb_eq in E as <-. rewrite IH. split; [by intros -> | by intros [= ->]].
    + apply Ascii.eqb_neq in E. split; [done | by intros [= ? _]].
Qed.

Lemma stripPrefix_app p r : stripPrefix p (p ++ r) = Some r.
Proof. by apply stripPrefix_Some. Qed.

Lemma spanPath_spec s : forall p rest,
  spanPath s = (p, rest) ->
  s = p ++ rest /\ forallb isPathChar p = true
  /\ match rest with c :: _ => isPathChar c = false | [] => True end.
Proof.
  induction s as [|c s IH]; intros p rest E; simpl in E.
  - by injection E as <- <-.
  - destruct (isPathChar c) eqn:Ec.
    + destruct (spanPath s) as [p' rest'] eqn:Es. injection E as <- <-.
      destruct (IH _ _ eq_refl) as (-> & Hp & Hr). simpl. by rewrite Ec.
    + injection E as <- <-. by rewrite Ec.
Qed.

Lemma spanPath_app p rest :
  forallb isPathChar p = true ->
  match rest with c :: _ => isPathChar c = false | [] => True end ->
  spanPath (p ++ rest) = (p, rest).
Proof.
  intros Hp Hr. induction p as [|c p IH]; simpl in *.
  - destruct rest as [|c rest]; [done|]. simpl. by rewrite Hr.
  - apply andb_true_iff in Hp as [-> Hp]. by rewrite IH.
Qed.

Lemma matchFontsPath_sound s p rest :
  matchFontsPath s = Some (p, rest) ->
  s = p ++ rest /\ validPath p
  /\ match rest with c :: _ => isPathChar c = false | [] => True end.
Proof.
  unfold matchFontsPath. intros E.
  destruct (stripPrefix (chars "fonts/") s) as [s1|] eqn:E1; [|discriminate].
  apply stripPrefix_Some in E1 as ->.
  destruct (spanPath s1) as [tail rest'] eqn:E2.
  destruct (spanPath_spec _ _ _ E2) as (-> & Ht & Hr).
  destruct tail as [|c tail]; [discriminate|]. injection E as <- <-.
  split; [reflexivity|]. split; [|done]. by exists (c :: tail).
Qed.

Lemma matchFontsPath_complete p rest :
  validPath p ->
  match rest with c :: _ => isPathChar c = false | [] => True end ->
  matchFontsPath (p ++ rest) = Some (p, rest).
Proof.
  intros (tail & -> & Hne & Ht) Hr. unfold matchFontsPath.
  rewrite <- app_assoc, stripPrefix_app, (spanPath_app _ _ Ht Hr).
  by destruct tail.
Qed.

Lemma matchFontUrl_sound s m rest :
  matchFontUrl s = Some (m, rest) -> s = referenceText m ++ rest /\ validMatch m.
Proof.
  unfold matchFontUrl. intros E.
  destruct (stripPrefix (chars "url(") s) as [s1|] eqn:E1; [|discriminate].
  apply stripPrefix_Some in E1 as ->.
  destruct s1 as [|q s2]; [discriminate|].
  destruct (isQuote q) eqn:Eq.
  - destruct (matchFontsPath s2) as [[p [|q' [|c rest']]]|] eqn:E2; try discriminate.
    destruct (Ascii.eqb q' q) eqn:Eq'; [|discriminate].
    destruct (Ascii.eqb c ")") eqn:Ec; [|discriminate].
    apply Ascii.eqb_eq in Eq' as ->. apply Ascii.eqb_eq in Ec as ->.
    injection E as <- <-.
    destruct (matchFontsPath_sound _ _ _ E2) as (-> & Hp & _).
    split; [|by split]. unfold referenceText. simpl. by rewrite <- !app_assoc.
  - destruct (matchFontsPath (q :: s2)) as [[p [|c rest']]|] eqn:E2; try discriminate.
    destruct (Ascii.eqb c ")") eqn:Ec; [|discriminate].
    apply Ascii.eqb_eq in Ec as ->. injection E as <- <-.
    destruct (matchFontsPath_sound _ _ _ E2) as (Hs & Hp & _).
    split; [|by split]. unfold referenceText. simpl. rewrite Hs.
    by rewrite <- !app_assoc.
Qed.

Lemma validPath_head p : validPath p -> exists p', p = "f"%char :: p'.
Proof. intros (tail & -> & _). simpl. eauto. Qed.

Lemma isQuote_not_pathChar q : isQuote q = true -> isPathChar q = false.
Proof. unfold isPathChar. by intros ->. Qed.

Lemma matchFontUrl_complete m rest :
  validMatch m -> matchFontUrl (referenceText m ++ rest) = Some (m, rest).
Proof.
  destruct m as [q p]. intros [Hq Hp]. simpl in Hq, Hp.
  unfold matchFontUrl, referenceText. cbn [quote fontPath].
  replace ((chars "url(" ++ quoteText q ++ p ++ quoteText q ++ chars ")") ++ rest)
    with (chars "url(" ++ quoteText q ++ p ++ quoteText q ++ chars ")" ++ rest)
    by (by rewrite <- !app_assoc).
  rewrite stripPrefix_app.
  destruct q as [q|]; cbn [quoteText app].
  - rewrite Hq.
    rewrite matchFontsPath_complete; [|done|by apply isQuote_not_pathChar].
    cbn [chars list_ascii_of_string app]. by rewrite !Ascii.eqb_refl.
  - destruct (validPath_head _ Hp) as [p' Ep].
    assert (Hf : isQuote "f" = false) by reflexivity.
    rewrite Ep at 1. cbn [app]. rewrite Hf.
    rewrite matchFontsPath_complete; [|done|reflexivity].
    reflexivity.
Qed.

Lemma rendered_cons done uri seg segs :
  rendered done uri (seg :: segs)
  = match seg with
    | Plain c => [c]
    | Reference m => if done m then uri (fontPath m) else referenceText m
    end ++ rendered done uri segs.
Proof. reflexivity. Qed.

Lemma written_segmentsFuel fuel : forall s, written (segmentsFuel fuel s) = s.
Proof.
  induction fuel as [|n IH]; intros s; simpl.
  - induction s as [|c s IHs]; [done|]. unfold written in *. simpl. by rewrite IHs.
  - destruct s as [|c s']; [done|].
    destruct (matchFontUrl (c :: s')) as [[m rest]|] eqn:E.
    + apply matchFontUrl_sound in E as [-> _].
      unfold written. rewrite rendered_cons. fold (written (segmentsFuel n rest)).
      by rewrite IH.
    + unfold written. rewrite rendered_cons. fold (written (segmentsFuel n s')).
      by rewrite IH.
Qed.

Lemma referenceText_length m : 5 <= List.length (referenceText m).
Proof.
  unfold referenceText. rewrite !length_app. simpl. lia.
Qed.

Lemma scanned_segmentsFuel fuel : forall s,
  List.length s <= fuel -> scanned (segmentsFuel fuel s).
Proof.
  induction fuel as [|n IH]; intros s Hlen; simpl.
  - destruct s; [done | simpl in Hlen; lia].
  - destruct s as [|c s']; [done|].
    destruct (matchFontUrl (c :: s')) as [[m rest]|] eqn:E.
    + destruct (matchFontUrl_sound _ _ _ E) as [Es Hv]. simpl. split; [done|].
      apply IH. apply (f_equal (@List.length _)) in Es. rewrite length_app in Es.
      pose proof (referenceText_length m). simpl in *. lia.
    + simpl. rewrite written_segmentsFuel. split; [done|].
      apply IH. simpl in Hlen. lia.
Qed.

Lemma references_segmentsFuel fuel : forall s,
  references (segmentsFuel fuel s) = matchAllFuel fuel s.
Proof.
  induction fuel as [|n IH]; intros s; simpl.
  - induction s as [|c s IHs]; [done|]. by simpl.
  - destruct s as [|c s']; [done|].
    destruct (matchFontUrl (c :: s')) as [[m rest]|]; simpl; by rewrite IH.
Qed.

Lemma expandReplacement_plain replacement matched before after :
  plainText replacement ->
  expandReplacement replacement matched before after = replacement.
Proof.
  induction 1 as [|c rest Hc Hrest IH]; simpl; [done|].
  apply Ascii.eqb_neq in Hc as ->. by rewrite IH.
Qed.

Lemma replaceAllFuel_skip literal replacement x : forall fuel before rest,
  passes literal x rest ->
  List.length (x ++ rest) <= fuel ->
  replaceAllFuel fuel literal replacement before (x ++ rest)
  = x ++ replaceAllFuel (fuel - List.length x) literal replacement
           (before ++ x) rest.
Proof.
  induction x as [|c x IH]; intros fuel before rest Hp Hlen; simpl in *.
  - by rewrite Nat.sub_0_r, app_nil_r.
  - destruct fuel as [|n]; [lia|]. destruct Hp as [Hc Hp].
    cbn [replaceAllFuel]. rewrite Hc.
    rewrite IH by (done || lia). simpl. by rewrite <- app_assoc.
Qed.

Lemma replaceAllFuel_hit literal replacement fuel before rest :
  literal ≠ [] ->
  plainText replacement ->
  replaceAllFuel (S fuel) literal replacement before (literal ++ rest)
  = replacement ++ replaceAllFuel fuel literal replacement (before ++ literal) rest.
Proof.
  intros Hne Hplain. cbn [replaceAllFuel].
  destruct (literal ++ rest) as [|c s'] eqn:E.
  { destruct literal; [done | discriminate]. }
  rewrite <- E, stripPrefix_app. by rewrite expandReplacement_plain.
Qed.

(** Case analysis on the character comparisons of the goal. *)
Ltac char_cases :=
  repeat match goal with
  | |- None = None => reflexivity
  | |- context [Ascii.eqb ?x ?y] =>
      let E := fresh "E" in
      destruct (Ascii.eqb x y) eqn:E;
      [apply Ascii.eqb_eq in E; try discriminate E | clear E]
  end.

Lemma no_url_start body tail rest :
  parenFree body ->
  stripPrefix (chars "url(" ++ tail) (body ++ ")"%char :: rest) = None.
Proof.
  intros Hb.
  destruct body as [|a [|b [|c [|d body]]]]; cbn -[Ascii.eqb]; char_cases.
  exfalso. apply Forall_cons in Hb as [_ Hb]. apply Forall_cons in Hb as [_ Hb].
  apply Forall_cons in Hb as [_ Hb]. apply Forall_cons in Hb as [Hd _].
  by subst d.
Qed.

Lemma passes_body literal_tail body rest :
  parenFree body ->
  passes (chars "url(" ++ literal_tail) (body ++ chars ")") rest.
Proof.
  induction 1 as [|c body Hc Hbody IH].
  - split; [reflexivity|done].
  - split; [|exact IH].
    rewrite <- app_assoc.
    apply (no_url_start (c :: body) literal_tail rest). by constructor.
Qed.

Lemma passes_inside literal_tail body rest :
  parenFree body ->
  passes (chars "url(" ++ literal_tail) (chars "rl(" ++ body ++ chars ")") rest.
Proof.
  intros Hb. repeat (split; [reflexivity|]). by apply passes_body.
Qed.

Lemma noUrlStart_body body : parenFree body -> noUrlStart (body ++ chars ")").
Proof.
  induction 1 as [|c body Hc Hbody IH].
  - simpl. split; [|done]. intros rest. reflexivity.
  - split; [|exact IH]. intros rest. rewrite <- app_assoc.
    apply (no_url_start (c :: body) [] rest). by constructor.
Qed.

Lemma noUrlStart_inside body :
  parenFree body -> noUrlStart (chars "rl(" ++ body ++ chars ")").
Proof.
  intros Hb. repeat (split; [intros rest; reflexivity|]). by apply noUrlStart_body.
Qed.

(** Two bodies that end at the first closing parenthesis. *)
Lemma body_prefix_eq a : forall b rest rest',
  Forall (fun c => c ≠ ")"%char) a ->
  Forall (fun c => c ≠ ")"%char) b ->
  a ++ ")"%char :: rest = b ++ ")"%char :: rest' ->
  a = b.
Proof.
  induction a as [|x a IH]; intros b rest rest' Ha Hb E.
  - destruct b as [|y b]; [done|]. simpl in E. injection E as <- _.
    apply Forall_cons in Hb as [Hy _]. done.
  - destruct b as [|y b]; simpl in E.
    + injection E as -> _. apply Forall_cons in Ha as [Hx _]. done.
    + injection E as -> E. apply Forall_cons in Ha as [_ Ha].
      apply Forall_cons in Hb as [_ Hb]. f_equal. by eapply IH.
Qed.

Lemma referenceText_body m :
  referenceText m = chars "url(" ++ referenceBody m ++ chars ")".
Proof. unfold referenceText, referenceBody. by rewrite <- !app_assoc. Qed.

Lemma isQuote_cases c : isQuote c = true -> c = "'"%char \/ c = dquote.
Proof.
  unfold isQuote. intros E. apply orb_true_iff in E as [E|E];
    apply Ascii.eqb_eq in E; auto.
Qed.

Lemma isPathChar_not_close c : isPathChar c = true -> c ≠ ")"%char.
Proof.
  unfold isPathChar. intros E ->. apply andb_true_iff in E as [_ E]. done.
Qed.

Lemma isPathChar_not_quote c : isPathChar c = true -> isQuote c = false.
Proof.
  unfold isPathChar. intros E. apply andb_true_iff in E as [E _].
  by destruct (isQuote c).
Qed.

Lemma forallb_Forall' {A} (f : A -> bool) (P : A -> Prop) l :
  (forall x, f x = true -> P x) -> forallb f l = true -> Forall P l.
Proof.
  intros Hf. induction l as [|x l IH]; simpl; [constructor|].
  intros E. apply andb_true_iff in E as [Ex El]. constructor; auto.
Qed.

Lemma validPath_no_close p : validPath p -> Forall (fun c => c ≠ ")"%char) p.
Proof.
  intros (tail & -> & _ & Ht). apply Forall_app. split.
  - repeat constructor; discriminate.
  - by apply (forallb_Forall' _ _ _ isPathChar_not_close).
Qed.

Lemma validQuote_no_close q : validQuote q -> Forall (fun c => c ≠ ")"%char) (quoteText q).
Proof.
  destruct q as [c|]; simpl; [|constructor].
  intros Hc. constructor; [|constructor].
  destruct (isQuote_cases _ Hc) as [-> | ->]; discriminate.
Qed.

Lemma validQuote_parenFree q : validQuote q -> parenFree (quoteText q).
Proof.
  destruct q as [c|]; simpl; [|constructor].
  intros Hc. constructor; [|constructor].
  destruct (isQuote_cases _ Hc) as [-> | ->]; discriminate.
Qed.

Lemma referenceBody_no_close m :
  validMatch m -> Forall (fun c => c ≠ ")"%char) (referenceBody m).
Proof.
  intros [Hq Hp]. unfold referenceBody. rewrite !Forall_app.
  auto using validPath_no_close, validQuote_no_close.
Qed.

Lemma referenceBody_parenFree m :
  validMatch m -> parenFree (fontPath m) -> parenFree (referenceBody m).
Proof.
  intros [Hq Hp] Hf. unfold referenceBody, parenFree. rewrite !Forall_app.
  pose proof (validQuote_parenFree _ Hq). done.
Qed.

Lemma referenceBody_inj m t :
  validMatch m -> validMatch t -> referenceBody m = referenceBody t -> m = t.
Proof.
  destruct m as [q p], t as [q' p']. unfold referenceBody. simpl.
  intros [Hq Hp] [Hq' Hp'] E. simpl in *.
  destruct (validPath_head _ Hp) as [x Ex]. destruct (validPath_head _ Hp') as [x' Ex'].
  destruct q as [c|], q' as [c'|]; simpl in E.
  - injection E as -> E. apply app_inv_tail in E. by subst.
  - exfalso. rewrite Ex' in E. injection E as -> _. discriminate Hq.
  - exfalso. rewrite Ex in E. injection E as <- _. discriminate Hq'.
  - rewrite !app_nil_r in E. by subst.
Qed.

(** At the start of a reference, only that reference's own text matches. *)
Lemma reference_start t m rest after :
  validMatch t -> validMatch m ->
  stripPrefix (referenceText t) (referenceText m ++ rest) = Some after ->
  m = t.
Proof.
  intros Ht Hm E. apply stripPrefix_Some in E.
  rewrite !referenceText_body in E. rewrite <- !app_assoc in E.
  apply app_inv_head in E. simpl in E.
  apply (referenceBody_inj _ _ Hm Ht).
  eapply body_prefix_eq; [| |exact E]; by apply referenceBody_no_close.
Qed.

(** At the start of a data URI, no reference text matches. *)
Lemma uri_start t u rest :
  validMatch t -> uriShape u -> stripPrefix (referenceText t) (u ++ rest) = None.
Proof.
  destruct t as [q p]. intros [Hq Hp] (body & -> & _). simpl in Hq, Hp.
  destruct (validPath_head _ Hp) as [p' ->].
  unfold referenceText. cbn [quote fontPath].
  destruct q as [c|]; cbn -[Ascii.eqb].
  - destruct (isQuote_cases _ Hq) as [-> | ->]; cbn -[Ascii.eqb]; char_cases.
  - char_cases.
Qed.

(** Inside a reference or a data URI, no reference text starts. *)
Lemma passes_reference t m rest :
  validMatch m -> parenFree (fontPath m) -> m ≠ t -> validMatch t ->
  passes (referenceText t) (referenceText m) rest.
Proof.
  intros Hm Hf Hne Ht.
  rewrite (referenceText_body m).
  change (chars "url(" ++ referenceBody m ++ chars ")")
    with ("u"%char :: chars "rl(" ++ referenceBody m ++ chars ")").
  split.
  - destruct (stripPrefix _ _) as [after|] eqn:E; [|done].
    change ("u"%char :: (chars "rl(" ++ referenceBody m ++ chars ")") ++ rest)
      with ((chars "url(" ++ referenceBody m ++ chars ")") ++ rest) in E.
    rewrite <- referenceText_body in E.
    by apply reference_start in E.
  - rewrite (referenceText_body t). apply passes_inside.
    by apply referenceBody_parenFree.
Qed.

Lemma passes_uri t u rest :
  validMatch t -> uriShape u -> passes (referenceText t) u rest.
Proof.
  intros Ht Hu. pose proof (uri_start t u rest Ht Hu) as H0.
  destruct Hu as (body & -> & Hb & _).
  change (chars "url(" ++ dquote :: "d"%char :: body ++ chars ")")
    with ("u"%char :: chars "rl(" ++ (dquote :: "d"%char :: body) ++ chars ")") in *.
  split; [exact H0|].
  rewrite (referenceText_body t). apply passes_inside.
  repeat constructor; try discriminate. exact Hb.
Qed.

Lemma fontMatch_eqb_eq a b : fontMatch_eqb a b = true <-> a = b.
Proof.
  unfold fontMatch_eqb, ascii_list_eqb. rewrite andb_true_iff, !bool_decide_eq_true.
  destruct a, b; simpl. split; [by intros [-> ->] | by intros [= -> ->]].
Qed.

Section Rendering.
Variable done : fontMatch -> bool.
Variable uri : list ascii -> list ascii.
Hypothesis uri_shape : forall p, uriShape (uri p).

Lemma piece_starts_url m :
  exists x, (if done m then uri (fontPath m) else referenceText m) = chars "url(" ++ x.
Proof.
  destruct (done m).
  - destruct (uri_shape (fontPath m)) as (body & -> & _). eauto.
  - rewrite referenceText_body. eauto.
Qed.

(** A text in which [url(] never starts lies within plain characters:
    it is a prefix of the stylesheet as it was written. *)
Lemma prefix_within_plain : forall segs u rest,
  noUrlStart u -> u ≠ [] ->
  rendered done uri segs = u ++ rest ->
  exists rest', written segs = u ++ rest'.
Proof.
  induction segs as [|[c|m] segs IH]; intros u rest Hu Hne E.
  - destruct u; [done | discriminate E].
  - destruct u as [|c' u]; [done|]. rewrite rendered_cons in E. simpl in E.
    injection E as <- E. unfold written. rewrite rendered_cons.
    fold (written segs). destruct u as [|c'' u].
    + exists (written segs). reflexivity.
    + destruct Hu as [_ Hu]. destruct (IH _ _ Hu ltac:(done) E) as [rest' ->].
      exists rest'. reflexivity.
  - exfalso. destruct u as [|c u]; [done|]. destruct Hu as [Hu _].
    rewrite rendered_cons in E. destruct (piece_starts_url m) as [x Ex].
    rewrite Ex in E. specialize (Hu rest).
    change (c :: u ++ rest) with ((c :: u) ++ rest) in Hu. rewrite <- E in Hu.
    rewrite <- app_assoc, stripPrefix_app in Hu. discriminate Hu.
Qed.

Section Target.
Variable t : fontMatch.
Hypothesis t_valid : validMatch t.
Hypothesis t_parenFree : parenFree (fontPath t).

(** Where the scan found no reference, the pattern of [t] does not match
    either, whatever has been replaced further on. *)
Lemma plain_position c segs :
  matchFontUrl (c :: written segs) = None ->
  stripPrefix (referenceText t) (c :: rendered done uri segs) = None.
Proof.
  intros Hscan. destruct (stripPrefix _ _) as [after|] eqn:E; [exfalso|done].
  apply stripPrefix_Some in E. rewrite referenceText_body in E.
  change (chars "url(" ++ referenceBody t ++ chars ")")
    with ("u"%char :: chars "rl(" ++ referenceBody t ++ chars ")") in E.
  simpl in E. injection E as -> E.
  destruct (prefix_within_plain segs (chars "rl(" ++ referenceBody t ++ chars ")") after)
    as [rest' Hw].
  - apply noUrlStart_inside. by apply referenceBody_parenFree.
  - discriminate.
  - exact E.
  - rewrite Hw in Hscan.
    change ("u"%char :: (chars "rl(" ++ referenceBody t ++ chars ")") ++ rest')
      with ((chars "url(" ++ referenceBody t ++ chars ")") ++ rest') in Hscan.
    rewrite <- referenceText_body in Hscan.
    rewrite (matchFontUrl_complete t rest' t_valid) in Hscan. discriminate Hscan.
Qed.

Lemma uri_plainText p : plainText (uri p).
Proof. by destruct (uri_shape p) as (body & _ & _ & Hp). Qed.

Lemma replaceAllFuel_nil fuel literal replacement before :
  replaceAllFuel fuel literal replacement before [] = [].
Proof. by destruct fuel. Qed.

(** One replacement pass marks the references equal to [t] as done. *)
Lemma replace_rendered : forall segs,
  scanned segs ->
  Forall (fun m => parenFree (fontPath m)) (references segs) ->
  forall fuel before,
    List.length (rendered done uri segs) <= fuel ->
    replaceAllFuel fuel (referenceText t) (uri (fontPath t)) before
      (rendered done uri segs)
    = rendered (fun m => done m || fontMatch_eqb m t) uri segs.
Proof.
  induction segs as [|[c|m] segs IH]; intros Hscan Hfree fuel before Hlen.
  - apply replaceAllFuel_nil.
  - destruct Hscan as [Hc Hscan]. rewrite !rendered_cons.
    rewrite rendered_cons in Hlen. simpl in Hlen.
    rewrite replaceAllFuel_skip.
    + f_equal. apply IH; [done | done | simpl; lia].
    + split; [|done]. simpl. by apply plain_position.
    + simpl. lia.
  - destruct Hscan as [Hm Hscan]. simpl in Hfree.
    apply Forall_cons in Hfree as [Hmf Hfree].
    rewrite !rendered_cons. rewrite rendered_cons, length_app in Hlen.
    destruct (done m) eqn:Hd; simpl orb.
    + rewrite replaceAllFuel_skip; [|by apply passes_uri|rewrite length_app; lia].
      f_equal. apply IH; [done | done | lia].
    + destruct (fontMatch_eqb m t) eqn:Heq.
      * apply fontMatch_eqb_eq in Heq as ->.
        pose proof (referenceText_length t).
        destruct fuel as [|n]; [lia|].
        rewrite replaceAllFuel_hit.
        -- f_equal. apply IH; [done | done | lia].
        -- destruct (referenceText t); [simpl in *; lia | done].
        -- apply uri_plainText.
      * assert (Hne : m ≠ t).
        { intros ->. assert (fontMatch_eqb t t = true) by (by apply fontMatch_eqb_eq).
          congruence. }
        rewrite replaceAllFuel_skip;
          [|by apply passes_reference|rewrite length_app; lia].
        f_equal. apply IH; [done | done | lia].
Qed.

End Target.
End Rendering.

Lemma regexLiteral_escape s : forall suffix,
  regexLiteral (escapeRegExp s ++ suffix) = option_map (app s) (regexLiteral suffix).
Proof.
  induction s as [|c s IH]; intros suffix.
  - simpl. by destruct (regexLiteral suffix).
  - unfold escapeRegExp. cbn [flat_map]. fold (escapeRegExp s).
    destruct (isSyntaxChar c) eqn:Ec.
    + cbn -[isSyntaxChar]. rewrite Ec, IH. by destruct (regexLiteral suffix).
    + assert (Hb : Ascii.eqb c "\" = false).
      { destruct (Ascii.eqb c "\") eqn:E; [|done].
        apply Ascii.eqb_eq in E as ->. discriminate Ec. }
      cbn -[isSyntaxChar Ascii.eqb]. rewrite Hb, Ec, IH.
      by destruct (regexLiteral suffix).
Qed.

Lemma fontPatterns_literals p :
  map regexLiteral (fontPatterns p)
  = map (fun m => Some (referenceText m))
        [unquotedRef p; singleQuotedRef p; doubleQuotedRef p].
Proof.
  unfold fontPatterns, referenceText. cbn [map quote fontPath unquotedRef
    singleQuotedRef doubleQuotedRef quoteText].
  repeat f_equal.
  - change (chars "url\(" ++ escapeRegExp p ++ chars "\)")
      with ("u"%char :: "r"%char :: "l"%char :: "\"%char :: "("%char
            :: escapeRegExp p ++ chars "\)").
    cbn -[escapeRegExp]. by rewrite regexLiteral_escape.
  - change (chars "url\('" ++ escapeRegExp p ++ chars "'\)")
      with ("u"%char :: "r"%char :: "l"%char :: "\"%char :: "("%char :: "'"%char
            :: escapeRegExp p ++ chars "'\)").
    cbn -[escapeRegExp]. by rewrite regexLiteral_escape.
  - change (chars "url\(" ++ [dquote] ++ escapeRegExp p ++ [dquote] ++ chars "\)")
      with ("u"%char :: "r"%char :: "l"%char :: "\"%char :: "("%char :: dquote
            :: escapeRegExp p ++ dquote :: chars "\)").
    cbn -[escapeRegExp]. by rewrite regexLiteral_escape.
Qed.

Lemma replacePattern_literal css pattern replacement t :
  regexLiteral pattern = Some (referenceText t) ->
  replacePattern css pattern replacement
  = Ok (replaceAll (referenceText t) replacement css).
Proof.
  unfold replacePattern. intros ->. rewrite referenceText_body. reflexivity.
Qed.

Lemma rendered_ext d1 d2 uri segs :
  Forall (fun m => d1 m = d2 m) (references segs) ->
  rendered d1 uri segs = rendered d2 uri segs.
Proof.
  induction segs as [|[c|m] segs IH]; intros Hd; [done| |].
  - rewrite !rendered_cons. f_equal. by apply IH.
  - simpl in Hd. apply Forall_cons in Hd as [Hm Hd].
    rewrite !rendered_cons, Hm. f_equal. by apply IH.
Qed.

Lemma scanned_valid segs : scanned segs -> Forall validMatch (references segs).
Proof.
  induction segs as [|[c|m] segs IH]; simpl; [constructor| |].
  - intros [_ H]. by apply IH.
  - intros [Hm H]. constructor; [done | by apply IH].
Qed.

Lemma ascii_list_eqb_eq a b : ascii_list_eqb a b = true <-> a = b.
Proof. unfold ascii_list_eqb. apply bool_decide_eq_true. Qed.

Lemma three_spellings m p :
  validMatch m ->
  fontMatch_eqb m (unquotedRef p) || fontMatch_eqb m (singleQuotedRef p)
    || fontMatch_eqb m (doubleQuotedRef p)
  = ascii_list_eqb (fontPath m) p.
Proof.
  destruct m as [q path]. intros [Hq _]. simpl in Hq.
  unfold fontMatch_eqb. cbn [quote fontPath unquotedRef singleQuotedRef doubleQuotedRef].
  destruct (ascii_list_eqb path p); [|by rewrite !andb_false_r].
  rewrite !andb_true_r. destruct q as [c|]; [|reflexivity].
  destruct (isQuote_cases _ Hq) as [-> | ->]; reflexivity.
Qed.

Lemma validPath_match q p : validQuote q -> validPath p ->
  validMatch {| quote := q; fontPath := p |}.
Proof. by split. Qed.

Section Inlining.
Variable uri : list ascii -> list ascii.
Hypothesis uri_shape : forall p, uriShape (uri p).

Lemma replaceAll_rendered done t segs :
  validMatch t -> parenFree (fontPath t) ->
  scanned segs ->
  Forall (fun m => parenFree (fontPath m)) (references segs) ->
  replaceAll (referenceText t) (uri (fontPath t)) (rendered done uri segs)
  = rendered (fun m => done m || fontMatch_eqb m t) uri segs.
Proof.
  intros Ht Hf Hs Hr. unfold replaceAll. by apply replace_rendered.
Qed.

(** Lines 86-94 for one font: its references become done, whatever their
    spelling. *)
Lemma replacePatterns_rendered done p segs :
  validPath p -> parenFree p ->
  scanned segs ->
  Forall (fun m => parenFree (fontPath m)) (references segs) ->
  replacePatterns (fontPatterns p) (uri p) (rendered done uri segs)
  = Ok (rendered (fun m => done m || ascii_list_eqb (fontPath m) p) uri segs).
Proof.
  intros Hp Hf Hs Hr.
  pose proof (fontPatterns_literals p) as Hl.
  destruct (fontPatterns p) as [|p1 [|p2 [|p3 [|]]]]; try discriminate Hl.
  injection Hl as H1 H2 H3. cbn [replacePatterns].
  rewrite (replacePattern_literal _ _ _ _ H1).
  change (uri p) with (uri (fontPath (unquotedRef p))) at 1.
  rewrite replaceAll_rendered; [|by apply validPath_match|done..].
  rewrite (replacePattern_literal _ _ _ _ H2).
  change (uri p) with (uri (fontPath (singleQuotedRef p))) at 1.
  rewrite replaceAll_rendered; [|by apply validPath_match|done..].
  rewrite (replacePattern_literal _ _ _ _ H3).
  change (uri p) with (uri (fontPath (doubleQuotedRef p))) at 1.
  rewrite replaceAll_rendered; [|by apply validPath_match|done..].
  f_equal. apply rendered_ext.
  eapply Forall_impl; [by apply scanned_valid|]. intros m Hm. cbn beta.
  rewrite <- (three_spellings m p Hm). by rewrite !orb_assoc.
Qed.

End Inlining.

Lemma uriChar_spec l :
  forallb uriChar l = true -> parenFree l /\ plainText l.
Proof.
  intros Hl. split; eapply forallb_Forall'; try exact Hl; intros c Hc ->; discriminate Hc.
Qed.

Lemma nth_uriChar (l : list ascii) d : forall i,
  forallb uriChar l = true -> uriChar d = true -> uriChar (nth i l d) = true.
Proof.
  induction l as [|c l IH]; intros i Hl Hd; simpl in *.
  - by destruct i.
  - apply andb_true_iff in Hl as [Hc Hl]. destruct i; auto.
Qed.

Lemma base64Digit_uriChar n : uriChar (base64Digit n) = true.
Proof. unfold base64Digit. by apply nth_uriChar. Qed.

Lemma base64_uriChar_bounded n : forall bytes,
  List.length bytes <= n -> forallb uriChar (base64 bytes) = true.
Proof.
  induction n as [|n IH]; intros bytes Hlen.
  - destruct bytes; [done | simpl in Hlen; lia].
  - destruct bytes as [|a [|b [|c rest]]]; [done| | |].
    + cbn -[base64Digit]. by rewrite !base64Digit_uriChar.
    + cbn -[base64Digit]. by rewrite !base64Digit_uriChar.
    + cbn -[base64Digit]. rewrite !base64Digit_uriChar. cbn [andb].
      apply IH. simpl in Hlen. lia.
Qed.

Lemma base64_uriChar bytes : forallb uriChar (base64 bytes) = true.
Proof. by apply (base64_uriChar_bounded (List.length bytes)). Qed.

Lemma getMimeType_uriChar extension :
  forallb uriChar (chars (getMimeType extension)) = true.
Proof.
  unfold getMimeType.
  repeat match goal with
  | |- context [String.eqb ?a ?b] => destruct (String.eqb a b)
  end; reflexivity.
Qed.

Lemma dataUriOf_shape extension data :
  uriShape (dataUriOf (getMimeType extension) data).
Proof.
  exists (chars "ata:" ++ chars (getMimeType extension) ++ chars ";base64,"
          ++ base64 (chars data) ++ [dquote]).
  assert (Hbody : forallb uriChar
            (chars "ata:" ++ chars (getMimeType extension) ++ chars ";base64,"
             ++ base64 (chars data) ++ [dquote]) = true).
  { rewrite !forallb_app, getMimeType_uriChar, base64_uriChar. reflexivity. }
  split; [|split].
  - unfold dataUriOf. rewrite <- !app_assoc. reflexivity.
  - by apply uriChar_spec.
  - unfold dataUriOf, plainText. rewrite !Forall_app.
    pose proof (uriChar_spec _ (getMimeType_uriChar extension)) as [_ Hm].
    pose proof (uriChar_spec _ (base64_uriChar (chars data))) as [_ Hb].
    repeat split; try done; repeat constructor; discriminate.
Qed.

Lemma In_unique x l : In x (unique l) <-> In x l.
Proof.
  induction l as [|y l IH]; simpl; [done|].
  rewrite filter_In, IH. split.
  - intros [->|[Hin _]]; auto.
  - intros [->|Hin]; [auto|].
    destruct (ascii_list_eqb y x) eqn:E.
    + apply ascii_list_eqb_eq in E. auto.
    + right. by split.
Qed.

Lemma doneBy_cons p processed m :
  doneBy (p :: processed) m = ascii_list_eqb (fontPath m) p || doneBy processed m.
Proof. reflexivity. Qed.

Lemma doneBy_In paths m : In (fontPath m) paths -> doneBy paths m = true.
Proof.
  intros Hin. unfold doneBy. apply existsb_exists. exists (fontPath m).
  split; [done | by apply ascii_list_eqb_eq].
Qed.

Section FontFacts.
Context `{Host}.

Lemma fontUri_shape katexCssPath fs p : uriShape (fontUri katexCssPath fs p).
Proof. apply dataUriOf_shape. Qed.

Lemma inlineFonts_rendered katexCssPath segs :
  scanned segs ->
  Forall (fun m => parenFree (fontPath m)) (references segs) ->
  forall paths processed w,
    Forall validPath paths ->
    Forall parenFree paths ->
    Forall (fun p => is_Some (files w !! fontFile katexCssPath p)) paths ->
    exists w',
      inlineFonts katexCssPath paths
        (rendered (doneBy processed) (fontUri katexCssPath (files w)) segs) w
      = (w', Ok (rendered (doneBy (rev paths ++ processed))
                   (fontUri katexCssPath (files w)) segs))
      /\ files w' = files w
      /\ reads w' = rev (map (fontFile katexCssPath) paths) ++ reads w.
Proof.
  intros Hs Hr. induction paths as [|p paths IH]; intros processed w Hv Hf He.
  - exists w. by repeat split.
  - apply Forall_cons in Hv as [Hp Hv]. apply Forall_cons in Hf as [Hpf Hf].
    apply Forall_cons in He as [[data Hdata] He].
    destruct (IH (p :: processed) (withRead (fontFile katexCssPath p) w) Hv Hf He)
      as (w' & Erun & Hfiles & Hreads).
    exists w'. split; [|split].
    + cbn [inlineFonts]. fold (fontFile katexCssPath p).
      unfold bind at 1. unfold fs_readFile at 1. rewrite Hdata.
      assert (Huri : dataUriOf
                (getMimeType (toLowerCase (path_extname (fontFile katexCssPath p)))) data
              = fontUri katexCssPath (files w) p).
      { unfold fontUri. by rewrite Hdata. }
      rewrite Huri. unfold bind at 1, lift at 1.
      rewrite (replacePatterns_rendered _ (fontUri_shape katexCssPath (files w)))
        by done.
      rewrite (rendered_ext _ (doneBy (p :: processed))).
      2:{ apply Forall_forall. intros m _. rewrite doneBy_cons. apply orb_comm. }
      simpl rev. rewrite <- app_assoc. exact Erun.
    + exact Hfiles.
    + rewrite Hreads. simpl. by rewrite <- app_assoc.
Qed.

Lemma rendered_nothing_done uri segs :
  rendered (doneBy []) uri segs = written segs.
Proof.
  unfold written. induction segs as [|[c|m] segs IH]; [done| |];
    rewrite !rendered_cons; by rewrite IH.
Qed.

Lemma fontMatches_In css p :
  In p (fontMatches css)
  <-> p ≠ [] /\ exists m, In m (references (segments css)) /\ fontPath m = p.
Proof.
  unfold fontMatches. rewrite In_unique, filter_In, in_map_iff.
  unfold segments, matchAll. rewrite references_segmentsFuel.
  split.
  - intros [(m & <- & Hm) Hne]. split; [|eauto].
    intros E. rewrite E in Hne. discriminate Hne.
  - intros [Hne (m & Hm & <-)]. split; [eauto|].
    destruct (ascii_list_eqb (fontPath m) []) eqn:E; [|done].
    by apply ascii_list_eqb_eq in E.
Qed.

Lemma validPath_nonempty p : validPath p -> p ≠ [].
Proof. intros (tail & -> & _). discriminate. Qed.

Lemma text_chars s : text (chars s) = s.
Proof. apply string_of_list_ascii_of_string. Qed.

Lemma getMimeType_other extension :
  ~ In extension [".woff2"; ".woff"; ".ttf"; ".otf"; ".eot"; ".svg"] ->
  getMimeType extension = "application/octet-stream".
Proof.
  intros Hn. unfold getMimeType.
  repeat match goal with
  | |- context [String.eqb ?a ?b] =>
      let E := fresh "E" in
      destruct (String.eqb a b) eqn:E;
      [apply String.eqb_eq in E; exfalso; apply Hn; rewrite E; simpl; tauto | clear E]
  end.
  reflexivity.
Qed.

(** C7, as amended. For a stylesheet none of whose font paths contains
    an opening parenthesis, and with every font file present: the scan of
    line 74 cuts the stylesheet into plain characters and references,
    unquoted, single-quoted or double-quoted, and [loadKatexCss] returns
    the stylesheet in which every reference has given way to the data URI
    of its path and nothing else has changed. The URI of a path is
    [url(Qdata:MIME;base64,DATA Q)] with Q a double quote, MIME read off
    the lower-cased extension of the font file by the table of
    [getMimeType] and DATA the base64 encoding of the file, so equal
    paths give equal URIs. The stylesheet and each distinct font are
    read once. *)
Theorem fonts_inlined_everywhere katexCssPath css w :
  cachedKatexCss w = None ->
  require_resolve "katex/dist/katex.min.css" = Ok katexCssPath ->
  files w !! katexCssPath = Some css ->
  (forall p, In p (fontMatches (chars css)) ->
     parenFree p /\ is_Some (files w !! fontFile katexCssPath p)) ->
  let uri := fontUri katexCssPath (files w) in
  let result := text (inlined uri (segments (chars css))) in
  written (segments (chars css)) = chars css
  /\ references (segments (chars css)) = matchAll (chars css)
  /\ (exists w', loadKatexCss w = (w', Ok result)
                 /\ cachedKatexCss w' = Some result
                 /\ reads w' = rev (map (fontFile katexCssPath) (fontMatches (chars css)))
                               ++ katexCssPath :: reads w)
  /\ (forall p data, files w !! fontFile katexCssPath p = Some data ->
        uri p = chars "url(" ++ [dquote] ++ chars "data:"
                ++ chars (getMimeType (toLowerCase (path_extname (fontFile katexCssPath p))))
                ++ chars ";base64," ++ base64 (chars data) ++ [dquote] ++ chars ")")
  /\ (getMimeType ".woff2" = "font/woff2"
      /\ getMimeType ".woff" = "font/woff"
      /\ getMimeType ".ttf" = "font/ttf"
      /\ getMimeType ".otf" = "font/otf"
      /\ getMimeType ".eot" = "application/vnd.ms-fontobject"
      /\ getMimeType ".svg" = "image/svg+xml"
      /\ forall extension,
           ~ In extension [".woff2"; ".woff"; ".ttf"; ".otf"; ".eot"; ".svg"] ->
           getMimeType extension = "application/octet-stream").
Proof.
  intros Hcache Hresolve Hcss Hfonts uri result.
  pose proof (scanned_segmentsFuel (List.length (chars css)) (chars css) (le_n _)) as Hs.
  fold (segments (chars css)) in Hs.
  split; [apply written_segmentsFuel|]. split; [apply references_segmentsFuel|].
  split; [|split].
  - assert (Hrefs : Forall (fun m => In (fontPath m) (fontMatches (chars css)))
                      (references (segments (chars css)))).
    { apply Forall_forall. intros m Hm. apply list_elem_of_In in Hm.
      apply fontMatches_In. split; [|eauto].
      apply validPath_nonempty.
      pose proof (scanned_valid _ Hs) as Hv. rewrite Forall_forall in Hv.
      apply Hv. by apply list_elem_of_In. }
    assert (Hpaths : Forall (fun p => validPath p /\ parenFree p
                               /\ is_Some (files w !! fontFile katexCssPath p))
                       (fontMatches (chars css))).
    { apply Forall_forall. intros p Hp. apply list_elem_of_In in Hp.
      destruct (Hfonts p Hp) as [Hf He]. split; [|done].
      apply fontMatches_In in Hp as [_ (m & Hm & <-)].
      pose proof (scanned_valid _ Hs) as Hv. rewrite Forall_forall in Hv.
      apply Hv. by apply list_elem_of_In. }
    destruct (inlineFonts_rendered katexCssPath (segments (chars css)) Hs
                ltac:(eapply Forall_impl; [exact Hrefs|]; intros m Hm; by apply Hfonts)
                (fontMatches (chars css)) [] (withRead katexCssPath w))
      as (w' & Erun & _ & Hreads).
    { eapply Forall_impl; [exact Hpaths|]. by intros p (? & _). }
    { eapply Forall_impl; [exact Hpaths|]. by intros p (_ & ? & _). }
    { eapply Forall_impl; [exact Hpaths|]. by intros p (_ & _ & ?). }
    exists (withCache (Some result) w').
    split; [|split; [reflexivity | exact Hreads]].
    unfold loadKatexCss. rewrite Hcache. unfold computeKatexCss.
    unfold bind at 1, lift at 1. rewrite Hresolve.
    unfold bind at 1, fs_readFile at 1. rewrite Hcss.
    assert (Hstart : rendered (doneBy []) (fontUri katexCssPath (files w))
                       (segments (chars css)) = chars css).
    { rewrite rendered_nothing_done. apply written_segmentsFuel. }
    change (files (withRead katexCssPath w)) with (files w) in Erun.
    rewrite Hstart in Erun. unfold bind at 1. rewrite Erun.
    rewrite app_nil_r.
    rewrite (rendered_ext _ (fun _ => true)).
    2:{ eapply Forall_impl; [exact Hrefs|]. intros m Hm. cbn beta.
        apply doneBy_In. by rewrite <- in_rev. }
    reflexivity.
  - intros p data Hdata. unfold uri, fontUri. rewrite Hdata. reflexivity.
  - repeat (split; [reflexivity|]). apply getMimeType_other.
Qed.

End FontFacts.

(** ** The inlining on examples *)

Lemma fonts_inlined_everywhere_witness :
  snd (loadKatexCss (H := demoHost) mathWorld)
  = Ok (".katex{src:url(" +:+ quoted "data:font/woff2;base64,TWFu"
        +:+ "),url(" +:+ quoted "data:font/woff;base64,TQ=="
        +:+ "),url(" +:+ quoted "data:font/woff2;base64,TWFu" +:+ ")}").
Proof.
  destruct (fonts_inlined_everywhere (H := demoHost) katexCssPath exampleCss mathWorld)
    as (_ & _ & (w' & Hrun & _) & _).
  - reflexivity.
  - reflexivity.
  - by vm_compute.
  - intros p Hp. vm_compute in Hp. destruct Hp as [<-|[<-|[]]].
    + split; [repeat constructor; discriminate | eexists; by vm_compute].
    + split; [repeat constructor; discriminate | eexists; by vm_compute].
  - rewrite Hrun. by vm_compute.
Defined.

Lemma fonts_inlining_counterexample :
  (files upperCaseWorld !! fontFile (H := demoHost) katexCssPath (chars "fonts/A.WOFF2")
   = Some "Man"
   /\ path_extname (Host := demoHost)
        (fontFile (H := demoHost) katexCssPath (chars "fonts/A.WOFF2")) = ".WOFF2"
   /\ getMimeType ".WOFF2" = "application/octet-stream"
   /\ snd (loadKatexCss (H := demoHost) upperCaseWorld)
      = Ok ("url(" +:+ quoted "data:font/woff2;base64,TWFu" +:+ ")"))
  /\ (map text (fontMatches (chars nestedCss)) = ["fonts/a"; "fonts/url(fonts/a"]
      /\ text (fontUri (H := demoHost) katexCssPath (files nestedWorld)
                 (chars "fonts/url(fonts/a"))
         = "url(" +:+ quoted "data:application/octet-stream;base64,TWE=" +:+ ")"
      /\ snd (loadKatexCss (H := demoHost) nestedWorld)
         = Ok ("url(" +:+ quoted "data:application/octet-stream;base64,TQ==" +:+ ")"
               +:+ " url(fonts/url("
               +:+ quoted "data:application/octet-stream;base64,TQ==" +:+ ")")).
Proof. repeat split; by vm_compute. Qed.

(** ** The fuel of the scans *)

(** The scans never run out of fuel: with the length of the text as
    fuel every position is reached, and more fuel changes nothing. *)
Lemma matchAllFuel_enough fuel : forall fuel' s,
  List.length s <= fuel -> List.length s <= fuel' ->
  matchAllFuel fuel s = matchAllFuel fuel' s.
Proof.
  induction fuel as [|n IH]; intros fuel' s Hlen Hlen'.
  - destruct s; [by destruct fuel' | simpl in Hlen; lia].
  - destruct s as [|c s']; [by destruct fuel'|].
    destruct fuel' as [|n']; [simpl in Hlen'; lia|]. cbn [matchAllFuel].
    destruct (matchFontUrl (c :: s')) as [[m rest]|] eqn:E.
    + destruct (matchFontUrl_sound _ _ _ E) as [Es _].
      apply (f_equal (@List.length _)) in Es. rewrite length_app in Es.
      pose proof (referenceText_length m). simpl in Es, Hlen, Hlen'.
      f_equal. apply IH; lia.
    + simpl in Hlen, Hlen'. apply IH; lia.
Qed.

Lemma replaceAllFuel_enough literal replacement fuel : forall fuel' before s,
  literal ≠ [] ->
  List.length s <= fuel -> List.length s <= fuel' ->
  replaceAllFuel fuel literal replacement before s
  = replaceAllFuel fuel' literal replacement before s.
Proof.
  induction fuel as [|n IH]; intros fuel' before s Hne Hlen Hlen'.
  - destruct s; [by destruct fuel' | simpl in Hlen; lia].
  - destruct s as [|c s']; [by destruct fuel'|].
    destruct fuel' as [|n']; [simpl in Hlen'; lia|]. cbn [replaceAllFuel].
    destruct (stripPrefix literal (c :: s')) as [after|] eqn:E.
    + apply stripPrefix_Some in E. apply (f_equal (@List.length _)) in E.
      rewrite length_app in E. simpl in E, Hlen, Hlen'.
      assert (0 < List.length literal) by (destruct literal; [done | simpl; lia]).
      f_equal. apply IH; [done | lia | lia].
    + simpl in Hlen, Hlen'. f_equal. apply IH; [done | lia | lia].
Qed.

(** * Further properties *)

(** ** The test for the math extension *)

(** X1. [isKatexExtension] accepts exactly the objects whose
    [extensions] property is a list holding an entry named
    [inlineKatex]: no primitive, no function and no array is accepted,
    and a null or undefined entry of the list neither throws nor
    counts. *)
Theorem isKatexExtension_spec extension :
  isKatexExtension extension = true <->
  exists o candidates candidate,
    extension = VObj o
    /\ o !! "extensions" = Some (VArr candidates)
    /\ In candidate candidates
    /\ getPropOpt candidate "name" = VStr "inlineKatex".
Proof.
  assert (Hname : forall v, isString "inlineKatex" v = true <-> v = VStr "inlineKatex").
  { intros v. destruct v; simpl; try (split; [discriminate | done]).
    rewrite String.eqb_eq. split; [by intros -> | by intros [= ->]]. }
  destruct extension as [| |b|n|s|l|o|f];
    try (split; [| by intros (o' & ? & ? & E & _)];
         unfold isKatexExtension; cbn [typeofObject truthy negb orb];
         rewrite ?orb_true_r; cbn; discriminate).
  - unfold isKatexExtension, getPropOpt at 1. cbn [truthy typeofObject negb orb getProp].
    unfold field. split.
    + destruct (o !! "extensions") as [[| | | | |candidates| |]|] eqn:E; try discriminate.
      cbn [default]. intros Hex. apply existsb_exists in Hex as (candidate & Hin & Hc).
      exists o, candidates, candidate. by rewrite <- Hname.
    + intros (o' & candidates & candidate & [= <-] & -> & Hin & Hc). cbn [default].
      apply existsb_exists. exists candidate. by rewrite Hname.
Qed.

(** ** The scan and the patterns *)

Lemma NoDup_List_filter {A} (f : A -> bool) (l : list A) :
  NoDup l -> NoDup (List.filter f l).
Proof.
  induction 1 as [|x l Hx Hl IH]; simpl; [constructor|].
  destruct (f x); [|done]. constructor; [|done].
  rewrite list_elem_of_In, filter_In, <- list_elem_of_In. tauto.
Qed.

Lemma NoDup_unique l : NoDup (unique l).
Proof.
  induction l as [|x l IH]; simpl; constructor.
  - rewrite list_elem_of_In, filter_In. intros [_ Hx]. unfold ascii_list_eqb in Hx.
    by rewrite bool_decide_eq_true_2 in Hx.
  - by apply NoDup_List_filter.
Qed.

(** X2. The font paths that [loadKatexCss] works through are pairwise
    distinct, they are exactly the paths of the references the scan
    finds, and each is [fonts/] followed by at least one character that
    is neither a quote nor a closing parenthesis. *)
Theorem font_paths_distinct css :
  NoDup (fontMatches css)
  /\ (forall p, In p (fontMatches css) <-> exists m, In m (matchAll css) /\ fontPath m = p)
  /\ Forall validPath (fontMatches css).
Proof.
  pose proof (scanned_valid _ (scanned_segmentsFuel (List.length css) css (le_n _))) as Hv.
  fold (segments css) in Hv.
  assert (Hrefs : references (segments css) = matchAll css)
    by apply references_segmentsFuel.
  rewrite Forall_forall in Hv.
  split; [apply NoDup_unique|]. split.
  - intros p. rewrite fontMatches_In, Hrefs. split; [by intros [_ ?]|].
    intros (m & Hm & <-). split; [|eauto].
    apply validPath_nonempty. apply Hv. rewrite Hrefs. by apply list_elem_of_In.
  - apply Forall_forall. intros p Hp. apply list_elem_of_In, fontMatches_In in Hp.
    destruct Hp as [_ (m & Hm & <-)]. apply Hv. by apply list_elem_of_In.
Qed.

(** X3. The expression of line 74 matches at the start of a text exactly
    when the text starts with [url(], an optional quote, a font path, the
    same quote again (or none if there was none) and [)]; groups 1 and 2
    are then that quote and that path. A reference whose quotes differ
    is not matched. *)
Theorem font_reference_recognised s m rest :
  matchFontUrl s = Some (m, rest) <-> s = referenceText m ++ rest /\ validMatch m.
Proof.
  split; [apply matchFontUrl_sound|]. intros [-> Hm]. by apply matchFontUrl_complete.
Qed.

Lemma replacePatterns_total p uri css :
  exists css', replacePatterns (fontPatterns p) uri css = Ok css'.
Proof.
  pose proof (fontPatterns_literals p) as Hl.
  destruct (fontPatterns p) as [|p1 [|p2 [|p3 [|]]]]; try discriminate Hl.
  injection Hl as H1 H2 H3. cbn [replacePatterns].
  rewrite (replacePattern_literal _ _ _ _ H1), (replacePattern_literal _ _ _ _ H2),
    (replacePattern_literal _ _ _ _ H3). eauto.
Qed.

(** X4. Escaping makes every font path a literal: the escaped path,
    read as a regular expression, matches the path itself and nothing
    else, so the three patterns of lines 86-90 match the three spellings
    of the reference character by character, and replacing with them
    never fails, whatever characters the path holds. *)
Theorem font_patterns_are_literal p :
  regexLiteral (escapeRegExp p) = Some p
  /\ map regexLiteral (fontPatterns p)
     = [ Some (chars "url(" ++ p ++ chars ")");
         Some (chars "url('" ++ p ++ chars "')");
         Some (chars "url(" ++ [dquote] ++ p ++ [dquote] ++ chars ")") ]
  /\ forall dataUri css, exists css', replacePatterns (fontPatterns p) dataUri css = Ok css'.
Proof.
  split; [|split].
  - rewrite <- (app_nil_r (escapeRegExp p)), regexLiteral_escape. simpl.
    by rewrite app_nil_r.
  - rewrite fontPatterns_literals. reflexivity.
  - intros. apply replacePatterns_total.
Qed.

(** X5. The data URI of line 84 holds no dollar sign, whatever the bytes
    of the font and whatever its extension: as the replacement of
    [String.prototype.replace] it is inserted as it is, none of the
    dollar patterns being expanded. *)
Theorem data_uri_replaces_verbatim extension fontData matched before after :
  expandReplacement (dataUriOf (getMimeType extension) fontData) matched before after
  = dataUriOf (getMimeType extension) fontData.
Proof.
  apply expandReplacement_plain.
  by destruct (dataUriOf_shape extension fontData) as (body & _ & _ & Hplain).
Qed.

(** ** Failures of the stylesheet loader *)

Section LoaderFacts.
Context `{Host}.

Lemma inlineFonts_throw katexCssPath paths : forall css w w' e,
  inlineFonts katexCssPath paths css w = (w', Throw e) ->
  exists p, e = IOError p /\ files w !! p = None /\ head (reads w') = Some p.
Proof.
  induction paths as [|p rest IH]; intros css w w' e E; cbn [inlineFonts] in E.
  - discriminate E.
  - apply bind_inv in E as [(w1 & data & E1 & E)|(e' & E1 & [= <-])].
    + apply fs_readFile_frame in E1 as ((_ & _ & Hf & _) & _).
      match type of E with context [replacePatterns ?a ?b ?c] =>
        destruct (replacePatterns_total p b c) as [css' Hc] end.
      unfold bind at 1, lift at 1 in E. rewrite Hc in E.
      apply IH in E as (q & -> & Hq & Hr). exists q. by rewrite <- Hf.
    + unfold fs_readFile in E1.
      destruct (files w !! _) eqn:Ef; [discriminate|]. injection E1 as <- <-.
      eexists. split; [reflexivity|]. split; [exact Ef | reflexivity].
Qed.

Lemma computeKatexCss_throw w w' e :
  computeKatexCss w = (w', Throw e) ->
  cachedKatexCss w' = cachedKatexCss w
  /\ (require_resolve "katex/dist/katex.min.css" = Throw e
      \/ exists p, e = IOError p /\ files w !! p = None /\ head (reads w') = Some p).
Proof.
  unfold computeKatexCss. intros E.
  apply bind_inv in E as [(w1 & p & E1 & E)|(e' & E1 & [= <-])];
    unfold lift in E1; injection E1 as <- E1; [|by split; [|left]].
  apply bind_inv in E as [(w2 & css & E2 & E)|(e' & E2 & [= <-])].
  - apply fs_readFile_frame in E2 as ((_ & _ & Hf & _) & C2 & _).
    apply bind_inv in E as [(w3 & css' & E3 & E)|(e' & E3 & [= <-])].
    + unfold bind, setCachedKatexCss, ret in E. discriminate E.
    + pose proof (inlineFonts_frame _ _ _ _ _ _ E3) as [_ C3].
      apply inlineFonts_throw in E3 as (q & -> & Hq & Hr).
      split; [congruence|]. right. exists q. by rewrite <- Hf.
  - unfold fs_readFile in E2.
    destruct (files w !! p) eqn:Ef; [discriminate|]. injection E2 as <- <-.
    split; [reflexivity|]. right. exists p. by repeat split.
Qed.

Lemma loadKatexCss_throw_cache w w' e :
  loadKatexCss w = (w', Throw e) -> cachedKatexCss w' = cachedKatexCss w.
Proof.
  intros E. unfold loadKatexCss in E.
  destruct (cachedKatexCss w) as [cached|] eqn:Hc.
  - destruct (truthy (VStr cached)); [discriminate|].
    apply computeKatexCss_throw in E as [E1 _]. congruence.
  - apply computeKatexCss_throw in E as [E1 _]. congruence.
Qed.

(** X6. [loadKatexCss] fails only when [require.resolve] fails or a
    file, the stylesheet or one of its fonts, cannot be read; the error
    is then that of the resolution or of the read, the file that failed
    is the last one read, nothing is cached, and no object, mark or file
    has changed: the next call starts afresh. *)
Theorem loadKatexCss_failure w w' e :
  loadKatexCss w = (w', Throw e) ->
  cachedKatexCss w' = cachedKatexCss w
  /\ sameObjects w w'
  /\ (require_resolve "katex/dist/katex.min.css" = Throw e
      \/ exists p, e = IOError p /\ files w !! p = None /\ head (reads w') = Some p).
Proof.
  intros E. pose proof (loadKatexCss_frame _ _ _ E) as Hs.
  unfold loadKatexCss in E.
  destruct (cachedKatexCss w) as [cached|] eqn:Hc.
  - destruct (truthy (VStr cached)); [discriminate|].
    apply computeKatexCss_throw in E as [E1 E2]. rewrite Hc in E1. done.
  - apply computeKatexCss_throw in E as [E1 E2]. rewrite Hc in E1. done.
Qed.

(** X7. A stylesheet in which the scan finds no font reference is
    returned and cached as it is, other [url(...)] references included,
    and no file but the stylesheet is read. *)
Theorem stylesheet_without_fonts katexCssPath css w :
  cachedKatexCss w = None ->
  require_resolve "katex/dist/katex.min.css" = Ok katexCssPath ->
  files w !! katexCssPath = Some css ->
  matchAll (chars css) = [] ->
  loadKatexCss w = (withCache (Some css) (withRead katexCssPath w), Ok css).
Proof.
  intros Hc Hr Hf Hm. unfold loadKatexCss. rewrite Hc.
  unfold computeKatexCss, bind, lift, fs_readFile. rewrite Hr, Hf.
  unfold fontMatches. rewrite Hm. cbn [map List.filter unique inlineFonts].
  unfold ret, setCachedKatexCss. by rewrite text_chars.
Qed.

(** Lines 103-111 of [ensureKatexSupport] on a configuration whose math
    engine is KaTeX and whose extensions are a list. *)
Lemma ensureKatexSupport_begins config w c extensions :
  store w !! config = Some c ->
  field c "math_engine" = VStr "katex" ->
  field c "marked_extensions" = VArr extensions ->
  exists w0,
    ensureKatexSupport config w
    = (let! marked := isMarked config in
       if marked then ret tt
       else
         let! katexCss := loadKatexCss in
         do! stepConfig config (appendKatexCss katexCss) in
         markConfig config) w0
    /\ (exists f, w0 = withStore f w)
    /\ store w0 !! config = Some (withKatexExtension c extensions)
    /\ (existsb isKatexExtension extensions = true -> w0 = w)
    /\ (existsb isKatexExtension extensions = false ->
        w0 = withStore <[config := withKatexExtension c extensions]> w).
Proof.
  intros Hl He Hm.
  exists (if existsb isKatexExtension extensions then w
          else withStore <[config := withKatexExtension c extensions]> w).
  split; [|split; [|split; [|split]]].
  - unfold ensureKatexSupport. unfold bind at 1. unfold getConfig. rewrite Hl, He.
    cbn [isString]. rewrite String.eqb_refl. cbn [negb].
    rewrite Hm. unfold bind at 1, lift at 1, arraySome at 1.
    unfold bind at 1. unfold withKatexExtension.
    destruct (existsb isKatexExtension extensions); [reflexivity|].
    rewrite (stepConfig_run _ _ _ _ Hl). unfold appendKatexExtension. by rewrite Hm.
  - destruct (existsb _ _); [|eauto]. exists id. by destruct w.
  - unfold withKatexExtension. destruct (existsb isKatexExtension extensions); [done|].
    simpl. apply lookup_insert_eq.
  - by intros ->.
  - by intros ->.
Qed.

(** X8. When [ensureKatexSupport] throws on a configuration whose
    extensions are a list, the math engine is KaTeX, the object was not
    marked and the error is the stylesheet loader's. The object is then
    still unmarked and its [css] untouched, but the math extension has
    been appended already if it was missing: the failure is not undone,
    and nothing has been cached. *)
Theorem ensureKatexSupport_failure config w w1 c extensions e :
  store w !! config = Some c ->
  field c "marked_extensions" = VArr extensions ->
  ensureKatexSupport config w = (w1, Throw e) ->
  field c "math_engine" = VStr "katex"
  /\ (config ∉ configsWithKatexCss w)
  /\ snd (loadKatexCss w) = Throw e
  /\ store w1 !! config = Some (withKatexExtension c extensions)
  /\ field (withKatexExtension c extensions) "css" = field c "css"
  /\ configsWithKatexCss w1 = configsWithKatexCss w
  /\ cachedKatexCss w1 = cachedKatexCss w.
Proof.
  intros Hl Hm E.
  assert (Hk : field c "math_engine" = VStr "katex").
  { unfold ensureKatexSupport in E. unfold bind at 1 in E. unfold getConfig in E.
    rewrite Hl in E.
    destruct (field c "math_engine") as [| | | |s| | |]; try discriminate E.
    cbn [isString] in E. destruct (String.eqb s "katex") eqn:Es; [|discriminate E].
    by apply String.eqb_eq in Es as ->. }
  destruct (ensureKatexSupport_begins _ _ _ _ Hl Hk Hm) as (w0 & E0 & [f Hw0] & Hs0 & _).
  rewrite E0 in E.
  assert (Hk0 : configsWithKatexCss w0 = configsWithKatexCss w) by (by rewrite Hw0).
  unfold bind at 1, isMarked at 1 in E. rewrite Hk0 in E.
  case_bool_decide as Hmk; [discriminate E|].
  assert (Hcss : field (withKatexExtension c extensions) "css" = field c "css").
  { unfold withKatexExtension. destruct (existsb _ _); [done|]. by rewrite field_insert_ne. }
  apply bind_inv in E as [(wl & katexCss & E4 & E)|(e' & E4 & [= <-])].
  - pose proof (loadKatexCss_frame _ _ _ E4) as (Hst & _).
    assert (Hsl : store wl !! config = Some (withKatexExtension c extensions))
      by (by rewrite Hst).
    unfold bind at 1 in E. rewrite (stepConfig_run _ _ _ _ Hsl) in E. discriminate E.
  - pose proof (loadKatexCss_throw_cache _ _ _ E4) as Hc.
    pose proof (loadKatexCss_frame _ _ _ E4) as (Hst & Hks & _).
    rewrite Hw0 in E4. rewrite storeBlind_loadKatexCss in E4. injection E4 as _ E4.
    repeat split; try done; try congruence.
    by rewrite Hc, Hw0.
Qed.

(** X18. Once the stylesheet is cached, math support on a further
    configuration cannot fail and reads no file: for an unmarked
    configuration whose math engine is KaTeX and whose extensions are a
    list, [ensureKatexSupport] returns after appending the extension if
    it was missing, appending the cached stylesheet to [css] and marking
    the object, and nothing else changes. *)
Theorem warm_cache_math_support config w c extensions katexCss :
  cachedKatexCss w = Some katexCss ->
  katexCss ≠ EmptyString ->
  store w !! config = Some c ->
  field c "math_engine" = VStr "katex" ->
  field c "marked_extensions" = VArr extensions ->
  config ∉ configsWithKatexCss w ->
  ensureKatexSupport config w
  = (withKatexSet (fun s => {[config]} ∪ s)
       (withStore <[config := withKatexCss katexCss (withKatexExtension c extensions)]> w),
     Ok tt).
Proof.
  intros Hc Hne Hl He Hm Hmk.
  destruct (ensureKatexSupport_begins _ _ _ _ Hl He Hm)
    as (w0 & E0 & [f Hw0] & Hs0 & Hyes & Hno).
  rewrite E0.
  assert (Hk0 : configsWithKatexCss w0 = configsWithKatexCss w) by (by rewrite Hw0).
  assert (Hc0 : cachedKatexCss w0 = Some katexCss) by (by rewrite Hw0).
  unfold bind at 1, isMarked at 1. rewrite Hk0, bool_decide_eq_false_2 by done.
  rewrite (bind_run _ _ _ _ _ (loadKatexCss_cached _ _ Hc0 Hne)).
  unfold bind at 1. rewrite (stepConfig_run _ _ _ _ Hs0). cbn [appendKatexCss fst snd].
  unfold markConfig. f_equal. unfold withKatexCss.
  destruct (existsb isKatexExtension extensions) eqn:Hex.
  - by rewrite (Hyes eq_refl).
  - rewrite (Hno eq_refl). unfold withKatexSet, withStore. simpl. f_equal.
    by rewrite insert_insert_eq.
Qed.

End LoaderFacts.

(** ** More on the merge *)

Section MoreMergeFacts.
Context `{Host}.

(** X9. A key that neither an invocation override assigns nor the front
    matter defines keeps what the defaults say, present or absent, and a
    list-valued option holds the list coercion of the default;
    [pdf_options] apart, which is merged. *)
Theorem untouched_keys_keep_defaults w config c fm args w' config' key :
  store w !! config = Some c ->
  mergeConfig config fm args w = (w', Ok config') ->
  overrideOf args key = None ->
  match fm with FMData data => ownProps data !! key = None | FMError _ => True end ->
  key ≠ "pdf_options" ->
  exists final, store w' !! config' = Some final
    /\ final !! key = if bool_decide (key ∈ arrayOptions)
                      then Some (listCoercion (field c key)) else c !! key.
Proof.
  intros Hl E Hov Hfm Hk.
  destruct (mergeConfig_ok _ _ _ _ _ _ _ Hl E) as (c1 & final & D1 & D3 & St).
  exists final. split; [done|].
  pose proof (mergeCliArgs_lookup _ _ _ key D3) as L. rewrite Hov in L. rewrite L.
  assert (Hm : mergedLayers c fm !! key = c !! key).
  { destruct fm as [e|data]; [done|].
    rewrite (mergeFrontMatter_lookup _ _ _ _
               (mergeConfig_front_matter _ _ _ _ _ _ _ Hl E) Hk).
    by rewrite Hfm. }
  case_bool_decide as Hin.
  - rewrite sanitizeArrayOptions_option by done. f_equal. f_equal. apply field_ext.
    by rewrite (derive_other _ _ _ D1 Hk).
  - rewrite sanitizeArrayOptions_other by done. by rewrite (derive_other _ _ _ D1 Hk).
Qed.

(** X10. A front matter that parsed to [null] or [undefined] makes the
    merge throw a type error on [pdf_options] and changes nothing. Any
    other front matter merges without error into a new object, distinct
    from the caller's, whose [pdf_options] is an object even when the
    defaults have none; the caller's object stays as it was. *)
Theorem front_matter_step_outcome config data w c :
  store w !! config = Some c ->
  match data with
  | VUndef | VNull =>
      mergeFrontMatterStep config (FMData data) w = (w, Throw (TypeError "pdf_options"))
  | _ =>
      exists merged pdf,
        let l := fresh (dom (store w)) in
        mergeFrontMatterStep config (FMData data) w = (withStore <[l := merged]> w, Ok l)
        /\ l ≠ config
        /\ merged !! "pdf_options" = Some (VObj pdf)
        /\ store (withStore <[l := merged]> w) !! config = Some c
  end.
Proof.
  intros Hl.
  assert (Hfresh : fresh (dom (store w)) ≠ config).
  { intros E. apply (is_fresh (dom (store w))). rewrite E. apply elem_of_dom. eauto. }
  destruct data; cbn [mergeFrontMatterStep]; unfold bind, getConfig, lift, allocConfig;
    rewrite Hl; unfold mergeFrontMatter; cbn [getProp]; try reflexivity;
    (eexists _, _; cbv zeta; split; [reflexivity|]; split; [exact Hfresh|];
     split; [apply lookup_insert_eq|]; simpl; by rewrite lookup_insert_ne).
Qed.

(** X12. Only the four JSON flags can make the override loop fail. When
    the value of one does not parse, the loop throws the parser's error
    at that override: the overrides before it have been assigned, the
    ones after it have not. *)
Theorem overrides_stop_at_first_failure before argKey argValue after c e :
  Forall assignable before ->
  argValueOf argKey argValue = Throw e ->
  isJsonArg argKey = true
  /\ jsonParse argValue = Throw e
  /\ exists c', mergeCliArgs before c = (c', Ok tt)
       /\ mergeCliArgs (before ++ (argKey, argValue) :: after) c = (c', Throw e).
Proof.
  intros Hb He.
  assert (Hj : isJsonArg argKey = true /\ jsonParse argValue = Throw e).
  { unfold argValueOf in He. destruct (isJsonArg argKey); [done | discriminate]. }
  destruct Hj as [Hj Hp]. split; [done|]. split; [done|].
  revert c. induction Hb as [|[k v] before [[x Hx] Hk] Hb IH]; intros c.
  - exists c. split; [reflexivity|]. cbn [app mergeCliArgs]. by rewrite He.
  - simpl in Hx, Hk. apply String.eqb_neq in Hk.
    destruct (IH (<[configKey k := x]> c)) as (c' & E1 & E2).
    exists c'. cbn [app mergeCliArgs]. by rewrite Hx, Hk.
Qed.

End MoreMergeFacts.

(** ** When the merge returns *)

Section MergeTotal.
Context `{Host}.

Lemma deriveDisplayHeaderFooter_total c :
  notNullish (field c "pdf_options") ->
  exists c', deriveDisplayHeaderFooter c = (c', Ok tt).
Proof.
  intros [Hu Hn]. unfold deriveDisplayHeaderFooter.
  destruct (field c "pdf_options") as [| |b|n|s|l|o|f]; try done; cbn [getProp];
    try (cbn; eauto; fail).
  - destruct (_ && _); cbn [setProp]; eauto.
Qed.

Lemma mergeCliArgs_total args : forall c,
  Forall assignable args -> exists c', mergeCliArgs args c = (c', Ok tt).
Proof.
  induction args as [|[k v] args IH]; intros c Ha; [by exists c|].
  apply Forall_cons in Ha as [[[x Hx] Hk] Ha]. simpl in Hx, Hk.
  apply String.eqb_neq in Hk. cbn [mergeCliArgs]. rewrite Hx, Hk. by apply IH.
Qed.

(** X20. The merge returns whenever its inputs are of the expected
    kinds: with a front matter that parsed to anything but [null] or
    [undefined], or with a front matter that did not parse and defaults
    whose [pdf_options] is neither [null] nor [undefined], and with
    overrides that can all be assigned, lines 146-180 end without an
    error. *)
Theorem merge_succeeds config fm args w c :
  store w !! config = Some c ->
  match fm with
  | FMData data => notNullish data
  | FMError _ => notNullish (field c "pdf_options")
  end ->
  Forall assignable args ->
  exists w' config', mergeConfig config fm args w = (w', Ok config').
Proof.
  intros Hl Hfm Ha.
  assert (Hstep : exists w1 l1 c1,
            mergeFrontMatterStep config fm w = (w1, Ok l1)
            /\ store w1 !! l1 = Some c1
            /\ notNullish (field c1 "pdf_options")).
  { destruct fm as [e|data].
    - exists (withWarning (frontMatterWarning e) w), config, c.
      split; [reflexivity|]. split; [exact Hl | exact Hfm].
    - destruct Hfm as [Hu Hn]. cbn [mergeFrontMatterStep].
      unfold bind, getConfig, lift, allocConfig. rewrite Hl. unfold mergeFrontMatter.
      destruct data; try done; cbn [getProp];
        (eexists _, _, _; split; [reflexivity|]; split; [simpl; apply lookup_insert_eq|];
         rewrite field_insert; by split). }
  destruct Hstep as (w1 & l1 & c1 & E1 & Hs1 & Hp1).
  destruct (deriveDisplayHeaderFooter_total c1 Hp1) as [c2 D2].
  destruct (mergeCliArgs_total args (sanitizeArrayOptions c2) Ha) as [c3 D3].
  unfold mergeConfig. rewrite (bind_run _ _ _ _ _ E1).
  set (w2 := withStore <[l1 := c2]> w1).
  set (w3 := withStore <[l1 := sanitizeArrayOptions c2]> w2).
  assert (Hs2 : store w2 !! l1 = Some c2) by (simpl; apply lookup_insert_eq).
  assert (Hs3 : store w3 !! l1 = Some (sanitizeArrayOptions c2))
    by (simpl; apply lookup_insert_eq).
  assert (E2 : stepConfig l1 deriveDisplayHeaderFooter w1 = (w2, Ok tt))
    by (by rewrite (stepConfig_run _ _ _ _ Hs1), D2).
  assert (E3 : stepConfig l1 (fun c => (sanitizeArrayOptions c, Ok tt)) w2 = (w3, Ok tt))
    by (by rewrite (stepConfig_run _ _ _ _ Hs2)).
  assert (E4 : mergeOverrides l1 args w1 = (withStore <[l1 := c3]> w3, Ok tt)).
  { unfold mergeOverrides. rewrite (bind_run _ _ _ _ _ E2), (bind_run _ _ _ _ _ E3).
    by rewrite (stepConfig_run _ _ _ _ Hs3), D3. }
  rewrite (bind_run _ _ _ _ _ E4). unfold ret. eauto.
Qed.

End MergeTotal.

(** ** Objects that a conversion leaves alone *)

Lemma leaves_refl l w : leaves l w w.
Proof. by split. Qed.

Lemma leaves_trans l w1 w2 w3 : leaves l w1 w2 -> leaves l w2 w3 -> leaves l w1 w3.
Proof. intros [A1 A2] [B1 B2]. split; [congruence | tauto]. Qed.

Lemma sameObjects_leaves l w w' : sameObjects w w' -> leaves l w w'.
Proof. intros (Hs & Hk & _). unfold leaves. by rewrite Hs, Hk. Qed.

Lemma touchesOnly_bind {A B} l' (c : M A) (k : A -> M B) :
  touchesOnly l' c -> (forall a, touchesOnly l' (k a)) -> touchesOnly l' (bind c k).
Proof.
  intros Hc Hk l w Hne. specialize (Hc l w Hne). unfold bind.
  destruct (c w) as [w1 [a|e]]; simpl in *; [|done].
  eapply leaves_trans; [exact Hc | by apply Hk].
Qed.

Lemma touchesOnly_same {A} l' (c : M A) :
  (forall w, sameObjects w (fst (c w))) -> touchesOnly l' c.
Proof. intros Hc l w _. apply sameObjects_leaves, Hc. Qed.

Lemma touchesOnly_lift {A} l' (o : outcome A) : touchesOnly l' (lift o).
Proof. intros l w _. apply leaves_refl. Qed.

Lemma touchesOnly_ret {A} l' (a : A) : touchesOnly l' (ret a).
Proof. intros l w _. apply leaves_refl. Qed.

Lemma touchesOnly_throw {A} l' e : touchesOnly l' (@throw A e).
Proof. intros l w _. apply leaves_refl. Qed.

Lemma touchesOnly_getConfig l' l0 : touchesOnly l' (getConfig l0).
Proof.
  intros l w _. unfold getConfig. destruct (store w !! l0); apply leaves_refl.
Qed.

Lemma touchesOnly_stepConfig {A} l'
  (f : gmap string value -> gmap string value * outcome A) :
  touchesOnly l' (stepConfig l' f).
Proof.
  intros l w Hne. unfold stepConfig. destruct (store w !! l') as [c|]; [|apply leaves_refl].
  destruct (f c) as [c' r]. split; [|done]. simpl. by rewrite lookup_insert_ne.
Qed.

Lemma leaves_bind {A B} l (c : M A) (k : A -> M B) w :
  leaves l w (fst (c w)) ->
  (forall a w1, c w = (w1, Ok a) -> leaves l w1 (fst (k a w1))) ->
  leaves l w (fst (bind c k w)).
Proof.
  intros Hc Hk. unfold bind. destruct (c w) as [w1 [a|e]] eqn:E; simpl in *; [|done].
  eapply leaves_trans; [exact Hc | by apply Hk].
Qed.

Section Untouched.
Context `{Host}.

Lemma touchesOnly_mergeOverrides l' args : touchesOnly l' (mergeOverrides l' args).
Proof.
  unfold mergeOverrides.
  repeat (apply touchesOnly_bind; [apply touchesOnly_stepConfig | intros _]).
  apply touchesOnly_stepConfig.
Qed.

Lemma touchesOnly_ensureKatexSupport l' : touchesOnly l' (ensureKatexSupport l').
Proof.
  unfold ensureKatexSupport.
  apply touchesOnly_bind; [apply touchesOnly_getConfig | intros c].
  destruct (negb (isString "katex" (field c "math_engine"))); [apply touchesOnly_ret|].
  apply touchesOnly_bind; [apply touchesOnly_lift | intros has].
  apply touchesOnly_bind.
  { destruct has; [apply touchesOnly_ret | apply touchesOnly_stepConfig]. }
  intros _. apply touchesOnly_bind; [by intros l w _; apply leaves_refl | intros marked].
  destruct marked; [apply touchesOnly_ret|].
  apply touchesOnly_bind.
  { apply touchesOnly_same. intros w. apply (loadKatexCss_frame w _ (snd (loadKatexCss w))).
    by destruct (loadKatexCss w). }
  intros katexCss. apply touchesOnly_bind; [apply touchesOnly_stepConfig | intros _].
  intros l w Hne. split; [done|]. simpl. rewrite elem_of_union, elem_of_singleton.
  split; [by intros [E|E] | by right].
Qed.

Lemma touchesOnly_completeConfig inp l' : touchesOnly l' (completeConfig inp l').
Proof.
  unfold completeConfig.
  apply touchesOnly_bind; [apply touchesOnly_ensureKatexSupport | intros _].
  apply touchesOnly_bind; [apply touchesOnly_stepConfig | intros _].
  apply touchesOnly_bind; [apply touchesOnly_stepConfig | intros _].
  apply touchesOnly_bind; [apply touchesOnly_lift | intros main].
  apply touchesOnly_stepConfig.
Qed.

Lemma touchesOnly_writeOutput l' out : touchesOnly l' (writeOutput out).
Proof.
  intros l w _. unfold writeOutput.
  destruct (filename out) as [[|a name]|]; try apply leaves_refl.
  destruct (String.eqb _ _); [by split|]. destruct (writable _); by split.
Qed.

Lemma touchesOnly_render inp md l' : touchesOnly l' (render inp md l').
Proof.
  unfold render.
  apply touchesOnly_bind; [apply touchesOnly_getConfig | intros c].
  apply touchesOnly_bind; [apply touchesOnly_lift | intros html].
  apply touchesOnly_bind.
  { destruct inp; [|apply touchesOnly_ret].
    destruct (field c "basedir"); first [apply touchesOnly_ret | apply touchesOnly_throw]. }
  intros relativePath. apply touchesOnly_bind; [apply touchesOnly_lift | intros [out|]].
  - apply touchesOnly_bind; [apply touchesOnly_writeOutput | intros _; apply touchesOnly_ret].
  - destruct (truthy _); apply touchesOnly_throw.
Qed.

Lemma mergeFrontMatterStep_fresh config data w w1 l1 c :
  store w !! config = Some c ->
  mergeFrontMatterStep config (FMData data) w = (w1, Ok l1) ->
  l1 ≠ config /\ leaves config w w1.
Proof.
  intros Hl E. cbn [mergeFrontMatterStep] in E.
  unfold bind, getConfig, lift, allocConfig in E. rewrite Hl in E.
  destruct (mergeFrontMatter c data) as [merged|e]; [|discriminate E].
  injection E as <- <-.
  assert (Hne : fresh (dom (store w)) ≠ config).
  { intros E. apply (is_fresh (dom (store w))). rewrite E. apply elem_of_dom. eauto. }
  split; [done|]. split; [|done]. simpl. by rewrite lookup_insert_ne.
Qed.

(** X11. When the front matter parsed, the conversion never writes to
    the caller's configuration object: whatever the outcome, success or
    error at any step, the object holds the properties it held before
    and is marked or not as before. All the changes are made to the
    object that the merge creates. *)
Theorem caller_config_survives inp md data config args w c :
  store w !! config = Some c ->
  let w' := fst (convertParsed inp md (FMData data) config args w) in
  store w' !! config = Some c
  /\ (config ∈ configsWithKatexCss w' <-> config ∈ configsWithKatexCss w).
Proof.
  intros Hl w'. rewrite <- Hl. change (leaves config w w'). unfold w'.
  assert (Hstep : leaves config w (fst (mergeFrontMatterStep config (FMData data) w))).
  { destruct (mergeFrontMatterStep config (FMData data) w) as [w1 [l1|e]] eqn:E.
    - by destruct (mergeFrontMatterStep_fresh _ _ _ _ _ _ Hl E).
    - cbn [mergeFrontMatterStep] in E. unfold bind, getConfig, lift, allocConfig in E.
      rewrite Hl in E. destruct (mergeFrontMatter c data); [discriminate E|].
      injection E as <-. apply leaves_refl. }
  assert (Hmerge : forall w1 l1, mergeConfig config (FMData data) args w = (w1, Ok l1) ->
                     l1 ≠ config).
  { intros w1 l1 E. unfold mergeConfig in E. apply bind_ok in E as (w0 & l0 & E0 & E).
    apply bind_ok in E as (w2 & [] & _ & E). unfold ret in E. injection E as _ <-.
    by destruct (mergeFrontMatterStep_fresh _ _ _ _ _ _ Hl E0). }
  assert (Hfinish : forall w1 l1,
            finishConfig inp config (FMData data) args w = (w1, Ok l1) -> l1 ≠ config).
  { intros w1 l1 E. unfold finishConfig in E. apply bind_ok in E as (w0 & l0 & E0 & E).
    apply bind_ok in E as (w2 & [] & _ & E). unfold ret in E. injection E as _ <-.
    by eapply Hmerge. }
  unfold convertParsed. apply leaves_bind.
  - unfold finishConfig. apply leaves_bind.
    + unfold mergeConfig. apply leaves_bind; [exact Hstep|].
      intros l1 w1 E1. destruct (mergeFrontMatterStep_fresh _ _ _ _ _ _ Hl E1) as [Hne _].
      apply leaves_bind; [by apply touchesOnly_mergeOverrides|].
      intros _ w2 _. apply leaves_refl.
    + intros l1 w1 E1. apply leaves_bind; [|intros _ w2 _; apply leaves_refl].
      apply touchesOnly_completeConfig. intros E. by eapply Hmerge.
  - intros l1 w1 E1. apply touchesOnly_render. intros E. by eapply Hfinish.
Qed.

End Untouched.

(** ** The stylesheet list *)

Lemma primitiveEq_eq x y : isPrimitive x = true -> primitiveEq x y = true <-> x = y.
Proof.
  intros Hx. destruct x, y; try discriminate Hx; simpl;
    try (split; [discriminate | intros [=]]); try done.
  - rewrite Bool.eqb_true_iff. split; [by intros -> | by intros [= ->]].
  - rewrite String.eqb_eq. split; [by intros -> | by intros [= ->]].
Qed.

Lemma seen_spec x seen :
  isPrimitive x = true -> existsb (primitiveEq x) seen = true <-> x ∈ seen.
Proof.
  intros Hx. rewrite existsb_exists. split.
  - intros (y & Hin & Hy). apply primitiveEq_eq in Hy as ->; [|done].
    by apply list_elem_of_In.
  - intros Hin. exists x. split; [by apply list_elem_of_In | by apply primitiveEq_eq].
Qed.

Lemma elem_of_rev_iff {A} (x : A) (l : list A) : x ∈ rev l <-> x ∈ l.
Proof. rewrite !list_elem_of_In. symmetry. apply in_rev. Qed.

Lemma uniqueValues_spec l : forall seen r,
  uniqueValues seen l = Ok r ->
  NoDup r
  /\ (forall x, x ∈ r <-> x ∈ l /\ x ∉ seen)
  /\ Forall (fun x => isPrimitive x = true) l.
Proof.
  induction l as [|x l IH]; intros seen r E; simpl in E.
  - injection E as <-. split; [constructor|]. split; [|constructor].
    intros x. rewrite elem_of_nil. tauto.
  - destruct (isPrimitive x) eqn:Hx; simpl in E; [|discriminate].
    destruct (existsb (primitiveEq x) seen) eqn:Hs.
    + apply seen_spec in Hs; [|done]. destruct (IH _ _ E) as (Hn & Hr & Hp).
      split; [done|]. split; [|by constructor].
      intros y. rewrite Hr, elem_of_cons. split; [tauto|].
      intros [[->|Hy] Hns]; [done | tauto].
    + destruct (uniqueValues (x :: seen) l) as [r'|] eqn:E'; [|discriminate].
      injection E as <-. destruct (IH _ _ E') as (Hn & Hr & Hp).
      assert (Hns : x ∉ seen).
      { intros Hin. apply seen_spec in Hin; [|done]. congruence. }
      split; [|split; [|by constructor]].
      * constructor; [|done]. rewrite Hr. intros [_ Hx']. apply Hx'. by left.
      * intros y. rewrite !elem_of_cons, Hr, not_elem_of_cons. split.
        -- intros [->|[Hy [Hne Hny]]]; tauto.
        -- intros [[->|Hy] Hny]; [by left|].
           destruct (primitiveEq x y) eqn:Exy.
           ++ apply primitiveEq_eq in Exy as ->; [by left | done].
           ++ right. repeat split; try done. intros ->.
              assert (primitiveEq x x = true) by (by apply primitiveEq_eq). congruence.
Qed.

Lemma uniqueValues_app l : forall seen tail,
  Forall (fun x => isPrimitive x = true) l ->
  NoDup l ->
  (forall x, x ∈ l -> x ∉ seen) ->
  uniqueValues seen (l ++ tail)
  = match uniqueValues (rev l ++ seen) tail with
    | Ok r => Ok (l ++ r)
    | Throw e => Throw e
    end.
Proof.
  induction l as [|x l IH]; intros seen tail Hp Hn Hs.
  - simpl. by destruct (uniqueValues seen tail).
  - apply Forall_cons in Hp as [Hx Hp]. apply NoDup_cons in Hn as [Hxl Hn].
    cbn [app uniqueValues]. rewrite Hx. cbn [negb].
    destruct (existsb (primitiveEq x) seen) eqn:Ex.
    { apply seen_spec in Ex; [|done]. exfalso. apply (Hs x); [by left | done]. }
    rewrite IH; [|done|done|].
    + cbn [rev]. rewrite <- app_assoc. cbn [app].
      by destruct (uniqueValues (rev l ++ x :: seen) tail).
    + intros y Hy. rewrite not_elem_of_cons. split; [by intros -> |].
      apply Hs. by right.
Qed.

Section Stylesheet.
Context `{Host}.

(** X13. When line 201 succeeds, the new [stylesheet] is a list without
    repetition that holds the entries of the old one and the stylesheet
    of the highlight style, and nothing else; an old list without
    repetition that lacks the highlight stylesheet gets it appended, in
    last place. Running the step again on the result changes nothing: the
    highlight stylesheet is never added twice. *)
Theorem highlight_stylesheet_once hljsMain c c' :
  addHighlightStylesheet hljsMain c = (c', Ok tt) ->
  let sheet := highlightStylesheetOf hljsMain c in
  exists before after,
    iterate (field c "stylesheet") = Ok before
    /\ c' = <["stylesheet" := VArr after]> c
    /\ NoDup after
    /\ (forall x, x ∈ after <-> x ∈ before \/ x = sheet)
    /\ (NoDup before -> sheet ∉ before -> after = before ++ [sheet])
    /\ addHighlightStylesheet hljsMain c' = (c', Ok tt).
Proof.
  intros E sheet. unfold addHighlightStylesheet in E.
  fold (highlightStylesheetOf hljsMain c) in E. fold sheet in E.
  destruct (iterate (field c "stylesheet")) as [before|] eqn:Ei; [|discriminate].
  destruct (uniqueValues [] (before ++ [sheet])) as [after|] eqn:Eu; [|discriminate].
  injection E as <-.
  destruct (uniqueValues_spec _ _ _ Eu) as (Hn & Hr & Hp).
  apply Forall_app in Hp as [Hpb Hps].
  assert (Hin : forall x, x ∈ after <-> x ∈ before \/ x = sheet).
  { intros x. rewrite Hr, elem_of_app, list_elem_of_singleton, elem_of_nil. tauto. }
  assert (Hsheet : isPrimitive sheet = true) by reflexivity.
  exists before, after. repeat split; try done; try apply Hin.
  - intros Hnb Hnot. rewrite uniqueValues_app in Eu; [|done|done|].
    2:{ intros x _. apply not_elem_of_nil. }
    rewrite app_nil_r in Eu. cbn [uniqueValues] in Eu. rewrite Hsheet in Eu. cbn [negb] in Eu.
    destruct (existsb (primitiveEq sheet) (rev before)) eqn:Ex.
    { apply seen_spec in Ex; [|done]. exfalso. apply Hnot. by apply elem_of_rev_iff. }
    by injection Eu as <-.
  - unfold addHighlightStylesheet. fold (highlightStylesheetOf hljsMain
      (<["stylesheet" := VArr after]> c)).
    assert (Hsame : highlightStylesheetOf hljsMain (<["stylesheet" := VArr after]> c) = sheet).
    { unfold sheet, highlightStylesheetOf. by rewrite field_insert_ne. }
    rewrite Hsame, field_insert. cbn [iterate].
    rewrite uniqueValues_app; [|..|done|].
    + rewrite app_nil_r. cbn [uniqueValues]. rewrite Hsheet. cbn [negb].
      assert (Ex : existsb (primitiveEq sheet) (rev after) = true).
      { apply seen_spec; [done|]. apply elem_of_rev_iff, Hin. by right. }
      rewrite Ex, app_nil_r. by rewrite insert_insert_eq.
    + apply Forall_forall. intros x Hx. apply Hin in Hx as [Hx| ->]; [|done].
      rewrite Forall_forall in Hpb. by apply Hpb.
    + intros x _. apply not_elem_of_nil.
Qed.

End Stylesheet.

(** ** The completion of the configuration *)

Section Completion.
Context `{Host}.

(** Lines 184-201, after the math support. *)
Lemma completion_steps inp config w1 w' c1 :
  store w1 !! config = Some c1 ->
  (do! stepConfig config sanitizeMargin in
   do! stepConfig config (fun c => (setDest inp c, Ok tt)) in
   let! hljsMain := lift (require_resolve "highlight.js") in
   stepConfig config (addHighlightStylesheet hljsMain)) w1 = (w', Ok tt) ->
  exists final,
    store w' !! config = Some final
    /\ final !! "css" = c1 !! "css"
    /\ final !! "marked_extensions" = c1 !! "marked_extensions"
    /\ configsWithKatexCss w' = configsWithKatexCss w1
    /\ cachedKatexCss w' = cachedKatexCss w1
    /\ reads w' = reads w1
    /\ files w' = files w1.
Proof.
  intros Hl E.
  apply bind_ok in E as (w2 & [] & E2 & E).
  rewrite (stepConfig_run _ _ _ _ Hl) in E2.
  destruct (sanitizeMargin c1) as [c2 r2] eqn:D2. simpl in E2. injection E2 as <- ->.
  apply bind_ok in E as (w3 & [] & E3 & E).
  match type of E3 with stepConfig _ _ ?w0 = _ =>
    assert (Hs2 : store w0 !! config = Some c2) by (simpl; apply lookup_insert_eq) end.
  rewrite (stepConfig_run _ _ _ _ Hs2) in E3. simpl in E3. injection E3 as <-.
  apply bind_ok in E as (w4 & main & E4 & E). unfold lift in E4. injection E4 as <- E4.
  match type of E with stepConfig _ _ ?w0 = _ =>
    assert (Hs3 : store w0 !! config = Some (setDest inp c2))
      by (simpl; apply lookup_insert_eq) end.
  rewrite (stepConfig_run _ _ _ _ Hs3) in E.
  destruct (addHighlightStylesheet main (setDest inp c2)) as [c4 r4] eqn:D4.
  simpl in E. injection E as <- ->.
  assert (Hd : forall k, k ≠ "dest" -> setDest inp c2 !! k = c2 !! k).
  { intros k Hk. unfold setDest. destruct (isUndefined _); [|done].
    by rewrite lookup_insert_ne. }
  exists c4. split; [simpl; apply lookup_insert_eq|].
  split; [|split; [|done]].
  - rewrite (addHighlightStylesheet_other _ _ _ _ D4) by discriminate.
    rewrite Hd by discriminate. by rewrite (sanitizeMargin_other _ _ _ D2) by discriminate.
  - rewrite (addHighlightStylesheet_other _ _ _ _ D4) by discriminate.
    rewrite Hd by discriminate. by rewrite (sanitizeMargin_other _ _ _ D2) by discriminate.
Qed.

(** X15. For a merged configuration whose math engine is not KaTeX,
    lines 182-201 read no file and leave the cache and the marks alone,
    and the completed configuration has the [css] and the
    [marked_extensions] it had. *)
Theorem no_math_engine_no_stylesheet inp config w w' c :
  store w !! config = Some c ->
  isString "katex" (field c "math_engine") = false ->
  completeConfig inp config w = (w', Ok tt) ->
  reads w' = reads w
  /\ cachedKatexCss w' = cachedKatexCss w
  /\ configsWithKatexCss w' = configsWithKatexCss w
  /\ files w' = files w
  /\ exists final, store w' !! config = Some final
       /\ final !! "css" = c !! "css"
       /\ final !! "marked_extensions" = c !! "marked_extensions".
Proof.
  intros Hl He E. unfold completeConfig in E.
  rewrite (bind_run _ _ _ _ _ (ensureKatexSupport_other_engine _ _ _ Hl He)) in E.
  destruct (completion_steps _ _ _ _ _ Hl E) as (final & Hs & Hc & Hm & Hk & Hca & Hr & Hf).
  repeat (split; [done|]). by exists final.
Qed.

(** X17. Math support is decided on the merged configuration, after the
    invocation overrides: provided [markedKatex] builds an extension that
    [isKatexExtension] recognises, whenever the merged [math_engine] is
    [katex], wherever it came from, the completed configuration is
    marked and its [marked_extensions] hold a math extension. *)
Theorem math_support_follows_merge inp config fm args w w' config' c :
  (forall options, isKatexExtension (markedKatex options) = true) ->
  store w !! config = Some c ->
  finishConfig inp config fm args w = (w', Ok config') ->
  exists wm merged final,
    mergeConfig config fm args w = (wm, Ok config')
    /\ store wm !! config' = Some merged
    /\ store w' !! config' = Some final
    /\ (field merged "math_engine" = VStr "katex" ->
        config' ∈ configsWithKatexCss w'
        /\ exists extensions,
             final !! "marked_extensions" = Some (VArr extensions)
             /\ existsb isKatexExtension extensions = true).
Proof.
  intros Hlib Hl E. unfold finishConfig in E.
  apply bind_ok in E as (wm & l & Em & E).
  apply bind_ok in E as (w2 & [] & Ec & E). unfold ret in E. injection E as <- <-.
  destruct (mergeConfig_ok _ _ _ _ _ _ _ Hl Em) as (c1 & merged & _ & _ & Hsm).
  unfold completeConfig in Ec. apply bind_ok in Ec as (w1 & [] & Ek & Ec).
  destruct (ensureKatexSupport_preserves _ _ _ _ Hsm Ek) as (k1 & Hs1 & _).
  destruct (completion_steps _ _ _ _ _ Hs1 Ec) as (final & Hsf & _ & Hext & Hmarks & _).
  exists wm, merged, final. split; [done|]. split; [done|]. split; [done|].
  intros Hmath.
  assert (Hk : isString "katex" (field merged "math_engine") = true) by (by rewrite Hmath).
  destruct (ensureKatexSupport_ok _ _ _ _ Hsm Hk Ek) as (extensions & Hm & Hcase).
  split.
  - rewrite Hmarks. case_bool_decide as Hmk.
    + by destruct Hcase as [->|[_ ->]].
    + destruct Hcase as (w0 & wl & katexCss & _ & _ & ->). simpl.
      apply elem_of_union_l. by apply elem_of_singleton.
  - destruct (withKatexExtension_count merged extensions Hlib)
      as (extensions' & Hf & Hno & Hyes & Hex' & _).
    assert (Hf' : withKatexExtension merged extensions !! "marked_extensions"
                  = Some (VArr extensions')).
    { unfold withKatexExtension in *.
      destruct (existsb isKatexExtension extensions) eqn:Hex.
      - rewrite (Hyes eq_refl). unfold field in Hm.
        destruct (merged !! "marked_extensions"); simpl in Hm; [by rewrite Hm | done].
      - rewrite lookup_insert_eq. by rewrite (Hno eq_refl). }
    exists extensions'. split; [|done]. rewrite Hext.
    assert (Hk1 : k1 !! "marked_extensions"
                  = withKatexExtension merged extensions !! "marked_extensions").
    { case_bool_decide as Hmk.
      - destruct Hcase as [->|[Hex ->]].
        + simpl in Hs1. rewrite lookup_insert_eq in Hs1. by injection Hs1 as <-.
        + rewrite Hsm in Hs1. injection Hs1 as <-. unfold withKatexExtension.
          by rewrite Hex.
      - destruct Hcase as (w0 & wl & katexCss & _ & _ & ->). simpl in Hs1.
        rewrite lookup_insert_eq in Hs1. injection Hs1 as <-.
        unfold withKatexCss. by rewrite lookup_insert_ne. }
    by rewrite Hk1.
Qed.

End Completion.

(** ** What a conversion writes *)








Section Outputs.
Context `{Host}.








End Outputs.

(** ** The renderer's shared state *)

(** X16. [marked] is shared by all the calls of [getMarked]: after two
    calls that return, the packs of both are registered, in the order of
    the calls, an empty list registering nothing. An option in force
    after the first call is still in force after the second unless the
    second call's options set it or one of its packs says something
    about it ([highlight] and [langPrefix] apart, which every call
    sets); so an option that the first caller supplied holds after both
    calls when no later options and no pack of either call touch it. An
    option that a pack carries, and that neither the library's combining
    nor a later pack touches, is in force after the call, whatever the
    caller's options say. *)
Theorem getMarked_state_accumulates (hl : Highlighter.hljs) (lib : Highlighter.markedLib)
  o1 e1 o2 e2 m m1 m2 :
  Highlighter.getMarked hl lib o1 e1 m = Ok m1 ->
  Highlighter.getMarked hl lib o2 e2 m1 = Ok m2 ->
  Highlighter.used m2 = Highlighter.used m ++ e1 ++ e2
  /\ (forall key, o2 !! key = None -> key ≠ "highlight" -> key ≠ "langPrefix" ->
        Forall (Highlighter.quietOn lib key) e2 ->
        Highlighter.defaults m2 !! key = Highlighter.defaults m1 !! key)
  /\ (forall key o, o1 !! key = Some o -> o2 !! key = None ->
        key ≠ "highlight" -> key ≠ "langPrefix" ->
        Forall (Highlighter.quietOn lib key) (e1 ++ e2) ->
        Highlighter.defaults m2 !! key = Some o)
  /\ (forall before pack after key v,
        e2 = before ++ pack :: after ->
        ownProps pack !! key = Some v ->
        (forall d combined, Highlighter.combine lib d pack = Ok combined ->
                            combined !! key = None) ->
        Forall (Highlighter.quietOn lib key) after ->
        Highlighter.defaults m2 !! key = Some (Highlighter.OptValue v)).
Proof.
  intros E1 E2. apply getMarked_ok in E1, E2.
  assert (Hset : forall o m0 key, o !! key = None -> key ≠ "highlight" ->
            key ≠ "langPrefix" ->
            Highlighter.defaults
              (Highlighter.setOptions (Highlighter.getMarkedOptions hl o) m0) !! key
            = Highlighter.defaults m0 !! key).
  { intros o m0 key Hn Hh Hp. simpl. apply lookup_union_r.
    unfold Highlighter.getMarkedOptions. rewrite lookup_union_r by done.
    by rewrite !lookup_insert_ne. }
  assert (Hkeep : forall key, o2 !! key = None -> key ≠ "highlight" -> key ≠ "langPrefix" ->
            Forall (Highlighter.quietOn lib key) e2 ->
            Highlighter.defaults m2 !! key = Highlighter.defaults m1 !! key).
  { intros key Hn Hh Hp Hq. rewrite (use_quiet lib key _ _ _ E2 Hq). by apply Hset. }
  split; [|split; [exact Hkeep|split]].
  - rewrite (use_used lib _ _ _ E2). simpl. rewrite (use_used lib _ _ _ E1). simpl.
    by rewrite app_assoc.
  - intros key o Ho Hn Hh Hp Hq. apply Forall_app in Hq as [Hq1 Hq2].
    rewrite Hkeep by done. rewrite (use_quiet lib key _ _ _ E1 Hq1). simpl.
    by do 2 apply lookup_union_Some_l.
  - intros before pack after key v -> Hown Hlib Hq.
    apply use_app in E2 as (m0 & _ & E2). simpl in E2.
    destruct (Highlighter.usePack lib pack m0) as [m3|e] eqn:E3; [|discriminate].
    apply usePack_ok in E3 as (combined & Ec & Hd & _).
    rewrite (use_quiet lib key _ _ _ E2 Hq), Hd.
    apply lookup_union_Some_l. rewrite lookup_union_r by (by eapply Hlib).
    by rewrite lookup_fmap, Hown.
Qed.

(** ** Nothing left to inline *)

Lemma uri_start_in_path p q rest :
  forallb isPathChar p = true -> validQuote q ->
  stripPrefix uriStart ((p ++ quoteText q ++ chars ")") ++ rest) = None.
Proof.
  intros Hp Hq.
  destruct q as [x|]; [destruct (isQuote_cases _ Hq) as [-> | ->]|];
    destruct p as [|a [|b [|c [|d [|e p]]]]];
    cbn -[Ascii.eqb isPathChar] in *; char_cases;
    exfalso; subst; cbn in Hp; discriminate Hp.
Qed.

Lemma noUriStart_path p q :
  forallb isPathChar p = true -> validQuote q ->
  noUriStart (p ++ quoteText q ++ chars ")").
Proof.
  intros Hp Hq. induction p as [|a p IH].
  - destruct q as [x|]; [destruct (isQuote_cases _ Hq) as [-> | ->]|];
      cbn; repeat split; done.
  - split.
    + intros rest. apply (uri_start_in_path (a :: p) q rest Hp Hq).
    + apply IH. simpl in Hp. by apply andb_true_iff in Hp as [_ Hp].
Qed.

Lemma validPath_chars p : validPath p -> forallb isPathChar p = true.
Proof. intros (tail & -> & _ & Ht). by rewrite forallb_app, Ht. Qed.

Lemma noUriStart_reference m :
  validMatch m -> noUriStart (chars "rl(" ++ referenceBody m ++ chars ")").
Proof.
  destruct m as [q p]. intros [Hq Hp]. simpl in Hq, Hp.
  pose proof (noUriStart_path p q (validPath_chars _ Hp) Hq) as Hn.
  unfold referenceBody. cbn [quote fontPath]. rewrite <- !app_assoc.
  destruct q as [x|]; [destruct (isQuote_cases _ Hq) as [-> | ->]|];
    cbn [quoteText app chars list_ascii_of_string] in *;
    repeat (split; [intros rest; reflexivity|]); exact Hn.
Qed.

Lemma noUrlStart_suffix u : forall a b rest,
  noUrlStart u -> u = a ++ b -> b ≠ [] ->
  stripPrefix (chars "url(") (b ++ rest) = None.
Proof.
  induction u as [|c u IH]; intros a b rest Hu E Hb.
  - by destruct a, b.
  - destruct Hu as [Hc Hu]. destruct a as [|x a].
    + simpl in E. subst b. apply Hc.
    + injection E as _ E. by eapply IH.
Qed.

Lemma matchFontUrl_needs_url s :
  stripPrefix (chars "url(") s = None -> matchFontUrl s = None.
Proof. unfold matchFontUrl. by intros ->. Qed.

Section FullyInlined.
Variable uri : list ascii -> list ascii.
Hypothesis uri_shape : forall p, uriShape (uri p).

Lemma uri_begins p : exists x, uri p = uriStart ++ x.
Proof. destruct (uri_shape p) as (body & -> & _). by exists (body ++ chars ")"). Qed.

(** A text in which no data URI starts, found in the inlined stylesheet,
    lies within plain characters. *)
Lemma prefix_within_plain_inlined : forall segs u rest,
  noUriStart u -> u ≠ [] ->
  inlined uri segs = u ++ rest ->
  exists rest', written segs = u ++ rest'.
Proof.
  unfold inlined.
  induction segs as [|[c|m] segs IH]; intros u rest Hu Hne E.
  - destruct u; [done | discriminate E].
  - destruct u as [|c' u]; [done|]. rewrite rendered_cons in E. simpl in E.
    injection E as <- E. unfold written. rewrite rendered_cons.
    fold (written segs). destruct u as [|c'' u].
    + exists (written segs). reflexivity.
    + destruct Hu as [_ Hu]. destruct (IH _ _ Hu ltac:(done) E) as [rest' ->].
      exists rest'. reflexivity.
  - exfalso. destruct u as [|c u]; [done|]. destruct Hu as [Hu _].
    rewrite rendered_cons in E. destruct (uri_begins (fontPath m)) as [x Ex].
    rewrite Ex in E. specialize (Hu rest).
    change (c :: u ++ rest) with ((c :: u) ++ rest) in Hu. rewrite <- E in Hu.
    rewrite <- app_assoc, stripPrefix_app in Hu. discriminate Hu.
Qed.

Lemma uri_no_match p rest : matchFontUrl (uri p ++ rest) = None.
Proof.
  destruct (uri_shape p) as (body & -> & _). reflexivity.
Qed.

(** In the inlined stylesheet the scan finds no reference at any
    position. *)
Lemma inlined_no_match : forall segs before after,
  scanned segs ->
  inlined uri segs = before ++ after ->
  matchFontUrl after = None.
Proof.
  induction segs as [|[c|m] segs IH]; intros before after Hs E.
  - destruct before, after; try discriminate E. reflexivity.
  - destruct Hs as [Hc Hs]. unfold inlined in E. rewrite rendered_cons in E.
    fold (inlined uri segs) in E. destruct before as [|x before].
    + simpl in E. subst after.
      destruct (matchFontUrl (c :: inlined uri segs)) as [[m after]|] eqn:Em; [|done].
      exfalso. apply matchFontUrl_sound in Em as [Et Hm].
      rewrite referenceText_body in Et.
      change (chars "url(" ++ referenceBody m ++ chars ")")
        with ("u"%char :: chars "rl(" ++ referenceBody m ++ chars ")") in Et.
      simpl in Et. injection Et as -> Et.
      destruct (prefix_within_plain_inlined segs
                  (chars "rl(" ++ referenceBody m ++ chars ")") after) as [rest' Hw].
      * by apply noUriStart_reference.
      * discriminate.
      * exact Et.
      * rewrite Hw in Hc.
        change ("u"%char :: (chars "rl(" ++ referenceBody m ++ chars ")") ++ rest')
          with ((chars "url(" ++ referenceBody m ++ chars ")") ++ rest') in Hc.
        rewrite <- referenceText_body in Hc.
        rewrite (matchFontUrl_complete m rest' Hm) in Hc. discriminate Hc.
    + simpl in E. injection E as _ E. by eapply IH.
  - destruct Hs as [Hm Hs]. unfold inlined in E. rewrite rendered_cons in E.
    fold (inlined uri segs) in E.
    apply app_eq_app in E as [l [[Eu Ea]|[Eb Ei]]].
    + (* the position lies within the data URI *)
      destruct l as [|x l].
      { rewrite app_nil_r in Eu. simpl in Ea. subst after. by eapply (IH []). }
      subst after. destruct before as [|y before].
      * simpl in Eu. rewrite <- Eu. apply uri_no_match.
      * apply matchFontUrl_needs_url.
        destruct (uri_shape (fontPath m)) as (body & Ebody & Hb & _).
        rewrite Ebody in Eu.
        change (chars "url(" ++ dquote :: "d"%char :: body ++ chars ")")
          with ("u"%char :: chars "rl(" ++ (dquote :: "d"%char :: body) ++ chars ")") in Eu.
        rewrite <- app_comm_cons in Eu. injection Eu as _ Eu.
        apply (noUrlStart_suffix (chars "rl(" ++ (dquote :: "d"%char :: body) ++ chars ")")
                 before (x :: l) (inlined uri segs)); [|exact Eu|done].
        apply noUrlStart_inside. repeat constructor; try discriminate. exact Hb.
    + by eapply IH.
Qed.

Lemma matchAllFuel_none fuel : forall s,
  (forall before after, s = before ++ after -> matchFontUrl after = None) ->
  matchAllFuel fuel s = [].
Proof.
  induction fuel as [|n IH]; intros s Hs; [done|].
  destruct s as [|c s]; [done|]. cbn [matchAllFuel].
  rewrite (Hs [] (c :: s) eq_refl). apply IH.
  intros before after E. apply (Hs (c :: before) after). by rewrite E.
Qed.

Lemma inlined_matchAll segs : scanned segs -> matchAll (inlined uri segs) = [].
Proof.
  intros Hs. apply matchAllFuel_none. intros before after E.
  by eapply inlined_no_match.
Qed.

End FullyInlined.

Section NothingLeft.
Context `{Host}.

(** What [loadKatexCss] returns for a stylesheet whose font paths hold no
    opening parenthesis and whose fonts are all there. *)
Lemma loadKatexCss_inlined katexCssPath css w :
  cachedKatexCss w = None ->
  require_resolve "katex/dist/katex.min.css" = Ok katexCssPath ->
  files w !! katexCssPath = Some css ->
  (forall p, In p (fontMatches (chars css)) ->
     parenFree p /\ is_Some (files w !! fontFile katexCssPath p)) ->
  exists w',
    loadKatexCss w
    = (w', Ok (text (inlined (fontUri katexCssPath (files w)) (segments (chars css))))).
Proof.
  intros Hcache Hresolve Hcss Hfonts.
  pose proof (scanned_segmentsFuel (List.length (chars css)) (chars css) (le_n _)) as Hs.
  fold (segments (chars css)) in Hs.
  assert (Hrefs : Forall (fun m => In (fontPath m) (fontMatches (chars css)))
                    (references (segments (chars css)))).
  { apply Forall_forall. intros m Hm. apply list_elem_of_In in Hm.
    apply fontMatches_In. split; [|eauto].
    apply validPath_nonempty.
    pose proof (scanned_valid _ Hs) as Hv. rewrite Forall_forall in Hv.
    apply Hv. by apply list_elem_of_In. }
  assert (Hpaths : Forall (fun p => validPath p /\ parenFree p
                             /\ is_Some (files w !! fontFile katexCssPath p))
                     (fontMatches (chars css))).
  { apply Forall_forall. intros p Hp. apply list_elem_of_In in Hp.
    destruct (Hfonts p Hp) as [Hf He]. split; [|done].
    apply fontMatches_In in Hp as [_ (m & Hm & <-)].
    pose proof (scanned_valid _ Hs) as Hv. rewrite Forall_forall in Hv.
    apply Hv. by apply list_elem_of_In. }
  destruct (inlineFonts_rendered katexCssPath (segments (chars css)) Hs
              ltac:(eapply Forall_impl; [exact Hrefs|]; intros m Hm; by apply Hfonts)
              (fontMatches (chars css)) [] (withRead katexCssPath w))
    as (w' & Erun & _ & Hreads).
  { eapply Forall_impl; [exact Hpaths|]. by intros p (? & _). }
  { eapply Forall_impl; [exact Hpaths|]. by intros p (_ & ? & _). }
  { eapply Forall_impl; [exact Hpaths|]. by intros p (_ & _ & ?). }
  eexists.
  unfold loadKatexCss. rewrite Hcache. unfold computeKatexCss.
  unfold bind at 1, lift at 1. rewrite Hresolve.
  unfold bind at 1, fs_readFile at 1. rewrite Hcss.
  assert (Hstart : rendered (doneBy []) (fontUri katexCssPath (files w))
                     (segments (chars css)) = chars css).
  { rewrite rendered_nothing_done. apply written_segmentsFuel. }
  change (files (withRead katexCssPath w)) with (files w) in Erun.
  rewrite Hstart in Erun. unfold bind at 1. rewrite Erun.
  rewrite app_nil_r.
  rewrite (rendered_ext _ (fun _ => true)).
  2:{ eapply Forall_impl; [exact Hrefs|]. intros m Hm. cbn beta.
      apply doneBy_In. by rewrite <- in_rev. }
  reflexivity.
Qed.

(** X19. For a stylesheet none of whose font paths contains an opening
    parenthesis, and with every font file present, the stylesheet that
    [loadKatexCss] returns holds no relative font reference any more:
    the scan of line 74 finds nothing in it, at any position, so that a
    further pass would have no font to read. *)
Theorem no_font_reference_remains katexCssPath css w :
  cachedKatexCss w = None ->
  require_resolve "katex/dist/katex.min.css" = Ok katexCssPath ->
  files w !! katexCssPath = Some css ->
  (forall p, In p (fontMatches (chars css)) ->
     parenFree p /\ is_Some (files w !! fontFile katexCssPath p)) ->
  exists w' result,
    loadKatexCss w = (w', Ok result)
    /\ matchAll (chars result) = []
    /\ fontMatches (chars result) = [].
Proof.
  intros Hcache Hresolve Hcss Hfonts.
  destruct (loadKatexCss_inlined _ _ _ Hcache Hresolve Hcss Hfonts) as [w' E].
  eexists _, _. split; [exact E|].
  pose proof (scanned_segmentsFuel (List.length (chars css)) (chars css) (le_n _)) as Hs.
  fold (segments (chars css)) in Hs.
  assert (Hm : matchAll (chars (text (inlined (fontUri katexCssPath (files w))
                                        (segments (chars css))))) = []).
  { unfold chars, text. rewrite list_ascii_of_string_of_list_ascii.
    apply inlined_matchAll; [|done]. intros p. apply fontUri_shape. }
  split; [exact Hm|]. unfold fontMatches. by rewrite Hm.
Qed.

End NothingLeft.

(** ** The further properties on examples *)

Lemma loadKatexCss_failure_witness :
  let run := loadKatexCss (H := demoHost) missingFontWorld in
  snd run = Throw (IOError "/node_modules/katex/dist/fonts/b.woff")
  /\ cachedKatexCss (fst run) = None
  /\ files (fst run) = files missingFontWorld.
Proof.
  split; [vm_compute; reflexivity|].
  destruct (loadKatexCss_failure (H := demoHost) missingFontWorld
              (fst (loadKatexCss (H := demoHost) missingFontWorld))
              (IOError "/node_modules/katex/dist/fonts/b.woff"))
    as (Hc & (_ & _ & Hf & _) & _).
  - vm_compute; reflexivity.
  - split; [exact Hc | exact Hf].
Defined.

Lemma stylesheet_without_fonts_witness :
  loadKatexCss (H := demoHost) plainCssWorld
  = (withCache (Some plainCss) (withRead katexCssPath plainCssWorld), Ok plainCss).
Proof.
  apply (stylesheet_without_fonts (H := demoHost)); vm_compute; reflexivity.
Defined.

Lemma ensureKatexSupport_failure_witness :
  let run := ensureKatexSupport (H := demoHost) callerConfig missingFontWorld in
  snd run = Throw (IOError "/node_modules/katex/dist/fonts/b.woff")
  /\ (callerConfig ∉ configsWithKatexCss (fst run))
  /\ store (fst run) !! callerConfig
     = Some (withKatexExtension (H := demoHost) mathConfig [])
  /\ field (withKatexExtension (H := demoHost) mathConfig []) "marked_extensions"
     = VArr [demoMarkedKatex VUndef].
Proof.
  split; [vm_compute; reflexivity|].
  destruct (ensureKatexSupport_failure (H := demoHost) callerConfig missingFontWorld
              (fst (ensureKatexSupport (H := demoHost) callerConfig missingFontWorld))
              mathConfig [] (IOError "/node_modules/katex/dist/fonts/b.woff"))
    as (_ & Hn & _ & Hs & _ & Hk & _).
  - reflexivity.
  - reflexivity.
  - vm_compute; reflexivity.
  - split; [by rewrite Hk|]. split; [exact Hs | reflexivity].
Defined.

Lemma warm_cache_math_support_witness :
  let run := ensureKatexSupport (H := demoHost) callerConfig warmWorld in
  snd run = Ok tt
  /\ reads (fst run) = []
  /\ exists final, store (fst run) !! callerConfig = Some final
       /\ final !! "css" = Some (VStr ("body{}" +:+ newline +:+ ".katex{}")).
Proof.
  intros run.
  assert (E : run
              = (withKatexSet (fun s => {[callerConfig]} ∪ s)
                   (withStore <[callerConfig := withKatexCss (H := demoHost) ".katex{}"
                                   (withKatexExtension (H := demoHost) mathConfig [])]>
                      warmWorld), Ok tt)).
  { apply (warm_cache_math_support (H := demoHost) callerConfig warmWorld mathConfig []
             ".katex{}"); try reflexivity; [discriminate | apply not_elem_of_empty]. }
  rewrite E. split; [reflexivity|]. split; [reflexivity|].
  eexists. split; [simpl; apply lookup_insert_eq|]. vm_compute; reflexivity.
Defined.

Lemma untouched_keys_keep_defaults_witness :
  let run := mergeConfig (H := demoHost) callerConfig (FMData (VObj exampleFrontMatter))
               exampleArgs exampleWorld in
  snd run = Ok mergedConfig
  /\ exists final, store (fst run) !! mergedConfig = Some final
       /\ final !! "stylesheet" = Some (VArr [VStr "a.css"])
       /\ final !! "dest" = None.
Proof.
  split; [vm_compute; reflexivity|].
  destruct (untouched_keys_keep_defaults (H := demoHost) exampleWorld callerConfig
              exampleDefaults (FMData (VObj exampleFrontMatter)) exampleArgs
              (fst (mergeConfig (H := demoHost) callerConfig
                      (FMData (VObj exampleFrontMatter)) exampleArgs exampleWorld))
              mergedConfig "stylesheet")
    as (final & Hs & Hk); [reflexivity | vm_compute; reflexivity | reflexivity
                          | reflexivity | discriminate |].
  destruct (untouched_keys_keep_defaults (H := demoHost) exampleWorld callerConfig
              exampleDefaults (FMData (VObj exampleFrontMatter)) exampleArgs
              (fst (mergeConfig (H := demoHost) callerConfig
                      (FMData (VObj exampleFrontMatter)) exampleArgs exampleWorld))
              mergedConfig "dest")
    as (final' & Hs' & Hk'); [reflexivity | vm_compute; reflexivity | reflexivity
                             | reflexivity | discriminate |].
  exists final. split; [exact Hs|]. split; [exact Hk|].
  rewrite Hs in Hs'. injection Hs' as <-. exact Hk'.
Defined.

Lemma front_matter_step_outcome_witness :
  mergeFrontMatterStep callerConfig (FMData VNull) exampleWorld
  = (exampleWorld, Throw (TypeError "pdf_options")).
Proof.
  apply (front_matter_step_outcome callerConfig VNull exampleWorld exampleDefaults).
  reflexivity.
Defined.

Lemma overrides_stop_at_first_failure_witness :
  exists c', mergeCliArgs (H := demoHost) brokenArgs exampleDefaults
             = (c', Throw (SyntaxError "JSON"))
    /\ c' = <["body_class" := VStr "dark"]> exampleDefaults.
Proof.
  destruct (overrides_stop_at_first_failure (H := demoHost)
              [("--body-class", VStr "dark")] "--pdf-options" (VStr "{scale")
              [("--as-html", VBool true)] exampleDefaults (SyntaxError "JSON"))
    as (_ & _ & c' & E1 & E2).
  - repeat constructor; [by eexists | discriminate].
  - vm_compute; reflexivity.
  - exists c'. split; [exact E2|]. by injection E1 as <-.
Defined.

Lemma caller_config_survives_witness :
  let run := convertParsed (H := demoHost) (InContent "# hi") "# hi" noFrontMatter
               callerConfig [] mathWorld in
  store (fst run) !! callerConfig = Some mathConfig
  /\ (callerConfig ∈ configsWithKatexCss (fst run)
      <-> callerConfig ∈ configsWithKatexCss mathWorld).
Proof.
  apply (caller_config_survives (H := demoHost) (InContent "# hi") "# hi" (VObj ∅)
           callerConfig [] mathWorld mathConfig).
  reflexivity.
Defined.

Lemma highlight_stylesheet_once_witness :
  let c := <["stylesheet" := VArr [VStr "a.css"; VStr "a.css"]]> mathConfig in
  let run := addHighlightStylesheet (H := demoHost) hljsMainPath c in
  snd run = Ok tt
  /\ fst run !! "stylesheet"
     = Some (VArr [VStr "a.css"; VStr "/node_modules/../styles/github.css"])
  /\ addHighlightStylesheet (H := demoHost) hljsMainPath (fst run) = (fst run, Ok tt).
Proof.
  intros c run. split; [vm_compute; reflexivity|]. split; [vm_compute; reflexivity|].
  destruct (highlight_stylesheet_once (H := demoHost) hljsMainPath c (fst run))
    as (before & after & _ & _ & _ & _ & _ & Hidem); [vm_compute; reflexivity|].
  exact Hidem.
Defined.

Lemma no_math_engine_no_stylesheet_witness :
  let run := completeConfig (H := demoHost) (InContent "# hi") callerConfig
               (worldWith plainConfig exampleFiles) in
  snd run = Ok tt
  /\ reads (fst run) = []
  /\ cachedKatexCss (fst run) = None
  /\ exists final, store (fst run) !! callerConfig = Some final
       /\ final !! "css" = Some (VStr "body{}").
Proof.
  intros run. split; [vm_compute; reflexivity|].
  destruct (no_math_engine_no_stylesheet (H := demoHost) (InContent "# hi") callerConfig
              (worldWith plainConfig exampleFiles) (fst run) plainConfig)
    as (Hr & Hc & _ & _ & final & Hs & Hcss & _);
    [reflexivity | reflexivity | vm_compute; reflexivity |].
  split; [exact Hr|]. split; [exact Hc|]. exists final. split; [exact Hs|].
  rewrite Hcss. reflexivity.
Defined.

Lemma math_support_follows_merge_witness :
  let run := finishConfig (H := demoHost) (InContent "# hi") callerConfig noFrontMatter
               [("--math-engine", VStr "katex")] (worldWith plainConfig exampleFiles) in
  snd run = Ok mergedConfig
  /\ mergedConfig ∈ configsWithKatexCss (fst run)
  /\ exists final extensions,
       store (fst run) !! mergedConfig = Some final
       /\ final !! "marked_extensions" = Some (VArr extensions)
       /\ existsb isKatexExtension extensions = true.
Proof.
  intros run. split; [vm_compute; reflexivity|].
  destruct (math_support_follows_merge (H := demoHost) (InContent "# hi") callerConfig
              noFrontMatter [("--math-engine", VStr "katex")]
              (worldWith plainConfig exampleFiles) (fst run) mergedConfig plainConfig)
    as (wm & merged & final & Em & Hsm & Hsf & Hmath);
    [reflexivity | reflexivity | vm_compute; reflexivity |].
  assert (Hk : field (default ∅ (store (fst (mergeConfig (H := demoHost) callerConfig
                                             noFrontMatter [("--math-engine", VStr "katex")]
                                             (worldWith plainConfig exampleFiles)))
                                !! mergedConfig)) "math_engine" = VStr "katex")
    by (vm_compute; reflexivity).
  rewrite Em in Hk. cbn [fst] in Hk. rewrite Hsm in Hk. cbn [default] in Hk.
  destruct (Hmath Hk) as (Hin & extensions & He & Hex).
  split; [exact Hin|]. exists final, extensions.
  split; [exact Hsf|]. split; [exact He | exact Hex].
Defined.


Lemma no_font_reference_remains_witness :
  exists w' result,
    loadKatexCss (H := demoHost) mathWorld = (w', Ok result)
    /\ matchAll (chars result) = []
    /\ fontMatches (chars result) = [].
Proof.
  apply (no_font_reference_remains (H := demoHost) katexCssPath exampleCss mathWorld).
  - reflexivity.
  - reflexivity.
  - vm_compute; reflexivity.
  - intros p Hp. vm_compute in Hp. destruct Hp as [<-|[<-|[]]].
    + split; [repeat constructor; discriminate | eexists; vm_compute; reflexivity].
    + split; [repeat constructor; discriminate | eexists; vm_compute; reflexivity].
Defined.

Lemma merge_succeeds_witness :
  exists w' config',
    mergeConfig (H := demoHost) callerConfig (FMData (VObj exampleFrontMatter))
      exampleArgs exampleWorld = (w', Ok config').
Proof.
  apply (merge_succeeds (H := demoHost) callerConfig (FMData (VObj exampleFrontMatter))
           exampleArgs exampleWorld exampleDefaults).
  - reflexivity.
  - split; discriminate.
  - repeat constructor; try discriminate; eexists; vm_compute; reflexivity.
Defined.

Lemma getMarked_state_accumulates_witness :
  let first := Highlighter.getMarked demoHljs demoMarked
                 {[ "breaks" := Highlighter.OptValue (VBool true) ]} [] freshMarked in
  let m1 := match first with Ok m => m | Throw _ => freshMarked end in
  let second := Highlighter.getMarked demoHljs demoMarked
                  {[ "gfm" := Highlighter.OptValue (VBool false) ]} [optionsPack] m1 in
  let m2 := match second with Ok m => m | Throw _ => freshMarked end in
  first = Ok m1
  /\ second = Ok m2
  /\ Highlighter.used m2 = [optionsPack]
  /\ Highlighter.defaults m2 !! "breaks" = Some (Highlighter.OptValue (VBool true))
  /\ Highlighter.defaults m2 !! "gfm" = Some (Highlighter.OptValue (VBool true))
  /\ Highlighter.defaults m2 !! "langPrefix" = Some (Highlighter.OptValue (VStr "x-")).
Proof.
  intros first m1 second m2.
  assert (E1 : first = Ok m1) by reflexivity.
  assert (E2 : second = Ok m2) by reflexivity.
  destruct (getMarked_state_accumulates demoHljs demoMarked _ _ _ _ _ _ _ E1 E2)
    as (Hu & _ & Hfirst & Hpack).
  assert (Hquiet : forall key, key ≠ "extensions" ->
            forall d combined, demoCombine d optionsPack = Ok combined ->
                               combined !! key = None).
  { intros key Hk d combined [= <-]. apply lookup_empty. }
  split; [exact E1|]. split; [exact E2|]. split; [exact Hu|]. split; [|split].
  - apply Hfirst; [reflexivity | reflexivity | discriminate | discriminate |].
    apply Forall_cons. split; [|apply Forall_nil_2].
    split; [reflexivity | by apply Hquiet].
  - apply (Hpack [] optionsPack [] "gfm" (VBool true));
      [reflexivity | reflexivity | by apply Hquiet | apply Forall_nil_2].
  - apply (Hpack [] optionsPack [] "langPrefix" (VStr "x-"));
      [reflexivity | reflexivity | by apply Hquiet | apply Forall_nil_2].
Defined.
